(** * Vision controller of the self-aiming device (final_code.py, V1.9)

    A shallow embedding of the target validator, the geometry helpers,
    the coordinate sender with its rate gate, and the command handling of the
    main loop, together with the properties stated about them.

    Conventions of the embedding.
    - Python [int] is [Z].
    - A Python [float] is a rational [Q], and [math.pi] is the binary64
      constant the [math] module exports.  [int(f)] is truncation toward
      zero.  In the scan phase (lines 260-264) and in the smoothing of the
      scan point (lines 270-271) every float operation rounds its exact
      result to the nearest binary64 value, as the interpreter does, and
      [f % g] is Python's remainder on floats.  The geometry helpers and the
      validator read their float operations as the exact operations on
      rationals.
    - [None] is [None] of an [option] type.
    - The module-level variables written by the functions are the fields of
      a record [globals]; a function that declares them [global] is a state
      transformer on that record.
    - [uart.write] appends the written bytes to a log held in [globals]. *)

From Stdlib Require Import String ZArith QArith Qround Qabs Qpower Bool List Permutation Lia Lqa.
Import ListNotations.

Local Open Scope Z_scope.

(** ** Binary64 arithmetic *)

Module Binary64.

(** [2 ** e]. *)
Definition pow2 (e : Z) : Q := Qpower 2 e.

(** [floor(log2(q))] of a positive [q]: the difference of the bit lengths
    of numerator and denominator, or one less. *)
Definition ilog2 (q : Q) : Z :=
  let l := Z.log2 (Qnum q) - Z.log2 (Zpos (Qden q)) in
  if Qle_bool (pow2 l) q then l else l - 1.

(** The nearest integer, a tie going to the even one. *)
Definition nearest_even (q : Q) : Z :=
  let f := Qfloor q in
  match Qcompare (q - inject_Z f) (1 # 2) with
  | Lt => f
  | Gt => f + 1
  | Eq => if Z.even f then f else f + 1
  end.

(** The exponent of the last place of the doubles around [q]: 53
    significant bits, and no place below [2 ** -1074]. *)
Definition ulp_exponent (q : Q) : Z := Z.max (ilog2 (Qabs q) - 52) (-1074).

(** The double nearest to [q], a tie going to the even significand.  The
    exponent has no upper limit here: the magnitudes at which a double
    overflows are out of reach of the values the controller computes. *)
Definition round (q : Q) : Q :=
  if Qeq_bool q 0 then 0%Q
  else
    let e := ulp_exponent q in
    (inject_Z (nearest_even (q / pow2 e)) * pow2 e)%Q.

(** [x + y], [x - y], [x * y] and [x / y] on floats. *)
Definition add (x y : Q) : Q := round (x + y).
Definition sub (x y : Q) : Q := round (x - y).
Definition mul (x y : Q) : Q := round (x * y).
Definition div (x y : Q) : Q := round (x / y).

(** The values a double can hold. *)
Definition representable (c : Q) : Prop :=
  exists m e : Z,
    -1074 <= e /\ Z.abs m < 2 ^ 53 /\ (c == inject_Z m * pow2 e)%Q.

End Binary64.

Arguments Binary64.pow2 : simpl never.
Arguments Binary64.round : simpl never.
Arguments Binary64.add : simpl never.
Arguments Binary64.sub : simpl never.
Arguments Binary64.mul : simpl never.
Arguments Binary64.div : simpl never.

(** ** Python numerics *)

Module Py.

(** [x < y] on floats. *)
Definition Qlt_bool (x y : Q) : bool := negb (Qle_bool y x).

(** [int(f)] for a float [f]: truncation toward zero. *)
Definition int (f : Q) : Z :=
  if Qle_bool 0 f then Qfloor f else Qceiling f.

(** [f % g] on floats, for a non-zero [g].  The interpreter takes C's
    [fmod(f, g)], which is exact and has the sign of [f]; a zero remainder
    is returned as zero, and a remainder whose sign differs from that of
    [g] has [g] added to it, with the rounding of a float addition. *)
Definition fmod (f g : Q) : Q :=
  let r := (f - inject_Z (int (f / g)) * g)%Q in
  if Qeq_bool r 0 then 0%Q
  else if Bool.eqb (Qlt_bool g 0) (Qlt_bool r 0) then r
  else Binary64.add r g.

(** [a // b] and [a % b] on ints are [Z.div] and [Z.modulo] (floored). *)

(** [math.pi], the binary64 value 0x400921FB54442D18. *)
Definition pi : Q := 884279719003555 # 281474976710656.

(** [struct.pack('>H', v)]: two bytes, most significant first; the call
    raises when [v] does not fit 16 bits. *)
Definition pack_H (v : Z) : option (list Z) :=
  if (0 <=? v) && (v <=? 65535)
  then Some [Z.shiftr v 8; Z.land v 255]
  else None.

End Py.

(** ** Global configuration *)

Definition STANDARD_SEND_INTERVAL_MS : Z := 30.
Definition CIRCLE_SEND_INTERVAL_MS : Z := 50.

Definition SCREEN_WIDTH : Z := 240.
Definition SCREEN_HEIGHT : Z := 160.
Definition SCREEN_CENTER_X : Z := SCREEN_WIDTH / 2.
Definition SCREEN_CENTER_Y : Z := SCREEN_HEIGHT / 2.

Definition target_circle_time : Z := 15000.
Definition smooth_factor : Q := Binary64.round (7 # 10). (* the literal 0.7 *)

Definition STATE_IDLE : Z := 0.
Definition STATE_AIM_BULLSEYE : Z := 1.
Definition STATE_CIRCLE_TRACKING : Z := 2.

Definition CMD_AIM_BULLSEYE : Z := 161.    (* b'\xA1' *)
Definition CMD_CIRCLE_TRACKING : Z := 162. (* b'\xA2' *)
Definition CMD_IDLE : Z := 163.            (* b'\xA3' *)

Definition TARGET_LOCKED_HEADER : list Z := [60; 59]. (* b'\x3C\x3B' *)
Definition TARGET_LOCKED_FOOTER : list Z := [1; 1].   (* b'\x01\x01' *)

(** ** Geometry helpers *)

Definition point : Type := (Z * Z)%type.

(** [calculate_perspective_correction(corners)].  The intersection of the
    diagonals corners[0]-corners[2] and corners[1]-corners[3]; the true
    division is a float, [int] truncates it. *)
Definition diagonals_det (c0 c1 c2 c3 : point) : Z :=
  let '(x1, y1) := c0 in let '(x2, y2) := c2 in
  let '(x3, y3) := c1 in let '(x4, y4) := c3 in
  (x1 - x2) * (y3 - y4) - (y1 - y2) * (x3 - x4).

Definition diagonals_px (c0 c1 c2 c3 : point) : Q :=
  let '(x1, y1) := c0 in let '(x2, y2) := c2 in
  let '(x3, y3) := c1 in let '(x4, y4) := c3 in
  (inject_Z ((x1 * y2 - y1 * x2) * (x3 - x4) - (x1 - x2) * (x3 * y4 - y3 * x4))
   / inject_Z (diagonals_det c0 c1 c2 c3))%Q.

Definition diagonals_py (c0 c1 c2 c3 : point) : Q :=
  let '(x1, y1) := c0 in let '(x2, y2) := c2 in
  let '(x3, y3) := c1 in let '(x4, y4) := c3 in
  (inject_Z ((x1 * y2 - y1 * x2) * (y3 - y4) - (y1 - y2) * (x3 * y4 - y3 * x4))
   / inject_Z (diagonals_det c0 c1 c2 c3))%Q.

Definition simple_center (corners : list point) : point :=
  let x_sum := fold_right Z.add 0 (map fst corners) in
  let y_sum := fold_right Z.add 0 (map snd corners) in
  (x_sum / 4, y_sum / 4).

Definition calculate_perspective_correction (corners : option (list point)) : point :=
  match corners with
  | Some [c0; c1; c2; c3] =>
      let d := diagonals_det c0 c1 c2 c3 in
      if d =? 0 then simple_center [c0; c1; c2; c3]
      else (Py.int (diagonals_px c0 c1 c2 c3), Py.int (diagonals_py c0 c1 c2 c3))
  | _ => (SCREEN_CENTER_X, SCREEN_CENTER_Y)
  end.

(** [calculate_circle_params(rect_width, rect_height)]; the product with
    0.2891 is a float. *)
Definition calculate_circle_params (rect_width rect_height : option Z) : Z * Z :=
  match rect_width, rect_height with
  | Some w, Some h =>
      if (w <=? 0) || (h <=? 0) then (30, 20)
      else
        let r_6cm := Z.max 3 (Py.int (inject_Z h * (2891 # 10000))) in
        (0, r_6cm)
  | _, _ => (30, 20)
  end.

(** ** Candidate validator *)

(** What the detector reports for one blob: [blob.rect()], [blob.area()]
    (the count the code calls [blob_pixels]) and [blob.perimeter()]. *)
Record blob : Type := mkBlob {
  rect : Z * Z * Z * Z;
  area : Z;
  perimeter : Z
}.

Definition rect_area_of (b : blob) : Z :=
  let '(_, _, rect_w, rect_h) := rect b in rect_w * rect_h.

Definition frame_fraction (f : Q) : Q :=
  (inject_Z (SCREEN_WIDTH * SCREEN_HEIGHT) * f)%Q.

Definition density_of (blob_pixels rect_area : Z) : Q :=
  if 0 <? rect_area then (inject_Z blob_pixels / inject_Z rect_area)%Q else 0%Q.

Definition aspect_ratio_of (rect_w rect_h : Z) : Q :=
  (inject_Z (Z.max rect_w rect_h) / inject_Z (Z.min rect_w rect_h))%Q.

Definition shape_factor_of (perimeter blob_pixels : Z) : Q :=
  if 0 <? blob_pixels
  then (inject_Z (perimeter * perimeter) / (4 * Py.pi * inject_Z blob_pixels))%Q
  else 0%Q.

(** Line 127: [rect_w == 0 or rect_h == 0]. *)
Definition is_degenerate (rect_w rect_h : Z) : bool :=
  (rect_w =? 0) || (rect_h =? 0).

(** Lines 130-132: the edge check. *)
Definition is_on_edge (rect_x rect_y rect_w rect_h : Z) : bool :=
  (rect_x =? 0) || (rect_y =? 0)
  || (rect_x + rect_w >=? SCREEN_WIDTH)
  || (rect_y + rect_h >=? SCREEN_HEIGHT).

(** Lines 139-141: [is_very_large and density > 0.6]. *)
Definition is_flooding (blob_pixels rect_area : Z) : bool :=
  let density := density_of blob_pixels rect_area in
  let is_very_large :=
    Py.Qlt_bool (frame_fraction (75 # 100)) (inject_Z rect_area) in
  is_very_large && Py.Qlt_bool (6 # 10) density.

(** Lines 144-148: the condition of the last [if]. *)
Definition shape_accepted (rect_w rect_h rect_area perimeter blob_pixels : Z) : bool :=
  let aspect_ratio := aspect_ratio_of rect_w rect_h in
  let shape_factor := shape_factor_of perimeter blob_pixels in
  Py.Qlt_bool aspect_ratio 4
  && (1000 <? rect_area)
  && Py.Qlt_bool (inject_Z rect_area) (frame_fraction (95 # 100))
  && Py.Qlt_bool (11 # 10) shape_factor.

(** The body of the [for blob in blobs] loop: [None] where the body reaches
    a [continue] or falls through its last [if], [Some] where it appends. *)
Definition examine_blob (b : blob) : option (blob * Z) :=
  let '(rect_x, rect_y, rect_w, rect_h) := rect b in
  if is_degenerate rect_w rect_h then None
  else if is_on_edge rect_x rect_y rect_w rect_h then None
  else
    let rect_area := rect_w * rect_h in
    let blob_pixels := area b in
    if is_flooding blob_pixels rect_area then None
    else
      if shape_accepted rect_w rect_h rect_area (perimeter b) blob_pixels
      then Some (b, rect_area)
      else None.

Fixpoint scan_blobs (blobs : list blob) (candidates : list (blob * Z))
  : list (blob * Z) :=
  match blobs with
  | [] => candidates
  | b :: rest =>
      match examine_blob b with
      | Some c => scan_blobs rest (candidates ++ [c])
      | None => scan_blobs rest candidates
      end
  end.

(** Python's [max(iterable, key=...)]: the first element whose key is
    maximal; it raises on an empty iterable. *)
Fixpoint max_from {A : Type} (key : A -> Z) (best : A) (l : list A) : A :=
  match l with
  | [] => best
  | c :: rest => if key best <? key c then max_from key c rest
                 else max_from key best rest
  end.

Definition py_max {A : Type} (key : A -> Z) (l : list A) : option A :=
  match l with
  | [] => None
  | a :: rest => Some (max_from key a rest)
  end.

(** [find_target_boundary_rect(img)], on the blobs [img.find_blobs] returned. *)
Definition find_target_boundary_rect (blobs : list blob) : option blob :=
  match blobs with
  | [] => None
  | _ =>
      match scan_blobs blobs [] with
      | [] => None
      | candidates => option_map fst (py_max snd candidates)
      end
  end.

(** ** Module-level state *)

Record globals : Type := mkGlobals {
  current_send_interval_ms : Z;
  last_uart_send_time : Z;
  current_angle : Q;
  circle_start_time : option Z;
  last_target_point : option point;
  current_state : Z;
  uart_tx : list (list Z)
}.

(** The values the module assigns at import, and [current_state] as the
    main program initialises it. *)
Definition boot : globals :=
  {| current_send_interval_ms := STANDARD_SEND_INTERVAL_MS;
     last_uart_send_time := 0;
     current_angle := 0;
     circle_start_time := None;
     last_target_point := None;
     current_state := STATE_IDLE;
     uart_tx := [] |}.

Definition set_current_send_interval_ms (v : Z) (g : globals) : globals :=
  {| current_send_interval_ms := v;
     last_uart_send_time := last_uart_send_time g;
     current_angle := current_angle g;
     circle_start_time := circle_start_time g;
     last_target_point := last_target_point g;
     current_state := current_state g;
     uart_tx := uart_tx g |}.

Definition set_last_uart_send_time (v : Z) (g : globals) : globals :=
  {| current_send_interval_ms := current_send_interval_ms g;
     last_uart_send_time := v;
     current_angle := current_angle g;
     circle_start_time := circle_start_time g;
     last_target_point := last_target_point g;
     current_state := current_state g;
     uart_tx := uart_tx g |}.

Definition set_current_angle (v : Q) (g : globals) : globals :=
  {| current_send_interval_ms := current_send_interval_ms g;
     last_uart_send_time := last_uart_send_time g;
     current_angle := v;
     circle_start_time := circle_start_time g;
     last_target_point := last_target_point g;
     current_state := current_state g;
     uart_tx := uart_tx g |}.

Definition set_circle_start_time (v : option Z) (g : globals) : globals :=
  {| current_send_interval_ms := current_send_interval_ms g;
     last_uart_send_time := last_uart_send_time g;
     current_angle := current_angle g;
     circle_start_time := v;
     last_target_point := last_target_point g;
     current_state := current_state g;
     uart_tx := uart_tx g |}.

Definition set_last_target_point (v : option point) (g : globals) : globals :=
  {| current_send_interval_ms := current_send_interval_ms g;
     last_uart_send_time := last_uart_send_time g;
     current_angle := current_angle g;
     circle_start_time := circle_start_time g;
     last_target_point := v;
     current_state := current_state g;
     uart_tx := uart_tx g |}.

Definition set_current_state (v : Z) (g : globals) : globals :=
  {| current_send_interval_ms := current_send_interval_ms g;
     last_uart_send_time := last_uart_send_time g;
     current_angle := current_angle g;
     circle_start_time := circle_start_time g;
     last_target_point := last_target_point g;
     current_state := v;
     uart_tx := uart_tx g |}.

(** [uart.write(data)]. *)
Definition uart_write (data : list Z) (g : globals) : globals :=
  {| current_send_interval_ms := current_send_interval_ms g;
     last_uart_send_time := last_uart_send_time g;
     current_angle := current_angle g;
     circle_start_time := circle_start_time g;
     last_target_point := last_target_point g;
     current_state := current_state g;
     uart_tx := uart_tx g ++ [data] |}.

(** ** Mode commands *)

Definition set_send_interval_for_mode (mode : Z) (g : globals) : globals :=
  if mode =? STATE_CIRCLE_TRACKING
  then set_current_send_interval_ms CIRCLE_SEND_INTERVAL_MS g
  else set_current_send_interval_ms STANDARD_SEND_INTERVAL_MS g.

(** The [if command in COMMAND_MAP:] block of the main loop, for the byte
    [uart.read(1)] returned. *)
Definition handle_command (command : Z) (g : globals) : globals :=
  if (command =? CMD_AIM_BULLSEYE) || (command =? CMD_CIRCLE_TRACKING)
     || (command =? CMD_IDLE)
  then
    if command =? CMD_AIM_BULLSEYE then
      set_send_interval_for_mode STATE_AIM_BULLSEYE
        (set_current_state STATE_AIM_BULLSEYE g)
    else if command =? CMD_CIRCLE_TRACKING then
      set_last_target_point None
        (set_current_angle 0
           (set_circle_start_time None
              (set_send_interval_for_mode STATE_CIRCLE_TRACKING
                 (set_current_state STATE_CIRCLE_TRACKING g))))
    else if command =? CMD_IDLE then
      set_current_state STATE_IDLE g
    else g
  else g.

(** ** Scan phase *)

(** Line 260: the angle a uniform revolution would have reached,
    [(elapsed_time % target_circle_time) / target_circle_time * 2 *
    math.pi], a true division of two ints and two float products. *)
Definition ideal_angle_of (elapsed_time : Z) : Q :=
  Binary64.mul
    (Binary64.mul
       (Binary64.div (inject_Z (elapsed_time mod target_circle_time))
                     (inject_Z target_circle_time))
       2)
    Py.pi.

(** Lines 262-263.  [2 * math.pi] and [-math.pi] are computed without
    rounding, the subtraction and the addition are float operations. *)
Definition wrap_angle_diff (angle_diff : Q) : Q :=
  if Py.Qlt_bool Py.pi angle_diff
  then Binary64.sub angle_diff (2 * Py.pi)
  else if Py.Qlt_bool angle_diff (- Py.pi)
  then Binary64.add angle_diff (2 * Py.pi)
  else angle_diff.

(** Lines 261-264: the new [current_angle],
    [(current_angle + angle_diff * 0.3) % (2 * math.pi)]. *)
Definition advance_angle (ideal_angle current_angle : Q) : Q :=
  let angle_diff :=
    wrap_angle_diff (Binary64.sub ideal_angle current_angle) in
  Py.fmod
    (Binary64.add current_angle
       (Binary64.mul angle_diff (Binary64.round (3 # 10))))
    (2 * Py.pi).

(** ** Packet *)

Definition clamp255 (v : Z) : Z := Z.min 255 (Z.max 0 v).

(** Lines 280-282: the bytes handed to [uart.write], or [None] where
    [struct.pack] raises. *)
Definition target_packet (final_x final_y : Z) : option (list Z) :=
  let combined_coord := Z.lor (Z.shiftl final_x 8) final_y in
  match Py.pack_H combined_coord with
  | Some payload => Some (TARGET_LOCKED_HEADER ++ payload ++ TARGET_LOCKED_FOOTER)
  | None => None
  end.

(** ** Sending coordinates *)

(** The values [time.ticks_ms()] returns during one call of
    [send_target_coords]: at line 250, at line 257 (read only when
    [circle_start_time] is [None]) and at line 259. *)
Record readings : Type := mkReadings {
  ticks_gate : Z;
  ticks_start : Z;
  ticks_elapsed : Z
}.

(** [mode == "circle"], for a [mode] that is a string or [None]. *)
Definition mode_is_circle (mode : option string) : bool :=
  match mode with
  | Some m => String.eqb m "circle"
  | None => false
  end.

(** The condition of line 254: a call takes the circle branch when
    [mode == "circle"] and neither [center] nor [radius] is [None]. *)
Definition is_circle_call (mode : option string) (center : option point)
                          (radius : option Z) : bool :=
  match mode_is_circle mode, center, radius with
  | true, Some _, Some _ => true
  | _, _, _ => false
  end.

Section Platform.

(** [math.cos] and [math.sin]. *)
Variables cos sin : Q -> Q.

(** Half of MicroPython's [TICKS_PERIOD]: [ticks_ms] counts modulo the
    period and [ticks_diff] returns the signed difference in
    [-TICKS_PERIOD/2, TICKS_PERIOD/2). *)
Variable ticks_half : Z.

Definition TICKS_PERIOD : Z := 2 * ticks_half.

Definition ticks_ms (now : Z) : Z := now mod TICKS_PERIOD.

Definition ticks_diff (ticks1 ticks2 : Z) : Z :=
  (ticks1 - ticks2 + ticks_half) mod TICKS_PERIOD - ticks_half.

Definition get_ellipse_point (center_x center_y : option Z) (a b : option Q)
                             (angle rotation : Q) : point :=
  match center_x, center_y, a, b with
  | Some center_x, Some center_y, Some a, Some b =>
      let a := Z.max 1 (Py.int a) in
      let b := Z.max 1 (Py.int b) in
      let x := (inject_Z a * cos angle)%Q in
      let y := (inject_Z b * sin angle)%Q in
      let rotated_x := (x * cos rotation - y * sin rotation)%Q in
      let rotated_y := (x * sin rotation + y * cos rotation)%Q in
      (Py.int (inject_Z center_x + rotated_x),
       Py.int (inject_Z center_y + rotated_y))
  | _, _, _, _ => (SCREEN_CENTER_X, SCREEN_CENTER_Y)
  end.

(** The [mode == "circle"] branch, lines 255-273: the new globals and
    [(final_x, final_y)]. *)
Definition circle_branch (clk : readings) (center : point) (radius : Z)
    (ellipse_params : option (option Q * option Q * option Q))
    (g : globals) : globals * point :=
  let '(center_x, center_y) := center in
  let '(g, start) :=
    match circle_start_time g with
    | None => (set_current_angle 0
                 (set_circle_start_time (Some (ticks_start clk)) g),
               ticks_start clk)
    | Some t => (g, t)
    end in
  let elapsed_time := ticks_diff (ticks_elapsed clk) start in
  let ideal_angle := ideal_angle_of elapsed_time in
  let g := set_current_angle (advance_angle ideal_angle (current_angle g)) g in
  let '(a, b, rotation) :=
    match ellipse_params with
    | Some (Some a, Some b, Some rotation) => (a, b, rotation)
    | _ => (inject_Z radius, inject_Z radius, 0%Q)
    end in
  let '(target_x, target_y) :=
    get_ellipse_point (Some center_x) (Some center_y) (Some a) (Some b)
                      (current_angle g) rotation in
  let '(target_x, target_y) :=
    match last_target_point g with
    | Some (last_x, last_y) =>
        (Py.int
           (Binary64.add
              (Binary64.mul (inject_Z target_x) (Binary64.sub 1 smooth_factor))
              (Binary64.mul (inject_Z last_x) smooth_factor)),
         Py.int
           (Binary64.add
              (Binary64.mul (inject_Z target_y) (Binary64.sub 1 smooth_factor))
              (Binary64.mul (inject_Z last_y) smooth_factor)))
    | None => (target_x, target_y)
    end in
  let g := set_last_target_point (Some (target_x, target_y)) g in
  (g, (clamp255 target_x, clamp255 target_y)).

(** The [else] branch, lines 275-278. *)
Definition aim_branch (cx cy : option Z) (g : globals) : globals * point :=
  let '(cx, cy) :=
    match cx, cy with
    | Some cx, Some cy => (cx, cy)
    | _, _ => (SCREEN_CENTER_X, SCREEN_CENTER_Y)
    end in
  let g := set_last_target_point None (set_circle_start_time None g) in
  (g, (clamp255 cx, clamp255 cy)).

(** Lines 254-278: the [if mode == "circle" and center is not None and
    radius is not None] statement. *)
Definition build_point (clk : readings) (cx cy : option Z)
    (mode : option string) (center : option point) (radius : option Z)
    (ellipse_params : option (option Q * option Q * option Q))
    (g : globals) : globals * point :=
  match mode_is_circle mode, center, radius with
  | true, Some center, Some radius =>
      circle_branch clk center radius ellipse_params g
  | _, _, _ => aim_branch cx cy g
  end.

(** [send_target_coords(cx, cy, mode, center, radius, ellipse_params)]:
    the globals after the call and the value returned, [None] standing for
    the pair [(None, None)].  Where [struct.pack] raises, the [except]
    clause returns [(None, None)] and the assignments made so far stay. *)
Definition send_target_coords (clk : readings) (cx cy : option Z)
    (mode : option string) (center : option point) (radius : option Z)
    (ellipse_params : option (option Q * option Q * option Q))
    (g : globals) : globals * option point :=
  let current_time := ticks_gate clk in
  if ticks_diff current_time (last_uart_send_time g)
     <? current_send_interval_ms g
  then (g, None)
  else
    let '(g, (final_x, final_y)) :=
      build_point clk cx cy mode center radius ellipse_params g in
    match target_packet final_x final_y with
    | Some data =>
        (set_last_uart_send_time current_time (uart_write data g),
         Some (final_x, final_y))
    | None => (g, None)
    end.

(** ** Runs *)

(** What reaches the controller: a command byte read from the UART, or a
    call of [send_target_coords] made at wall-clock millisecond [send_now]
    (the counter readings of the call are [ticks_ms] of the wall clock). *)
Record send_call : Type := mkSendCall {
  send_now : Z;
  send_now_start : Z;
  send_now_elapsed : Z;
  send_cx : option Z;
  send_cy : option Z;
  send_mode : option string;
  send_center : option point;
  send_radius : option Z;
  send_ellipse_params : option (option Q * option Q * option Q)
}.

Inductive event : Type :=
| Command (command : Z)
| Send (c : send_call).

Definition do_send (c : send_call) (g : globals) : globals * option point :=
  send_target_coords
    (mkReadings (ticks_ms (send_now c)) (ticks_ms (send_now_start c))
                (ticks_ms (send_now_elapsed c)))
    (send_cx c) (send_cy c) (send_mode c) (send_center c) (send_radius c)
    (send_ellipse_params c) g.

Definition step (e : event) (g : globals) : globals :=
  match e with
  | Command command => handle_command command g
  | Send c => fst (do_send c g)
  end.

Definition exec (events : list event) (g : globals) : globals :=
  fold_left (fun g e => step e g) events g.

(** One written packet: the wall-clock time of the call that wrote it,
    the interval and the mode in force at that call, and the point
    returned. *)
Record emission : Type := mkEmission {
  em_time : Z;
  em_interval : Z;
  em_state : Z;
  em_point : point
}.

Fixpoint emissions (events : list event) (g : globals) : list emission :=
  match events with
  | [] => []
  | Command command :: rest => emissions rest (handle_command command g)
  | Send c :: rest =>
      match do_send c g with
      | (g', Some p) =>
          mkEmission (send_now c) (current_send_interval_ms g)
                     (current_state g) p
            :: emissions rest g'
      | (g', None) => emissions rest g'
      end
  end.

(** The calls of a run carry non-decreasing wall-clock times, none before
    [t]. *)
Fixpoint monotonic_from (t : Z) (events : list event) : Prop :=
  match events with
  | [] => True
  | Command _ :: rest => monotonic_from t rest
  | Send c :: rest => t <= send_now c /\ monotonic_from (send_now c) rest
  end.

End Platform.

(** ** The rest of the geometry, and the main loop *)

(** [get_approximate_corners(boundary_rect)]. *)
Definition get_approximate_corners (boundary_rect : option blob)
  : option (list point) :=
  match boundary_rect with
  | None => None
  | Some b =>
      let '(x, y, w, h) := rect b in
      Some [(x, y); (x + w, y); (x + w, y + h); (x, y + h)]
  end.

(** Whether the loop of [find_target_boundary_rect] appends the blob. *)
Definition accepted (b : blob) : bool :=
  match examine_blob b with
  | Some _ => true
  | None => false
  end.

(** Lines 270-271, one axis: [int(target * (1 - smooth_factor) + last *
    smooth_factor)]. *)
Definition smooth_axis (target last : Z) : Z :=
  Py.int
    (Binary64.add
       (Binary64.mul (inject_Z target) (Binary64.sub 1 smooth_factor))
       (Binary64.mul (inject_Z last) smooth_factor)).

(** Lines 265-267: the ellipse the circle branch draws, the one given or,
    where it is missing or has a [None] in it, the circle of [radius]. *)
Definition effective_ellipse (radius : Z)
    (ellipse_params : option (option Q * option Q * option Q)) : Q * Q * Q :=
  match ellipse_params with
  | Some (Some a, Some b, Some rotation) => (a, b, rotation)
  | _ => (inject_Z radius, inject_Z radius, 0%Q)
  end.

(** The scan phase is an angle of [0, 2 pi], both ends included. *)
Definition phase_in_range (g : globals) : Prop :=
  (0 <= current_angle g)%Q /\ (current_angle g <= 2 * Py.pi)%Q.

(** The scan start time and the last scan point are both present or both
    absent. *)
Definition scan_state_paired (g : globals) : Prop :=
  circle_start_time g = None <-> last_target_point g = None.

(** A target packet: 3C 3B, two coordinate bytes, 01 01. *)
Definition well_formed_packet (data : list Z) : Prop :=
  exists x y, 0 <= x <= 255 /\ 0 <= y <= 255 /\ data = [60; 59; x; y; 1; 1].

(** Python's [max(x, y)] and [min(x, y)] on floats: the first argument
    unless the second is strictly beyond it. *)
Definition fmax (x y : Q) : Q := if Py.Qlt_bool x y then y else x.
Definition fmin (x y : Q) : Q := if Py.Qlt_bool y x then y else x.

(** [command in COMMAND_MAP]. *)
Definition is_command (command : Z) : bool :=
  (command =? CMD_AIM_BULLSEYE) || (command =? CMD_CIRCLE_TRACKING)
  || (command =? CMD_IDLE).

Section Geometry.

(** [math.sqrt]. *)
Variable sqrt : Q -> Q.

(** [calculate_distance(point1, point2)]. *)
Definition calculate_distance (point1 point2 : option point) : Q :=
  match point1, point2 with
  | Some (x1, y1), Some (x2, y2) =>
      sqrt (inject_Z ((x1 - x2) ^ 2 + (y1 - y2) ^ 2))
  | _, _ => 0%Q
  end.

(** [calculate_ellipse_params(corners, circle_radius)]: the two radii are
    ints (or the [circle_radius] given, where the guard returns it), the
    rotation a float. *)
Definition calculate_ellipse_params (corners : option (list point))
    (circle_radius : option Z) : option Z * option Z * Q :=
  match corners, circle_radius with
  | Some [c0; c1; c2; c3], Some radius =>
      if radius <=? 0 then (circle_radius, circle_radius, 0%Q)
      else
        let top_edge := calculate_distance (Some c0) (Some c1) in
        let bottom_edge := calculate_distance (Some c3) (Some c2) in
        let left_edge := calculate_distance (Some c0) (Some c3) in
        let right_edge := calculate_distance (Some c1) (Some c2) in
        let h_max := fmax top_edge bottom_edge in
        let v_max := fmax left_edge right_edge in
        let h_ratio :=
          if Py.Qlt_bool 0 h_max then (fmin top_edge bottom_edge / h_max)%Q
          else 1%Q in
        let v_ratio :=
          if Py.Qlt_bool 0 v_max then (fmin left_edge right_edge / v_max)%Q
          else 1%Q in
        let h_ellipse_ratio := (1 + (1 - fmax (1 # 10) h_ratio) * (12 # 10))%Q in
        let v_ellipse_ratio := (1 + (1 - fmax (1 # 10) v_ratio) * (12 # 10))%Q in
        let '(a, b, rotation) :=
          if Py.Qlt_bool h_ratio v_ratio
          then (inject_Z radius, (inject_Z radius / h_ellipse_ratio)%Q,
                (Py.pi / 2)%Q)
          else (inject_Z radius, (inject_Z radius / v_ellipse_ratio)%Q, 0%Q) in
        (Some (Z.max 1 (Py.int a)), Some (Z.max 1 (Py.int b)), rotation)
  | _, _ => (circle_radius, circle_radius, 0%Q)
  end.

End Geometry.

(** The tuple [calculate_ellipse_params] returns, as the argument
    [ellipse_params] of [send_target_coords]. *)
Definition as_ellipse_params (e : option Z * option Z * Q)
  : option (option Q * option Q * option Q) :=
  let '(a, b, rotation) := e in
  Some (option_map inject_Z a, option_map inject_Z b, Some rotation).

Section MainLoop.

Variables cos sin sqrt : Q -> Q.
Variable ticks_half : Z.

(** Lines 376-424: one frame in a mode that is not idle, on the blobs the
    detector found in the snapshot.  A blob object and a list of four
    corners are true in a condition; drawing and printing are left out.
    The value is the one [send_target_coords] returned, [None] also where
    it was not called. *)
Definition process_frame (clk : readings) (blobs : list blob) (g : globals)
  : globals * option point :=
  match find_target_boundary_rect blobs with
  | None => (g, None)
  | Some boundary_rect =>
      match get_approximate_corners (Some boundary_rect) with
      | None => (g, None)
      | Some corners =>
          let '(corrected_cx, corrected_cy) :=
            calculate_perspective_correction (Some corners) in
          let '(_, _, rect_w, rect_h) := rect boundary_rect in
          if current_state g =? STATE_AIM_BULLSEYE then
            send_target_coords cos sin ticks_half clk
              (Some corrected_cx) (Some corrected_cy) None None None None g
          else if current_state g =? STATE_CIRCLE_TRACKING then
            let '(_, r_6cm) :=
              calculate_circle_params (Some rect_w) (Some rect_h) in
            let ellipse_params :=
              calculate_ellipse_params sqrt (Some corners) (Some r_6cm) in
            send_target_coords cos sin ticks_half clk
              (Some 0) (Some 0) (Some "circle"%string)
              (Some (corrected_cx, corrected_cy)) (Some r_6cm)
              (as_ellipse_params ellipse_params) g
          else (g, None)
      end
  end.

(** Lines 344-424: one pass of the [while True] body with a working camera.
    [rx] is the byte [uart.read(1)] returned when [uart.any()] was true,
    [None] when it was not.  A byte of [COMMAND_MAP] is handled and ends
    the pass; any other byte is dropped and the pass goes on. *)
Definition main_iteration (rx : option Z) (clk : readings) (blobs : list blob)
    (g : globals) : globals * option point :=
  let state_machine :=
    if current_state g =? STATE_IDLE then (g, None)
    else process_frame clk blobs g in
  match rx with
  | Some command =>
      if is_command command then (handle_command command g, None)
      else state_machine
  | None => state_machine
  end.

(** The passes of a run, each with what the UART, the clock and the
    detector gave it. *)
Fixpoint main_loop (passes : list (option Z * readings * list blob))
    (g : globals) : globals :=
  match passes with
  | [] => g
  | (rx, clk, blobs) :: rest =>
      main_loop rest (fst (main_iteration rx clk blobs g))
  end.

(** A pass with the wall-clock milliseconds at which its three clock
    readings are taken. *)
Definition clocked_pass : Type := (option Z * (Z * Z * Z) * list blob)%type.

Definition pass_readings (t : Z * Z * Z) : readings :=
  let '(t0, t1, t2) := t in
  mkReadings (ticks_ms ticks_half t0) (ticks_ms ticks_half t1)
             (ticks_ms ticks_half t2).

Definition pass_rx (p : clocked_pass) : option Z := fst (fst p).
Definition pass_time (p : clocked_pass) : Z := fst (fst (snd (fst p))).
Definition pass_blobs (p : clocked_pass) : list blob := snd p.

Definition run_pass (p : clocked_pass) (g : globals) : globals * option point :=
  main_iteration (pass_rx p) (pass_readings (snd (fst p))) (pass_blobs p) g.

(** The call of [send_target_coords] the frame part of a pass makes in the
    state [g], if it makes one. *)
Definition call_of_pass (p : clocked_pass) (g : globals) : option send_call :=
  let '(t0, t1, t2) := snd (fst p) in
  if current_state g =? STATE_IDLE then None
  else
    match find_target_boundary_rect (pass_blobs p) with
    | None => None
    | Some boundary_rect =>
        let corners := get_approximate_corners (Some boundary_rect) in
        let '(corrected_cx, corrected_cy) :=
          calculate_perspective_correction corners in
        let '(_, _, rect_w, rect_h) := rect boundary_rect in
        if current_state g =? STATE_AIM_BULLSEYE then
          Some (mkSendCall t0 t1 t2 (Some corrected_cx) (Some corrected_cy)
                           None None None None)
        else if current_state g =? STATE_CIRCLE_TRACKING then
          let '(_, r_6cm) :=
            calculate_circle_params (Some rect_w) (Some rect_h) in
          Some (mkSendCall t0 t1 t2 (Some 0) (Some 0) (Some "circle"%string)
                  (Some (corrected_cx, corrected_cy)) (Some r_6cm)
                  (as_ellipse_params
                     (calculate_ellipse_params sqrt corners (Some r_6cm))))
        else None
    end.

(** What a pass is in terms of events: the command it handles, the call it
    makes, or nothing. *)
Definition events_of_pass (p : clocked_pass) (g : globals) : list event :=
  let calls :=
    match call_of_pass p g with
    | Some c => [Send c]
    | None => []
    end in
  match pass_rx p with
  | Some command => if is_command command then [Command command] else calls
  | None => calls
  end.

Fixpoint events_of_passes (passes : list clocked_pass) (g : globals)
  : list event :=
  match passes with
  | [] => []
  | p :: rest =>
      events_of_pass p g ++ events_of_passes rest (fst (run_pass p g))
  end.

Fixpoint run_passes (passes : list clocked_pass) (g : globals) : globals :=
  match passes with
  | [] => g
  | p :: rest => run_passes rest (fst (run_pass p g))
  end.

(** The passes start at non-decreasing wall-clock times, none before [t]. *)
Fixpoint passes_monotonic_from (t : Z) (passes : list clocked_pass) : Prop :=
  match passes with
  | [] => True
  | p :: rest => t <= pass_time p /\ passes_monotonic_from (pass_time p) rest
  end.

End MainLoop.

(** The candidates the loop of [find_target_boundary_rect] collects from
    [blobs], in order. *)
Definition candidates_of (blobs : list blob) : list (blob * Z) :=
  flat_map (fun b => match examine_blob b with
                     | Some c => [c]
                     | None => []
                     end) blobs.

(** ** Notions the specification uses *)

Module Spec.

(** Rounding to the nearest integer, a half going up. *)
Definition round (q : Q) : Z := Qfloor (q + (1 # 2)).



(** A rectangle touching the frame boundary on any side. *)
Definition touches_edge (b : blob) : Prop :=
  let '(x, y, w, h) := rect b in
  x = 0 \/ y = 0 \/ x + w >= SCREEN_WIDTH \/ y + h >= SCREEN_HEIGHT.

(** The rejection pipeline as the specification lists it.  A quotient by
    zero is read as 0 (the convention of [Q]), which is also the shape
    factor the code gives a blob without pixels. *)
Definition rejected (b : blob) : Prop :=
  let '(x, y, w, h) := rect b in
  let rect_area := w * h in
  (w = 0 \/ h = 0)
  \/ touches_edge b
  \/ ((frame_fraction (75 # 100) < inject_Z rect_area)%Q
      /\ (6 # 10 < inject_Z (area b) / inject_Z rect_area)%Q)
  \/ (4 <= inject_Z (Z.max w h) / inject_Z (Z.min w h))%Q
  \/ ~ (1000 < rect_area /\ (inject_Z rect_area < frame_fraction (95 # 100))%Q)
  \/ (inject_Z (perimeter b * perimeter b)
      / (4 * Py.pi * inject_Z (area b)) <= 11 # 10)%Q.

(** The packet [e2] was written at least the interval then in force
    after the packet [e1]. *)
Definition spaced (e1 e2 : emission) : Prop :=
  em_interval e2 <= em_time e2 - em_time e1.

(** The interval is the one of the mode: 30 ms in aim mode, 50 ms in
    tracking mode. *)
Definition interval_of_mode (state interval : Z) : Prop :=
  (state = STATE_AIM_BULLSEYE -> interval = 30)
  /\ (state = STATE_CIRCLE_TRACKING -> interval = 50)
  /\ (interval = 30 \/ interval = 50).

End Spec.

(** * Properties *)

(** ** Facts about the numeric helpers *)

Lemma Qlt_bool_iff (x y : Q) : Py.Qlt_bool x y = true <-> (x < y)%Q.
Proof.
  unfold Py.Qlt_bool. rewrite negb_true_iff. split; intro H.
  - apply Qnot_le_lt. intro Hle. apply Qle_bool_iff in Hle. congruence.
  - destruct (Qle_bool y x) eqn:E; [| reflexivity].
    apply Qle_bool_iff in E. exfalso. apply (Qlt_not_le _ _ H E).
Qed.

Lemma Qlt_bool_false_iff (x y : Q) : Py.Qlt_bool x y = false <-> (y <= x)%Q.
Proof.
  unfold Py.Qlt_bool. rewrite negb_false_iff. apply Qle_bool_iff.
Qed.

Lemma pi_pos : (0 < Py.pi)%Q.
Proof. reflexivity. Qed.

(** *** Rounding to a double *)

Lemma pow2_pos e : (0 < Binary64.pow2 e)%Q.
Proof. apply Qpower_0_lt. reflexivity. Qed.

Lemma pow2_plus a b :
  (Binary64.pow2 (a + b) == Binary64.pow2 a * Binary64.pow2 b)%Q.
Proof. apply Qpower_plus. discriminate. Qed.

Lemma pow2_Z n : 0 <= n -> (Binary64.pow2 n == inject_Z (2 ^ n))%Q.
Proof.
  intro H. unfold Binary64.pow2. rewrite (Zpower_Qpower 2 n H). reflexivity.
Qed.

Lemma pow2_le a b : a <= b -> (Binary64.pow2 a <= Binary64.pow2 b)%Q.
Proof. intro H. apply Qpower_le_compat_l; [exact H | discriminate]. Qed.

Lemma ilog2_lower (q : Q) :
  (0 < q)%Q -> (Binary64.pow2 (Binary64.ilog2 q) <= q)%Q.
Proof.
  intro Hq. unfold Binary64.ilog2.
  destruct (Qle_bool _ q) eqn:E; [now apply Qle_bool_iff |]. clear E.
  destruct q as [a b]. cbn [Qnum Qden].
  assert (Ha : 0 < a) by (unfold Qlt in Hq; simpl in Hq; lia).
  pose proof (Z.log2_spec a Ha) as [Hla _].
  pose proof (Z.log2_spec (Z.pos b) ltac:(lia)) as [_ Hlb].
  pose proof (Z.log2_nonneg a) as Hna.
  pose proof (Z.log2_nonneg (Z.pos b)) as Hnb.
  set (la := Z.log2 a) in *. set (lb := Z.log2 (Z.pos b)) in *.
  assert (Hmul : (Binary64.pow2 (la - lb - 1) * inject_Z (2 ^ (lb + 1))
                  == inject_Z (2 ^ la))%Q).
  { rewrite <- (pow2_Z la), <- (pow2_Z (lb + 1)) by lia.
    rewrite <- pow2_plus. replace (la - lb - 1 + (lb + 1)) with la by lia.
    reflexivity. }
  pose proof (pow2_pos (la - lb - 1)) as Hp.
  rewrite (Qmake_Qdiv a b).
  apply Qle_shift_div_l; [reflexivity |].
  apply Qle_trans with (Binary64.pow2 (la - lb - 1) * inject_Z (2 ^ (lb + 1)))%Q.
  - rewrite !(Qmult_comm (Binary64.pow2 _)).
    apply Qmult_le_compat_r; [rewrite <- Zle_Qle; lia | now apply Qlt_le_weak].
  - rewrite Hmul. rewrite <- Zle_Qle. exact Hla.
Qed.

Lemma nearest_even_ge (q : Q) (n : Z) :
  (inject_Z n <= q)%Q -> n <= Binary64.nearest_even q.
Proof.
  intro H. unfold Binary64.nearest_even.
  assert (Hn : n <= Qfloor q).
  { apply Qfloor_resp_le in H. rewrite Qfloor_Z in H. exact H. }
  destruct (_ ?= _)%Q; [destruct (Z.even _) | |]; lia.
Qed.

Lemma nearest_even_le (q : Q) (n : Z) :
  (q <= inject_Z n)%Q -> Binary64.nearest_even q <= n.
Proof.
  intro H. unfold Binary64.nearest_even.
  pose proof (Qfloor_le q) as Hf.
  assert (Hfn : Qfloor q <= n) by (rewrite Zle_Qle; lra).
  assert (Hstep : (0 < q - inject_Z (Qfloor q))%Q -> Qfloor q + 1 <= n).
  { intro Hpos. assert (Hlt : (inject_Z (Qfloor q) < inject_Z n)%Q) by lra.
    rewrite <- Zlt_Qlt in Hlt. lia. }
  destruct (_ ?= _)%Q eqn:E.
  - apply Qeq_alt in E. destruct (Z.even _); [lia |]. apply Hstep. lra.
  - lia.
  - apply Qgt_alt in E. apply Hstep. lra.
Qed.


Lemma Qabs_nonzero (x : Q) : ~ (x == 0)%Q -> (0 < Qabs x)%Q.
Proof.
  intro Hx. destruct (Qlt_le_dec x 0) as [H | H].
  - rewrite (Qabs_neg x) by lra. lra.
  - rewrite (Qabs_pos x H). destruct (Qle_lt_or_eq _ _ H) as [H' | H'];
      [exact H' | exfalso; apply Hx; symmetry; exact H'].
Qed.

(** For a double [c] and a non-zero [x]: either [c] lies on the grid of the
    binade of [x], or [c] is smaller in magnitude than the lower end of
    that binade. *)
Lemma grid_or_small (c x : Q) :
  Binary64.representable c -> ~ (x == 0)%Q ->
  let e := Binary64.ulp_exponent x in
  (exists k : Z, (c == inject_Z k * Binary64.pow2 e)%Q)
  \/ ((Binary64.pow2 (e + 52) <= Qabs x)%Q
      /\ (- Binary64.pow2 (e + 52) < c)%Q /\ (c < Binary64.pow2 (e + 52))%Q).
Proof.
  intros (m & ec & Hec & Hm & Hc) Hx e.
  destruct (Z_le_gt_dec e ec) as [Hle | Hgt].
  - left. exists (m * 2 ^ (ec - e)).
    rewrite Hc, inject_Z_mult, <- (pow2_Z (ec - e)) by lia.
    rewrite <- Qmult_assoc, <- pow2_plus.
    replace (ec - e + e) with ec by lia. reflexivity.
  - right.
    assert (He : Binary64.ilog2 (Qabs x) = e + 52)
      by (unfold e, Binary64.ulp_exponent in *; lia).
    pose proof (ilog2_lower (Qabs x) (Qabs_nonzero x Hx)) as Hl.
    rewrite He in Hl. split; [exact Hl |].
    pose proof (pow2_le (ec + 53) (e + 52) ltac:(lia)) as Hmono.
    pose proof (pow2_plus ec 53) as Hsplit.
    rewrite (pow2_Z 53) in Hsplit by lia.
    pose proof (pow2_pos ec) as Hp.
    assert (H1 : (inject_Z m < inject_Z (2 ^ 53))%Q) by (rewrite <- Zlt_Qlt; lia).
    assert (H2 : (inject_Z (- 2 ^ 53) < inject_Z m)%Q) by (rewrite <- Zlt_Qlt; lia).
    rewrite inject_Z_opp in H2.
    set (M := inject_Z m) in *. set (T := inject_Z (2 ^ 53)) in *.
    set (p := Binary64.pow2 ec) in *.
    assert (H3 : (0 < (T - M) * p)%Q) by (apply Qmult_lt_0_compat; lra).
    assert (H4 : (0 < (M + T) * p)%Q) by (apply Qmult_lt_0_compat; lra).
    split; lra.
Qed.

Lemma round_le (c x : Q) :
  Binary64.representable c -> (x <= c)%Q -> (Binary64.round x <= c)%Q.
Proof.
  intros Hc Hx. unfold Binary64.round.
  destruct (Qeq_bool x 0) eqn:E0.
  - apply Qeq_bool_iff in E0. lra.
  - apply Qeq_bool_neq in E0.
    pose proof (pow2_pos (Binary64.ulp_exponent x)) as Hp.
    destruct (grid_or_small c x Hc E0) as [[k Hk] | (Hbig & Hlo & Hhi)];
      cbv zeta in *; set (e := Binary64.ulp_exponent x) in *.
    + assert (Hq : (x / Binary64.pow2 e <= inject_Z k)%Q).
      { apply Qle_shift_div_r; [exact Hp |]. rewrite <- Hk. exact Hx. }
      apply nearest_even_le in Hq. rewrite Hk.
      apply Qmult_le_compat_r; [rewrite <- Zle_Qle; exact Hq | lra].
    + pose proof (pow2_plus 52 e) as Hsplit.
      rewrite (pow2_Z 52) in Hsplit by lia.
      replace (52 + e) with (e + 52) in Hsplit by lia.
      assert (Hneg : (x <= - Binary64.pow2 (e + 52))%Q).
      { destruct (Qlt_le_dec x 0) as [H | H].
        - rewrite (Qabs_neg x) in Hbig by lra. lra.
        - rewrite (Qabs_pos x H) in Hbig. lra. }
      assert (Hq : (x / Binary64.pow2 e <= inject_Z (- 2 ^ 52))%Q).
      { apply Qle_shift_div_r; [exact Hp |]. rewrite inject_Z_opp. lra. }
      apply nearest_even_le in Hq.
      apply Qle_trans with (inject_Z (- 2 ^ 52) * Binary64.pow2 e)%Q.
      * apply Qmult_le_compat_r; [rewrite <- Zle_Qle; exact Hq | lra].
      * rewrite inject_Z_opp. lra.
Qed.

Lemma round_ge (c x : Q) :
  Binary64.representable c -> (c <= x)%Q -> (c <= Binary64.round x)%Q.
Proof.
  intros Hc Hx. unfold Binary64.round.
  destruct (Qeq_bool x 0) eqn:E0.
  - apply Qeq_bool_iff in E0. lra.
  - apply Qeq_bool_neq in E0.
    pose proof (pow2_pos (Binary64.ulp_exponent x)) as Hp.
    destruct (grid_or_small c x Hc E0) as [[k Hk] | (Hbig & Hlo & Hhi)];
      cbv zeta in *; set (e := Binary64.ulp_exponent x) in *.
    + assert (Hq : (inject_Z k <= x / Binary64.pow2 e)%Q).
      { apply Qle_shift_div_l; [exact Hp |]. rewrite <- Hk. exact Hx. }
      apply nearest_even_ge in Hq. rewrite Hk.
      apply Qmult_le_compat_r; [rewrite <- Zle_Qle; exact Hq | lra].
    + pose proof (pow2_plus 52 e) as Hsplit.
      rewrite (pow2_Z 52) in Hsplit by lia.
      replace (52 + e) with (e + 52) in Hsplit by lia.
      assert (Hpos : (Binary64.pow2 (e + 52) <= x)%Q).
      { destruct (Qlt_le_dec x 0) as [H | H].
        - rewrite (Qabs_neg x) in Hbig by lra. lra.
        - rewrite (Qabs_pos x H) in Hbig. lra. }
      assert (Hq : (inject_Z (2 ^ 52) <= x / Binary64.pow2 e)%Q).
      { apply Qle_shift_div_l; [exact Hp |]. lra. }
      apply nearest_even_ge in Hq.
      apply Qle_trans with (inject_Z (2 ^ 52) * Binary64.pow2 e)%Q.
      * lra.
      * apply Qmult_le_compat_r; [rewrite <- Zle_Qle; exact Hq | lra].
Qed.

(** A double rounds to itself. *)
Lemma round_exact (x : Q) :
  Binary64.representable x -> (Binary64.round x == x)%Q.
Proof.
  intro Hx. apply Qle_antisym.
  - apply round_le; [exact Hx | apply Qle_refl].
  - apply round_ge; [exact Hx | apply Qle_refl].
Qed.

(** The float literals of the scan phase and of the smoothing: 0.3, 0.7
    and the difference [1 - 0.7]. *)
Lemma float_literals :
  (Binary64.round (3 # 10) == 5404319552844595 # 18014398509481984)%Q
  /\ (Binary64.round (7 # 10) == 3152519739159347 # 4503599627370496)%Q
  /\ (Binary64.sub 1 (Binary64.round (7 # 10))
      == 1351079888211149 # 4503599627370496)%Q.
Proof. repeat split; vm_compute; reflexivity. Qed.

(** *** Doubles the scan phase meets *)

Lemma representable_Z (n : Z) :
  Z.abs n < 2 ^ 53 -> Binary64.representable (inject_Z n).
Proof.
  intro H. exists n, 0. split; [lia |]. split; [exact H |].
  unfold Binary64.pow2. rewrite Qpower_0_r. ring.
Qed.

Lemma representable_opp (c : Q) :
  Binary64.representable c -> Binary64.representable (- c).
Proof.
  intros (m & e & He & Hm & Hc). exists (- m), e.
  split; [exact He |]. split; [lia |].
  rewrite Hc, inject_Z_opp. ring.
Qed.

Lemma representable_pi : Binary64.representable Py.pi.
Proof.
  exists 884279719003555, (-48). split; [lia |]. split; [reflexivity |].
  reflexivity.
Qed.

Lemma representable_two_pi : Binary64.representable (2 * Py.pi).
Proof.
  exists 884279719003555, (-47). split; [lia |]. split; [reflexivity |].
  reflexivity.
Qed.

(** [2 * math.pi] is computed without rounding. *)
Lemma two_pi_exact : (Binary64.mul 2 Py.pi == 2 * Py.pi)%Q.
Proof. reflexivity. Qed.

Lemma int_within_one (q : Q) :
  (q - 1 < inject_Z (Py.int q))%Q /\ (inject_Z (Py.int q) < q + 1)%Q.
Proof.
  unfold Py.int. destruct (Qle_bool 0 q).
  - pose proof (Qfloor_le q) as H1. pose proof (Qlt_floor q) as H2.
    rewrite inject_Z_plus in H2. change (inject_Z 1) with 1%Q in H2.
    split; lra.
  - pose proof (Qle_ceiling q) as H1. pose proof (Qceiling_lt q) as H2.
    unfold Z.sub in H2. rewrite inject_Z_plus in H2.
    rewrite inject_Z_opp in H2. change (inject_Z 1) with 1%Q in H2.
    split; lra.
Qed.

Lemma fmod_range (f g : Q) :
  Binary64.representable g -> (0 < g)%Q ->
  (0 <= Py.fmod f g)%Q /\ (Py.fmod f g <= g)%Q.
Proof.
  intros Hrep Hg. unfold Py.fmod.
  destruct (int_within_one (f / g)) as [Hlo Hhi].
  assert (Hf : (f == f / g * g)%Q) by (field; lra).
  set (k := inject_Z (Py.int (f / g))) in *.
  set (q := (f / g)%Q) in *.
  assert (H1 : (0 < (k + 1 - q) * g)%Q) by (apply Qmult_lt_0_compat; lra).
  assert (H2 : (0 < (q + 1 - k) * g)%Q) by (apply Qmult_lt_0_compat; lra).
  set (r := (f - k * g)%Q).
  assert (Hr : (- g < r)%Q /\ (r < g)%Q) by (unfold r; split; lra).
  clearbody r. clear - Hrep Hg Hr.
  destruct (Qeq_bool r 0); [split; lra |].
  assert (Hg0 : Py.Qlt_bool g 0 = false) by (apply Qlt_bool_false_iff; lra).
  rewrite Hg0. destruct (Py.Qlt_bool r 0) eqn:E; cbn [Bool.eqb].
  - apply Qlt_bool_iff in E. unfold Binary64.add. split.
    + apply round_ge; [apply (representable_Z 0); reflexivity | lra].
    + apply round_le; [exact Hrep | lra].
  - apply Qlt_bool_false_iff in E. split; lra.
Qed.

(** [int] of a quotient of ints with a positive divisor and a non-negative
    dividend is the floored quotient. *)
Lemma int_div_nonneg (a b : Z) :
  0 <= a -> 0 < b -> Py.int (inject_Z a / inject_Z b) = a / b.
Proof.
  intros Ha Hb. unfold Py.int.
  destruct b as [| p | p]; try lia.
  assert (E : (inject_Z a / inject_Z (Z.pos p) == a # p)%Q)
    by (symmetry; apply Qmake_Qdiv).
  assert (Hle : Qle_bool 0 (inject_Z a / inject_Z (Z.pos p)) = true).
  { apply Qle_bool_iff. rewrite E. unfold Qle. simpl. lia. }
  rewrite Hle. rewrite (Qfloor_comp _ _ E). reflexivity.
Qed.

(** ** Scan radius *)

Lemma int_scaled_height (h : Z) :
  0 < h -> Py.int (inject_Z h * (2891 # 10000)) = h * 2891 / 10000.
Proof.
  intro Hh. unfold Py.int.
  assert (Hle : Qle_bool 0 (inject_Z h * (2891 # 10000)) = true).
  { apply Qle_bool_iff. unfold Qle. simpl. lia. }
  rewrite Hle. reflexivity.
Qed.




(** ** Perspective centre *)







(** Outside pixel coordinates the two can differ by one: [int] truncates
    toward zero where [//] floors.  The unit square at (-3, -3) has its
    diagonals cross at (-2.5, -2.5). *)
Remark perspective_center_negative_square :
  calculate_perspective_correction
    (Some [(-3, -3); (-2, -3); (-2, -2); (-3, -2)]) = (-2, -2)
  /\ simple_center [(-3, -3); (-2, -3); (-2, -2); (-3, -2)] = (-3, -3).
Proof. split; reflexivity. Qed.

(** ** Packet layout *)

Lemma clamp255_range (v : Z) : 0 <= clamp255 v <= 255.
Proof. unfold clamp255. lia. Qed.

Lemma combined_coord_bytes (x y : Z) :
  0 <= x <= 255 -> 0 <= y <= 255 ->
  Z.shiftr (Z.lor (Z.shiftl x 8) y) 8 = x
  /\ Z.land (Z.lor (Z.shiftl x 8) y) 255 = y
  /\ Z.lor (Z.shiftl x 8) y = x * 256 + y.
Proof.
  intros Hx Hy.
  assert (Hhi : Z.shiftr (Z.lor (Z.shiftl x 8) y) 8 = x).
  { rewrite Z.shiftr_lor, Z.shiftr_shiftl_l by lia.
    replace (8 - 8) with 0 by lia. rewrite Z.shiftl_0_r.
    rewrite (Z.shiftr_div_pow2 y) by lia.
    rewrite Z.div_small by (change (2 ^ 8) with 256; lia).
    apply Z.lor_0_r. }
  assert (Hlo : Z.land (Z.lor (Z.shiftl x 8) y) 255 = y).
  { change 255 with (Z.ones 8). rewrite Z.land_lor_distr_l.
    rewrite !Z.land_ones by lia.
    rewrite Z.shiftl_mul_pow2 by lia. rewrite Z.mod_mul by lia.
    rewrite Z.mod_small by (change (2 ^ 8) with 256; lia).
    apply Z.lor_0_l. }
  split; [exact Hhi | split; [exact Hlo |]].
  rewrite (Z.div_mod (Z.lor (Z.shiftl x 8) y) 256) by lia.
  rewrite Z.shiftr_div_pow2 in Hhi by lia.
  change 255 with (Z.ones 8) in Hlo. rewrite Z.land_ones in Hlo by lia.
  change (2 ^ 8) with 256 in Hhi, Hlo. rewrite Hhi, Hlo. ring.
Qed.

Lemma target_packet_clamped (x y : Z) :
  0 <= x <= 255 -> 0 <= y <= 255 ->
  target_packet x y = Some [60; 59; x; y; 1; 1].
Proof.
  intros Hx Hy. unfold target_packet, Py.pack_H.
  destruct (combined_coord_bytes x y Hx Hy) as (Hhi & Hlo & Hv).
  rewrite Hhi, Hlo, Hv.
  replace ((0 <=? x * 256 + y) && (x * 256 + y <=? 65535)) with true.
  - reflexivity.
  - symmetry. apply andb_true_iff. split; apply Z.leb_le; lia.
Qed.

Section PlatformFacts.

Variables cos sin : Q -> Q.
Variable ticks_half : Z.

Local Abbreviation send_target_coords' := (send_target_coords cos sin ticks_half).
Local Abbreviation build_point' := (build_point cos sin ticks_half).
Local Abbreviation circle_branch' := (circle_branch cos sin ticks_half).
Local Abbreviation ticks_diff' := (ticks_diff ticks_half).

(** What the circle branch leaves alone, and what it returns. *)
Lemma circle_branch_spec clk center radius ellipse_params g :
  exists x y,
    snd (circle_branch' clk center radius ellipse_params g)
    = (clamp255 x, clamp255 y)
    /\ last_target_point (fst (circle_branch' clk center radius ellipse_params g))
       = Some (x, y)
    /\ uart_tx (fst (circle_branch' clk center radius ellipse_params g))
       = uart_tx g
    /\ last_uart_send_time (fst (circle_branch' clk center radius ellipse_params g))
       = last_uart_send_time g
    /\ current_send_interval_ms (fst (circle_branch' clk center radius ellipse_params g))
       = current_send_interval_ms g
    /\ current_state (fst (circle_branch' clk center radius ellipse_params g))
       = current_state g.
Proof.
  unfold circle_branch. destruct center as [center_x center_y].
  destruct (circle_start_time g) as [t |];
    (destruct ellipse_params as [[[[a |] [b |]] [r |]] |];
     match goal with
     | |- context [get_ellipse_point ?c ?s ?cx ?cy ?a ?b ?an ?ro] =>
         destruct (get_ellipse_point c s cx cy a b an ro) as [tx ty]
     end;
     cbn [last_target_point set_current_angle set_circle_start_time];
     destruct (last_target_point g) as [[lx ly] |];
     eexists; eexists; cbn; repeat split; reflexivity).
Qed.

Lemma aim_branch_spec cx cy g :
  exists x y,
    aim_branch cx cy g
    = (set_last_target_point None (set_circle_start_time None g),
       (clamp255 x, clamp255 y))
    /\ (forall a b, cx = Some a -> cy = Some b -> x = a /\ y = b)
    /\ (cx = None \/ cy = None -> x = SCREEN_CENTER_X /\ y = SCREEN_CENTER_Y).
Proof.
  unfold aim_branch. destruct cx as [a |], cy as [b |];
    eexists; eexists; (split; [reflexivity |]);
    (split; [intros ? ? Ha Hb; try discriminate;
             injection Ha; injection Hb; intros; subst; auto
            | intros [H | H]; try discriminate; auto]).
Qed.

Lemma build_point_aim clk cx cy mode center radius ellipse_params g :
  is_circle_call mode center radius = false ->
  build_point' clk cx cy mode center radius ellipse_params g = aim_branch cx cy g.
Proof.
  unfold is_circle_call, build_point.
  destruct (mode_is_circle mode), center, radius; intro H;
    try discriminate; reflexivity.
Qed.

Lemma build_point_circle clk cx cy mode center radius ellipse_params g :
  is_circle_call mode center radius = true ->
  exists c r, center = Some c /\ radius = Some r
    /\ build_point' clk cx cy mode center radius ellipse_params g
       = circle_branch' clk c r ellipse_params g.
Proof.
  unfold is_circle_call, build_point.
  destruct (mode_is_circle mode), center as [c |], radius as [r |]; intro H;
    try discriminate.
  exists c, r. auto.
Qed.

End PlatformFacts.

(** ** The sender: gate, suppression and emission *)

Section Sender.

Variables cos sin : Q -> Q.
Variable ticks_half : Z.

Local Abbreviation send_target_coords' := (send_target_coords cos sin ticks_half).
Local Abbreviation build_point' := (build_point cos sin ticks_half).
Local Abbreviation ticks_diff' := (ticks_diff ticks_half).

Lemma build_point_spec clk cx cy mode center radius ellipse_params g :
  exists g1 x y,
    build_point' clk cx cy mode center radius ellipse_params g
    = (g1, (clamp255 x, clamp255 y))
    /\ uart_tx g1 = uart_tx g
    /\ last_uart_send_time g1 = last_uart_send_time g
    /\ current_send_interval_ms g1 = current_send_interval_ms g
    /\ current_state g1 = current_state g
    /\ (is_circle_call mode center radius = true ->
        last_target_point g1 = Some (x, y))
    /\ (is_circle_call mode center radius = false ->
        circle_start_time g1 = None /\ last_target_point g1 = None
        /\ current_angle g1 = current_angle g
        /\ (forall a b, cx = Some a -> cy = Some b -> x = a /\ y = b)
        /\ (cx = None \/ cy = None -> x = SCREEN_CENTER_X /\ y = SCREEN_CENTER_Y)).
Proof.
  destruct (is_circle_call mode center radius) eqn:E.
  - destruct (build_point_circle cos sin ticks_half clk cx cy mode center radius
                ellipse_params g E) as (c & r & _ & _ & Hb).
    destruct (circle_branch_spec cos sin ticks_half clk c r ellipse_params g)
      as (x & y & Hp & Hl & Htx & Ht & Hi & Hs).
    rewrite Hb.
    exists (fst (circle_branch cos sin ticks_half clk c r ellipse_params g)), x, y.
    rewrite <- Hp, <- surjective_pairing.
    repeat split; auto; discriminate.
  - rewrite (build_point_aim cos sin ticks_half clk cx cy mode center radius
               ellipse_params g E).
    destruct (aim_branch_spec cx cy g) as (x & y & Ha & Hsome & Hnone).
    rewrite Ha. do 3 eexists. split; [reflexivity |].
    repeat split; try reflexivity; try discriminate; intros.
    + now apply (Hsome a b).
    + now apply (Hsome a b).
    + now apply Hnone.
    + now apply Hnone.
Qed.

(** A call the gate stops changes nothing and returns [(None, None)]. *)
Lemma send_suppressed clk cx cy mode center radius ellipse_params g :
  ticks_diff' (ticks_gate clk) (last_uart_send_time g)
  < current_send_interval_ms g ->
  send_target_coords' clk cx cy mode center radius ellipse_params g = (g, None).
Proof.
  intro H. unfold send_target_coords.
  apply Z.ltb_lt in H. now rewrite H.
Qed.

(** A call the gate lets through writes one packet: [struct.pack] never
    raises, because both coordinates are clamped. *)
Lemma send_emits clk cx cy mode center radius ellipse_params g :
  current_send_interval_ms g
  <= ticks_diff' (ticks_gate clk) (last_uart_send_time g) ->
  exists g1 x y,
    build_point' clk cx cy mode center radius ellipse_params g
    = (g1, (clamp255 x, clamp255 y))
    /\ send_target_coords' clk cx cy mode center radius ellipse_params g
       = (set_last_uart_send_time (ticks_gate clk)
            (uart_write [60; 59; clamp255 x; clamp255 y; 1; 1] g1),
          Some (clamp255 x, clamp255 y)).
Proof.
  intro H. unfold send_target_coords.
  apply Z.ltb_ge in H. rewrite H.
  destruct (build_point_spec clk cx cy mode center radius ellipse_params g)
    as (g1 & x & y & Hb & _).
  exists g1, x, y. split; [exact Hb |].
  rewrite Hb.
  now rewrite (target_packet_clamped _ _ (clamp255_range x) (clamp255_range y)).
Qed.

(** The two outcomes of a call. *)
Lemma send_cases clk cx cy mode center radius ellipse_params g :
  (ticks_diff' (ticks_gate clk) (last_uart_send_time g)
   < current_send_interval_ms g
   /\ send_target_coords' clk cx cy mode center radius ellipse_params g = (g, None))
  \/ (current_send_interval_ms g
      <= ticks_diff' (ticks_gate clk) (last_uart_send_time g)
      /\ exists g1 x y,
          build_point' clk cx cy mode center radius ellipse_params g
          = (g1, (clamp255 x, clamp255 y))
          /\ send_target_coords' clk cx cy mode center radius ellipse_params g
             = (set_last_uart_send_time (ticks_gate clk)
                  (uart_write [60; 59; clamp255 x; clamp255 y; 1; 1] g1),
                Some (clamp255 x, clamp255 y))).
Proof.
  destruct (Z_lt_le_dec (ticks_diff' (ticks_gate clk) (last_uart_send_time g))
                        (current_send_interval_ms g)) as [Hlt | Hle].
  - left. split; [exact Hlt | now apply send_suppressed].
  - right. split; [exact Hle | now apply send_emits].
Qed.

End Sender.

(** ** C1: the packet *)

(** C1, as stated, at an aim-mode call with the point (300, -5) from the
    boot state: the one packet written is 3C 3B FF 00 01 01, six bytes and
    not seven. *)
Lemma C1_seven_bytes_counterexample :
  exists data,
    uart_tx (fst (send_target_coords (fun _ => 0%Q) (fun _ => 0%Q) (2 ^ 29)
                    (mkReadings 100 100 100) (Some 300) (Some (-5))
                    None None None None boot))
    = [data]
    /\ data = [60; 59; 255; 0; 1; 1]
    /\ List.length data <> 7%nat.
Proof.
  exists [60; 59; 255; 0; 1; 1].
  split; [vm_compute; reflexivity | split; [reflexivity | discriminate]].
Qed.

(** C1 (amended): every call of [send_target_coords] that sends writes
    exactly one packet of six bytes: the header 3C 3B, the two bytes of the
    16-bit big-endian value [(x << 8) | y], and the trailer 01 01, where [x]
    and [y] are the two coordinates of the point each clamped to [0, 255];
    the high byte is the clamped x and the low byte the clamped y.  The
    point is the smoothed scan point in a circle call and [(cx, cy)] in an
    aim call, whatever its coordinates. *)
Theorem C1_target_packet :
  forall (cos sin : Q -> Q) (ticks_half : Z)
         clk cx cy mode center radius ellipse_params g g' p,
    send_target_coords cos sin ticks_half clk cx cy mode center radius
                       ellipse_params g = (g', Some p) ->
    exists x y,
      let final_x := clamp255 x in
      let final_y := clamp255 y in
      let combined_coord := Z.lor (Z.shiftl final_x 8) final_y in
      p = (final_x, final_y)
      /\ 0 <= final_x <= 255 /\ 0 <= final_y <= 255
      /\ uart_tx g'
         = uart_tx g
           ++ [TARGET_LOCKED_HEADER
               ++ [Z.shiftr combined_coord 8; Z.land combined_coord 255]
               ++ TARGET_LOCKED_FOOTER]
      /\ TARGET_LOCKED_HEADER
         ++ [Z.shiftr combined_coord 8; Z.land combined_coord 255]
         ++ TARGET_LOCKED_FOOTER
         = [60; 59; final_x; final_y; 1; 1]
      /\ 0 <= combined_coord <= 65535
      /\ (is_circle_call mode center radius = true ->
          last_target_point g' = Some (x, y))
      /\ (is_circle_call mode center radius = false ->
          forall a b, cx = Some a -> cy = Some b -> x = a /\ y = b).
Proof.
  intros cos sin ticks_half clk cx cy mode center radius ep g g' p Hsend.
  destruct (send_cases cos sin ticks_half clk cx cy mode center radius ep g)
    as [[_ Hs] | [_ (g1 & x & y & Hb & Hs)]];
    rewrite Hs in Hsend; [discriminate |].
  injection Hsend as Hg' Hp. subst g' p.
  destruct (build_point_spec cos sin ticks_half clk cx cy mode center radius ep g)
    as (g1' & x' & y' & Hb' & Htx & _ & _ & _ & Hcirc & Haim).
  rewrite Hb in Hb'. injection Hb' as Hg1 Hx Hy. subst g1'.
  exists x', y'. cbn zeta. rewrite <- Hx, <- Hy.
  destruct (combined_coord_bytes (clamp255 x) (clamp255 y)
              (clamp255_range x) (clamp255_range y)) as (Hhi & Hlo & Hv).
  pose proof (clamp255_range x) as Rx. pose proof (clamp255_range y) as Ry.
  rewrite Hhi, Hlo.
  repeat split; try lia.
  - cbn [uart_tx set_last_uart_send_time uart_write]. now rewrite Htx.
  - intro E. cbn [last_target_point set_last_uart_send_time uart_write].
    now apply Hcirc.
  - now apply (proj1 (proj2 (proj2 (proj2 (Haim H)))) a b).
  - now apply (proj1 (proj2 (proj2 (proj2 (Haim H)))) a b).
Qed.

Lemma C1_target_packet_witness :
  exists g',
    send_target_coords (fun _ => 0%Q) (fun _ => 0%Q) (2 ^ 29)
      (mkReadings 100 100 100) (Some 300) (Some (-5)) None None None None boot
    = (g', Some (255, 0))
    /\ uart_tx g' = [[60; 59; 255; 0; 1; 1]].
Proof.
  eexists. split; [vm_compute; reflexivity |].
  destruct (C1_target_packet (fun _ => 0%Q) (fun _ => 0%Q) (2 ^ 29)
              (mkReadings 100 100 100) (Some 300) (Some (-5)) None None None None
              boot _ (255, 0) eq_refl)
    as (x & y & _ & _ & _ & Htx & Hpkt & _ & _ & Haim).
  destruct (Haim eq_refl 300 (-5) eq_refl eq_refl) as [Hx Hy].
  subst x y. rewrite Hpkt in Htx. exact Htx.
Defined.

(** ** C5: suppression *)

(** C5: a call whose [ticks_diff(now, last_uart_send_time)] is below
    [current_send_interval_ms] returns [(None, None)] and leaves every
    global as it was, the UART log included; and for any call, a result of
    [(None, None)] means nothing changed, while a returned point means one
    packet was written and [last_uart_send_time] became the [now] of the
    call. *)
Theorem C5_suppression_is_pure :
  forall (cos sin : Q -> Q) (ticks_half : Z)
         clk cx cy mode center radius ellipse_params g,
    (ticks_diff ticks_half (ticks_gate clk) (last_uart_send_time g)
     < current_send_interval_ms g ->
     send_target_coords cos sin ticks_half clk cx cy mode center radius
                        ellipse_params g = (g, None))
    /\ (forall g' r,
           send_target_coords cos sin ticks_half clk cx cy mode center radius
                              ellipse_params g = (g', r) ->
           (r = None -> g' = g)
           /\ (forall p, r = Some p ->
                 current_send_interval_ms g
                 <= ticks_diff ticks_half (ticks_gate clk) (last_uart_send_time g)
                 /\ last_uart_send_time g' = ticks_gate clk
                 /\ exists data, uart_tx g' = uart_tx g ++ [data])).
Proof.
  intros cos sin ticks_half clk cx cy mode center radius ep g. split.
  - apply send_suppressed.
  - intros g' r Hsend.
    destruct (send_cases cos sin ticks_half clk cx cy mode center radius ep g)
      as [[_ Hs] | [Hge (g1 & x & y & Hb & Hs)]];
      rewrite Hs in Hsend; injection Hsend as Hg' Hr; subst g' r.
    + split; [reflexivity | discriminate].
    + split; [discriminate |]. intros p _.
      destruct (build_point_spec cos sin ticks_half clk cx cy mode center radius ep g)
        as (g1' & x' & y' & Hb' & Htx & _).
      rewrite Hb in Hb'. injection Hb' as Hg1 _ _. subst g1'.
      split; [exact Hge | split; [reflexivity |]].
      eexists. cbn [uart_tx set_last_uart_send_time uart_write].
      now rewrite Htx.
Qed.

Lemma C5_suppression_is_pure_witness :
  let g := set_last_uart_send_time 100 (handle_command CMD_CIRCLE_TRACKING boot) in
  (ticks_diff (2 ^ 29) 120 (last_uart_send_time g) < current_send_interval_ms g
   /\ send_target_coords (fun _ => 0%Q) (fun _ => 0%Q) (2 ^ 29)
        (mkReadings 120 120 120) (Some 0) (Some 0) (Some "circle"%string)
        (Some (120, 80)) (Some 23) None g
      = (g, None))
  /\ (exists g',
         send_target_coords (fun _ => 0%Q) (fun _ => 0%Q) (2 ^ 29)
           (mkReadings 150 150 150) (Some 0) (Some 0) (Some "circle"%string)
           (Some (120, 80)) (Some 23) None g
         = (g', Some (120, 80))
         /\ current_send_interval_ms g
            <= ticks_diff (2 ^ 29) 150 (last_uart_send_time g)
         /\ last_uart_send_time g' = 150
         /\ exists data, uart_tx g' = uart_tx g ++ [data]).
Proof.
  cbv zeta. split.
  - assert (H : ticks_diff (2 ^ 29) 120
                  (last_uart_send_time
                     (set_last_uart_send_time 100
                        (handle_command CMD_CIRCLE_TRACKING boot)))
                < current_send_interval_ms
                    (set_last_uart_send_time 100
                       (handle_command CMD_CIRCLE_TRACKING boot)))
      by (vm_compute; reflexivity).
    split; [exact H |].
    exact (proj1 (C5_suppression_is_pure (fun _ => 0%Q) (fun _ => 0%Q) (2 ^ 29)
                    (mkReadings 120 120 120) (Some 0) (Some 0)
                    (Some "circle"%string) (Some (120, 80)) (Some 23) None
                    (set_last_uart_send_time 100
                       (handle_command CMD_CIRCLE_TRACKING boot))) H).
  - eexists. split; [vm_compute; reflexivity |].
    exact (proj2 (proj2 (C5_suppression_is_pure (fun _ => 0%Q) (fun _ => 0%Q) (2 ^ 29)
                           (mkReadings 150 150 150) (Some 0) (Some 0)
                           (Some "circle"%string) (Some (120, 80)) (Some 23) None
                           (set_last_uart_send_time 100
                              (handle_command CMD_CIRCLE_TRACKING boot)))
                        _ (Some (120, 80)) eq_refl)
                 (120, 80) eq_refl).
Defined.

(** ** C10: an aim-mode send clears the scan state *)

(** C10: for a call that is not a circle call ([mode] is not "circle", or
    [center] or [radius] is [None]): when the gate lets it through it
    returns a point, writes one packet and leaves [circle_start_time] and
    [last_target_point] at [None]; when the gate stops it, it returns
    [(None, None)] and both keep their values.  The command 0xA1 itself
    changes neither, so they are cleared at the first aim-mode send that
    passes the gate and not at the mode switch. *)
Theorem C10_aim_send_clears_scan_state :
  forall (cos sin : Q -> Q) (ticks_half : Z)
         clk cx cy mode center radius ellipse_params g,
    is_circle_call mode center radius = false ->
    (current_send_interval_ms g
     <= ticks_diff ticks_half (ticks_gate clk) (last_uart_send_time g) ->
     exists g' p data,
       send_target_coords cos sin ticks_half clk cx cy mode center radius
                          ellipse_params g = (g', Some p)
       /\ uart_tx g' = uart_tx g ++ [data]
       /\ circle_start_time g' = None
       /\ last_target_point g' = None)
    /\ (ticks_diff ticks_half (ticks_gate clk) (last_uart_send_time g)
        < current_send_interval_ms g ->
        exists g',
          send_target_coords cos sin ticks_half clk cx cy mode center radius
                             ellipse_params g = (g', None)
          /\ uart_tx g' = uart_tx g
          /\ circle_start_time g' = circle_start_time g
          /\ last_target_point g' = last_target_point g)
    /\ circle_start_time (handle_command CMD_AIM_BULLSEYE g) = circle_start_time g
    /\ last_target_point (handle_command CMD_AIM_BULLSEYE g) = last_target_point g.
Proof.
  intros cos sin ticks_half clk cx cy mode center radius ep g Haim.
  split; [| split; [| split; reflexivity]].
  - intro Hge.
    destruct (send_emits cos sin ticks_half clk cx cy mode center radius ep g Hge)
      as (g1 & x & y & Hb & Hs).
    destruct (build_point_spec cos sin ticks_half clk cx cy mode center radius ep g)
      as (g1' & x' & y' & Hb' & Htx & _ & _ & _ & _ & Hclear).
    rewrite Hb in Hb'. injection Hb' as Hg1 _ _. subst g1'.
    destruct (Hclear Haim) as (Hstart & Hlast & _).
    do 3 eexists. split; [exact Hs |].
    cbn [uart_tx circle_start_time last_target_point
         set_last_uart_send_time uart_write].
    rewrite Htx. auto.
  - intro Hlt. exists g.
    rewrite (send_suppressed cos sin ticks_half clk cx cy mode center radius ep g Hlt).
    auto.
Qed.

Lemma C10_aim_send_clears_scan_state_witness :
  let g :=
    set_last_target_point (Some (130, 90))
      (set_circle_start_time (Some 40)
         (handle_command CMD_AIM_BULLSEYE
            (handle_command CMD_CIRCLE_TRACKING boot))) in
  (exists g' p data,
      send_target_coords (fun _ => 0%Q) (fun _ => 0%Q) (2 ^ 29)
        (mkReadings 100 100 100) (Some 120) (Some 80) None None None None g
      = (g', Some p)
      /\ uart_tx g' = uart_tx g ++ [data]
      /\ circle_start_time g' = None
      /\ last_target_point g' = None)
  /\ (exists g',
         send_target_coords (fun _ => 0%Q) (fun _ => 0%Q) (2 ^ 29)
           (mkReadings 20 20 20) (Some 120) (Some 80) None None None None g
         = (g', None)
         /\ uart_tx g' = uart_tx g
         /\ circle_start_time g' = circle_start_time g
         /\ last_target_point g' = last_target_point g).
Proof.
  cbv zeta. split.
  - apply (proj1 (C10_aim_send_clears_scan_state (fun _ => 0%Q) (fun _ => 0%Q) (2 ^ 29)
                    (mkReadings 100 100 100) (Some 120) (Some 80) None None None None
                    (set_last_target_point (Some (130, 90))
                       (set_circle_start_time (Some 40)
                          (handle_command CMD_AIM_BULLSEYE
                             (handle_command CMD_CIRCLE_TRACKING boot))))
                    eq_refl)).
    vm_compute. discriminate.
  - apply (proj1 (proj2 (C10_aim_send_clears_scan_state (fun _ => 0%Q) (fun _ => 0%Q)
                           (2 ^ 29)
                           (mkReadings 20 20 20) (Some 120) (Some 80) None None None None
                           (set_last_target_point (Some (130, 90))
                              (set_circle_start_time (Some 40)
                                 (handle_command CMD_AIM_BULLSEYE
                                    (handle_command CMD_CIRCLE_TRACKING boot))))
                           eq_refl))).
    vm_compute. reflexivity.
Defined.

(** ** C2: the rate gate over a run *)

Lemma ticks_gap (ticks_half t L i : Z) :
  0 < ticks_half -> L <= t ->
  i <= ticks_diff ticks_half (ticks_ms ticks_half t) (ticks_ms ticks_half L) ->
  i <= t - L.
Proof.
  intros Hh HL Hi. unfold ticks_diff, ticks_ms, TICKS_PERIOD in Hi.
  set (P := 2 * ticks_half) in *.
  assert (HP : 0 < P) by (subst P; lia).
  assert (E : (t mod P - L mod P + ticks_half) mod P = (t - L + ticks_half) mod P).
  { rewrite (Z.mod_eq t P), (Z.mod_eq L P) by lia.
    replace (t - P * (t / P) - (L - P * (L / P)) + ticks_half)
      with (t - L + ticks_half + (L / P - t / P) * P) by ring.
    apply Z.mod_add. lia. }
  rewrite E in Hi.
  pose proof (Z.mod_pos_bound (t - L + ticks_half) P HP) as Hr.
  pose proof (Z.div_mod (t - L + ticks_half) P ltac:(lia)) as Hdm.
  assert (Hk : 0 <= (t - L + ticks_half) / P) by (apply Z.div_pos; lia).
  nia.
Qed.

Section Runs.

Variables cos sin : Q -> Q.
Variable ticks_half : Z.
Hypothesis ticks_half_pos : 0 < ticks_half.

Local Abbreviation do_send' := (do_send cos sin ticks_half).
Local Abbreviation emissions' := (emissions cos sin ticks_half).
Local Abbreviation exec' := (exec cos sin ticks_half).
Local Abbreviation step' := (step cos sin ticks_half).

Lemma monotonic_from_weaken events :
  forall t t', t' <= t -> monotonic_from t events -> monotonic_from t' events.
Proof.
  induction events as [| [command | c] rest IH]; intros t t' Hle H; cbn in *.
  - exact I.
  - now apply (IH t).
  - destruct H as [H1 H2]. split; [lia | exact H2].
Qed.

Lemma handle_command_keeps_send_time command g :
  last_uart_send_time (handle_command command g) = last_uart_send_time g.
Proof.
  unfold handle_command, set_send_interval_for_mode.
  destruct (command =? CMD_AIM_BULLSEYE), (command =? CMD_CIRCLE_TRACKING),
    (command =? CMD_IDLE); reflexivity.
Qed.

(** The two outcomes of a call made at a wall-clock time. *)
Lemma do_send_cases c g :
  do_send' c g = (g, None)
  \/ exists g' p,
      do_send' c g = (g', Some p)
      /\ current_send_interval_ms g
         <= ticks_diff ticks_half (ticks_ms ticks_half (send_now c))
                       (last_uart_send_time g)
      /\ last_uart_send_time g' = ticks_ms ticks_half (send_now c)
      /\ current_send_interval_ms g' = current_send_interval_ms g
      /\ current_state g' = current_state g
      /\ exists data, uart_tx g' = uart_tx g ++ [data].
Proof.
  unfold do_send.
  match goal with
  | |- context [send_target_coords _ _ _ ?k ?x ?y ?m ?ce ?r ?e g] =>
      destruct (send_cases cos sin ticks_half k x y m ce r e g)
        as [[_ Hs] | [Hge (g1 & x' & y' & Hb & Hs)]];
      [ left; exact Hs | right ];
      destruct (build_point_spec cos sin ticks_half k x y m ce r e g)
        as (g1' & x'' & y'' & Hb' & Htx & _ & Hi & Hst & _)
  end.
  rewrite Hb in Hb'. injection Hb' as Hg1 _ _. subst g1'.
  do 2 eexists. split; [exact Hs |].
  cbn [last_uart_send_time current_send_interval_ms current_state uart_tx
       set_last_uart_send_time uart_write ticks_gate].
  repeat split; auto.
  eexists. now rewrite Htx.
Qed.

Lemma emissions_spaced_from events :
  forall g L,
    last_uart_send_time g = ticks_ms ticks_half L ->
    monotonic_from L events ->
    Forall (fun e => em_interval e <= em_time e - L) (emissions' events g)
    /\ ForallOrdPairs Spec.spaced (emissions' events g).
Proof.
  induction events as [| [command | c] rest IH]; intros g L Hlast Hmono;
    cbn [emissions].
  - split; constructor.
  - apply IH; [now rewrite handle_command_keeps_send_time | exact Hmono].
  - destruct Hmono as [HL Hrest].
    destruct (do_send_cases c g)
      as [Hs | (g' & p & Hs & Hge & Hlast' & _)]; rewrite Hs.
    + apply IH; [exact Hlast |].
      now apply (monotonic_from_weaken rest (send_now c)).
    + rewrite Hlast in Hge.
      pose proof (ticks_gap _ _ _ _ ticks_half_pos HL Hge) as Hgap.
      destruct (IH g' (send_now c) Hlast' Hrest) as [Hall Hpairs].
      split.
      * constructor; [exact Hgap |].
        eapply Forall_impl; [| exact Hall]. cbn. intros e He. lia.
      * constructor; [| exact Hpairs].
        eapply Forall_impl; [| exact Hall]. intros e He. exact He.
Qed.

Lemma emissions_spaced events :
  forall g t0,
    monotonic_from t0 events ->
    ForallOrdPairs Spec.spaced (emissions' events g).
Proof.
  induction events as [| [command | c] rest IH]; intros g t0 Hmono;
    cbn [emissions].
  - constructor.
  - now apply (IH _ t0).
  - destruct Hmono as [_ Hrest].
    destruct (do_send_cases c g)
      as [Hs | (g' & p & Hs & _ & Hlast' & _)]; rewrite Hs.
    + now apply (IH _ (send_now c)).
    + destruct (emissions_spaced_from rest g' (send_now c) Hlast' Hrest)
        as [Hall Hpairs].
      constructor; [| exact Hpairs].
      eapply Forall_impl; [| exact Hall]. intros e He. exact He.
Qed.

Lemma handle_command_interval command g :
  Spec.interval_of_mode (current_state g) (current_send_interval_ms g) ->
  Spec.interval_of_mode (current_state (handle_command command g))
                        (current_send_interval_ms (handle_command command g)).
Proof.
  unfold Spec.interval_of_mode, handle_command, set_send_interval_for_mode.
  intros (Ha & Hc & Hor).
  destruct (command =? CMD_AIM_BULLSEYE), (command =? CMD_CIRCLE_TRACKING),
    (command =? CMD_IDLE); cbn; auto;
    repeat split; try discriminate; auto.
Qed.

Lemma emissions_interval events :
  forall g,
    Spec.interval_of_mode (current_state g) (current_send_interval_ms g) ->
    Forall (fun e => Spec.interval_of_mode (em_state e) (em_interval e))
           (emissions' events g).
Proof.
  induction events as [| [command | c] rest IH]; intros g Hg; cbn [emissions].
  - constructor.
  - apply IH. now apply handle_command_interval.
  - destruct (do_send_cases c g)
      as [Hs | (g' & p & Hs & _ & _ & Hi & Hst & _)]; rewrite Hs.
    + now apply IH.
    + constructor; [exact Hg |]. apply IH. now rewrite Hi, Hst.
Qed.

(** Each recorded emission is one packet in the UART log, and nothing
    else is written. *)
Lemma emissions_count events :
  forall g,
    List.length (uart_tx (exec' events g))
    = (List.length (uart_tx g) + List.length (emissions' events g))%nat.
Proof.
  induction events as [| [command | c] rest IH]; intro g;
    cbn [emissions exec fold_left step].
  - cbn [List.length]. lia.
  - change (fold_left _ rest ?h) with (exec' rest h). rewrite IH. f_equal.
    unfold handle_command, set_send_interval_for_mode.
    destruct (command =? CMD_AIM_BULLSEYE), (command =? CMD_CIRCLE_TRACKING),
      (command =? CMD_IDLE); reflexivity.
  - change (fold_left _ rest ?h) with (exec' rest h). rewrite IH.
    destruct (do_send_cases c g)
      as [Hs | (g' & p & Hs & _ & _ & _ & _ & data & Htx)]; rewrite Hs;
      cbn [fst List.length].
    + reflexivity.
    + rewrite Htx, length_app. cbn [List.length]. lia.
Qed.

End Runs.

(** C2: in any run of commands and calls of [send_target_coords] whose
    wall-clock times do not decrease, any two packets written are at least
    the interval in force at the later one apart; from the boot state that
    interval is 30 ms in aim mode and 50 ms in tracking mode; the recorded
    emissions are exactly the packets written to the UART; and a call with
    [ticks_diff(now, last_uart_send_time) < current_send_interval_ms]
    writes nothing. *)
Theorem C2_rate_gate :
  forall (cos sin : Q -> Q) (ticks_half : Z),
    0 < ticks_half ->
    (forall events g t0,
        monotonic_from t0 events ->
        ForallOrdPairs Spec.spaced (emissions cos sin ticks_half events g))
    /\ (forall events,
           Forall (fun e => Spec.interval_of_mode (em_state e) (em_interval e))
                  (emissions cos sin ticks_half events boot))
    /\ (forall events g,
           List.length (uart_tx (exec cos sin ticks_half events g))
           = (List.length (uart_tx g)
              + List.length (emissions cos sin ticks_half events g))%nat)
    /\ (forall clk cx cy mode center radius ellipse_params g,
           ticks_diff ticks_half (ticks_gate clk) (last_uart_send_time g)
           < current_send_interval_ms g ->
           uart_tx (fst (send_target_coords cos sin ticks_half clk cx cy mode
                           center radius ellipse_params g))
           = uart_tx g).
Proof.
  intros cos sin ticks_half Hpos. split; [| split; [| split]].
  - intros events g t0. now apply emissions_spaced.
  - intro events. apply emissions_interval.
    unfold Spec.interval_of_mode. cbn. repeat split; try discriminate. auto.
  - intros events g. apply emissions_count.
  - intros clk cx cy mode center radius ep g Hlt.
    now rewrite (send_suppressed cos sin ticks_half clk cx cy mode center radius ep g Hlt).
Qed.

Lemma C2_rate_gate_witness :
  let aim t := Send (mkSendCall t t t (Some 120) (Some 80) None None None None) in
  let circle t :=
    Send (mkSendCall t t t (Some 0) (Some 0) (Some "circle"%string)
            (Some (120, 80)) (Some 23) None) in
  let events :=
    [Command CMD_AIM_BULLSEYE; aim 100; aim 110; aim 131;
     Command CMD_CIRCLE_TRACKING; circle 150; circle 181; circle 200; circle 231] in
  0 < 2 ^ 29
  /\ monotonic_from 0 events
  /\ map em_time (emissions (fun _ => 0%Q) (fun _ => 0%Q) (2 ^ 29) events boot)
     = [100; 131; 181; 231]
  /\ ForallOrdPairs Spec.spaced
       (emissions (fun _ => 0%Q) (fun _ => 0%Q) (2 ^ 29) events boot)
  /\ (ticks_diff (2 ^ 29) 29 (last_uart_send_time boot)
      < current_send_interval_ms boot
      /\ uart_tx (fst (send_target_coords (fun _ => 0%Q) (fun _ => 0%Q) (2 ^ 29)
                         (mkReadings 29 29 29) (Some 120) (Some 80)
                         None None None None boot))
         = uart_tx boot).
Proof.
  cbv zeta.
  assert (Hpos : 0 < 2 ^ 29) by reflexivity.
  split; [exact Hpos |].
  assert (Hmono :
    monotonic_from 0
      [Command CMD_AIM_BULLSEYE;
       Send (mkSendCall 100 100 100 (Some 120) (Some 80) None None None None);
       Send (mkSendCall 110 110 110 (Some 120) (Some 80) None None None None);
       Send (mkSendCall 131 131 131 (Some 120) (Some 80) None None None None);
       Command CMD_CIRCLE_TRACKING;
       Send (mkSendCall 150 150 150 (Some 0) (Some 0) (Some "circle"%string)
               (Some (120, 80)) (Some 23) None);
       Send (mkSendCall 181 181 181 (Some 0) (Some 0) (Some "circle"%string)
               (Some (120, 80)) (Some 23) None);
       Send (mkSendCall 200 200 200 (Some 0) (Some 0) (Some "circle"%string)
               (Some (120, 80)) (Some 23) None);
       Send (mkSendCall 231 231 231 (Some 0) (Some 0) (Some "circle"%string)
               (Some (120, 80)) (Some 23) None)])
    by (cbn; lia).
  split; [exact Hmono |].
  split; [vm_compute; reflexivity |].
  split.
  - exact (proj1 (C2_rate_gate (fun _ => 0%Q) (fun _ => 0%Q) (2 ^ 29) Hpos)
             _ boot 0 Hmono).
  - assert (Hlt : ticks_diff (2 ^ 29) 29 (last_uart_send_time boot)
                  < current_send_interval_ms boot) by (vm_compute; reflexivity).
    split; [exact Hlt |].
    exact (proj2 (proj2 (proj2 (C2_rate_gate (fun _ => 0%Q) (fun _ => 0%Q) (2 ^ 29) Hpos)))
             (mkReadings 29 29 29) (Some 120) (Some 80) None None None None boot Hlt).
Defined.

(** ** C4 and C7: mode commands *)

Lemma exec_snoc (cos sin : Q -> Q) (ticks_half : Z) events e g :
  exec cos sin ticks_half (events ++ [e]) g
  = step cos sin ticks_half e (exec cos sin ticks_half events g).
Proof. unfold exec. now rewrite fold_left_app. Qed.

(** C4, as stated, after 0xA2 and one tracking send at 100 ms: the scan has
    a start time and a last point, and neither 0xA3 nor 0xA1 clears them. *)
Lemma C4_leaving_tracking_counterexample :
  let g :=
    exec (fun _ => 0%Q) (fun _ => 0%Q) (2 ^ 29)
      [Command CMD_CIRCLE_TRACKING;
       Send (mkSendCall 100 100 100 (Some 0) (Some 0) (Some "circle"%string)
               (Some (120, 80)) (Some 23) None)]
      boot in
  current_state g = STATE_CIRCLE_TRACKING
  /\ current_state (handle_command CMD_IDLE g) = STATE_IDLE
  /\ circle_start_time (handle_command CMD_IDLE g) = Some 100
  /\ last_target_point (handle_command CMD_IDLE g) = Some (120, 80)
  /\ current_state (handle_command CMD_AIM_BULLSEYE g) = STATE_AIM_BULLSEYE
  /\ circle_start_time (handle_command CMD_AIM_BULLSEYE g) = Some 100
  /\ last_target_point (handle_command CMD_AIM_BULLSEYE g) = Some (120, 80).
Proof. vm_compute. repeat split; reflexivity. Qed.

(** C4 (amended): after any run that ends with the command 0xA2, a repeated
    0xA2 included, the mode is tracking and the scan state is the initial
    one: [current_angle] 0, [circle_start_time] and [last_target_point]
    [None].  The commands 0xA3 and 0xA1 leave [circle_start_time],
    [last_target_point] and [current_angle] as they are.  And a tracking
    call that finds [circle_start_time] at [None] starts a revolution of its
    own: the start time is the reading of that call and the phase is
    advanced from 0, whatever [current_angle] held. *)
Theorem C4_scan_state_reset :
  forall (cos sin : Q -> Q) (ticks_half : Z) (g : globals),
    (forall events,
        let g' := exec cos sin ticks_half (events ++ [Command CMD_CIRCLE_TRACKING]) g in
        current_state g' = STATE_CIRCLE_TRACKING
        /\ current_angle g' = 0%Q
        /\ circle_start_time g' = None
        /\ last_target_point g' = None)
    /\ (forall command,
           command = CMD_IDLE \/ command = CMD_AIM_BULLSEYE ->
           circle_start_time (handle_command command g) = circle_start_time g
           /\ last_target_point (handle_command command g) = last_target_point g
           /\ current_angle (handle_command command g) = current_angle g)
    /\ (forall clk center radius ellipse_params,
           circle_start_time g = None ->
           let g' := fst (circle_branch cos sin ticks_half clk center radius
                            ellipse_params g) in
           circle_start_time g' = Some (ticks_start clk)
           /\ current_angle g'
              = advance_angle
                  (ideal_angle_of
                     (ticks_diff ticks_half (ticks_elapsed clk) (ticks_start clk)))
                  0%Q).
Proof.
  intros cos sin ticks_half g. split; [| split].
  - intros events. cbv zeta. rewrite exec_snoc. cbn. auto.
  - intros command [H | H]; subst command; cbn; auto.
  - intros clk [center_x center_y] radius ep Hnone. cbv zeta.
    unfold circle_branch. rewrite Hnone.
    destruct ep as [[[[a |] [b |]] [r |]] |];
      match goal with
      | |- context [get_ellipse_point ?c ?s ?cx ?cy ?a ?b ?an ?ro] =>
          destruct (get_ellipse_point c s cx cy a b an ro) as [tx ty]
      end;
      cbn [last_target_point set_current_angle set_circle_start_time];
      destruct (last_target_point g) as [[lx ly] |]; cbn; auto.
Qed.

Lemma C4_scan_state_reset_witness :
  let g :=
    exec (fun _ => 0%Q) (fun _ => 0%Q) (2 ^ 29)
      [Command CMD_CIRCLE_TRACKING;
       Send (mkSendCall 100 100 100 (Some 0) (Some 0) (Some "circle"%string)
               (Some (120, 80)) (Some 23) None)]
      boot in
  let g2 := handle_command CMD_CIRCLE_TRACKING g in
  ((CMD_IDLE = CMD_IDLE \/ CMD_IDLE = CMD_AIM_BULLSEYE)
   /\ circle_start_time (handle_command CMD_IDLE g) = circle_start_time g
   /\ last_target_point (handle_command CMD_IDLE g) = last_target_point g
   /\ current_angle (handle_command CMD_IDLE g) = current_angle g)
  /\ (circle_start_time g2 = None
      /\ circle_start_time
           (fst (circle_branch (fun _ => 0%Q) (fun _ => 0%Q) (2 ^ 29)
                   (mkReadings 400 401 402) (120, 80) 23 None g2))
         = Some 401).
Proof.
  cbv zeta. split.
  - split; [left; reflexivity |].
    apply (proj1 (proj2 (C4_scan_state_reset (fun _ => 0%Q) (fun _ => 0%Q) (2 ^ 29) _))).
    left. reflexivity.
  - split; [reflexivity |].
    exact (proj1 (proj2 (proj2 (C4_scan_state_reset (fun _ => 0%Q) (fun _ => 0%Q) (2 ^ 29)
                                  (handle_command CMD_CIRCLE_TRACKING
                                     (exec (fun _ => 0%Q) (fun _ => 0%Q) (2 ^ 29)
                                        [Command CMD_CIRCLE_TRACKING;
                                         Send (mkSendCall 100 100 100 (Some 0) (Some 0)
                                                 (Some "circle"%string)
                                                 (Some (120, 80)) (Some 23) None)]
                                        boot))))
                          (mkReadings 400 401 402) (120, 80) 23 None eq_refl)).
Defined.

(** C7, as stated, at 0xA3 received in tracking mode: the interval stays at
    the 50 ms of tracking; the mode change to idle does not configure it
    ([set_send_interval_for_mode] is not called, it would store 30). *)
Lemma C7_idle_counterexample :
  let g := handle_command CMD_CIRCLE_TRACKING boot in
  current_state (handle_command CMD_IDLE g) = STATE_IDLE
  /\ current_send_interval_ms (handle_command CMD_IDLE g) = 50
  /\ current_send_interval_ms (set_send_interval_for_mode STATE_IDLE g) = 30
  /\ handle_command CMD_IDLE g
     <> set_send_interval_for_mode STATE_IDLE (set_current_state STATE_IDLE g).
Proof.
  vm_compute. repeat split; try reflexivity. discriminate.
Qed.

(** C7 (amended): the command 0xA1 sets the mode to aim and the interval to
    30 ms, the command 0xA2 sets the mode to tracking and the interval to
    50 ms, the command 0xA3 sets the mode to idle and leaves the interval
    as it was; no command, recognised or not, changes
    [last_uart_send_time]. *)
Theorem C7_mode_change_interval :
  forall g : globals,
    (current_state (handle_command CMD_AIM_BULLSEYE g) = STATE_AIM_BULLSEYE
     /\ current_send_interval_ms (handle_command CMD_AIM_BULLSEYE g) = 30)
    /\ (current_state (handle_command CMD_CIRCLE_TRACKING g) = STATE_CIRCLE_TRACKING
        /\ current_send_interval_ms (handle_command CMD_CIRCLE_TRACKING g) = 50)
    /\ (current_state (handle_command CMD_IDLE g) = STATE_IDLE
        /\ current_send_interval_ms (handle_command CMD_IDLE g)
           = current_send_interval_ms g)
    /\ (forall command,
           last_uart_send_time (handle_command command g) = last_uart_send_time g).
Proof.
  intro g. repeat split; try reflexivity.
  intro command. apply handle_command_keeps_send_time.
Qed.

(** ** C6: the phase advance *)

Lemma wrap_angle_diff_cases (d : Q) :
  ((Py.pi < d)%Q -> wrap_angle_diff d = Binary64.sub d (2 * Py.pi))
  /\ ((d < - Py.pi)%Q -> wrap_angle_diff d = Binary64.add d (2 * Py.pi))
  /\ ((- Py.pi <= d)%Q /\ (d <= Py.pi)%Q -> wrap_angle_diff d = d).
Proof.
  pose proof pi_pos as Hpi. unfold wrap_angle_diff.
  split; [| split].
  - intro H. apply Qlt_bool_iff in H. now rewrite H.
  - intro H.
    assert (H1 : Py.Qlt_bool Py.pi d = false) by (apply Qlt_bool_false_iff; lra).
    apply Qlt_bool_iff in H. now rewrite H1, H.
  - intros [Hlo Hhi].
    assert (H1 : Py.Qlt_bool Py.pi d = false) by (now apply Qlt_bool_false_iff).
    assert (H2 : Py.Qlt_bool d (- Py.pi) = false) by (now apply Qlt_bool_false_iff).
    now rewrite H1, H2.
Qed.

Lemma wrap_angle_diff_range (d : Q) :
  (- (2 * Py.pi) <= d)%Q -> (d <= 2 * Py.pi)%Q ->
  ((Py.pi < d)%Q -> (wrap_angle_diff d <= 0)%Q)
  /\ ((d < - Py.pi)%Q -> (0 <= wrap_angle_diff d)%Q)
  /\ (- Py.pi <= wrap_angle_diff d)%Q /\ (wrap_angle_diff d <= Py.pi)%Q.
Proof.
  intros Hlo Hhi. pose proof pi_pos as Hpi.
  pose proof (representable_Z 0 ltac:(reflexivity)) as R0.
  pose proof representable_pi as Rpi.
  pose proof (representable_opp _ representable_pi) as Rnpi.
  destruct (wrap_angle_diff_cases d) as (Hgt & Hlt & Hmid).
  destruct (Qlt_le_dec Py.pi d) as [H1 | H1].
  - rewrite (Hgt H1). unfold Binary64.sub.
    assert (Hle : (Binary64.round (d - 2 * Py.pi) <= 0)%Q)
      by (apply (round_le (inject_Z 0)); [exact R0 | change (inject_Z 0) with 0%Q; lra]).
    assert (Hge : (- Py.pi <= Binary64.round (d - 2 * Py.pi))%Q)
      by (apply round_ge; [exact Rnpi | lra]).
    repeat split; intros; lra.
  - destruct (Qlt_le_dec d (- Py.pi)) as [H2 | H2].
    + rewrite (Hlt H2). unfold Binary64.add.
      assert (Hge : (0 <= Binary64.round (d + 2 * Py.pi))%Q)
        by (apply (round_ge (inject_Z 0)); [exact R0 | change (inject_Z 0) with 0%Q; lra]).
      assert (Hle : (Binary64.round (d + 2 * Py.pi) <= Py.pi)%Q)
        by (apply round_le; [exact Rpi | lra]).
      repeat split; intros; lra.
    + rewrite (Hmid (conj H2 H1)). repeat split; intros; lra.
Qed.

Lemma sub_range (x y : Q) :
  (0 <= x)%Q -> (x <= 2 * Py.pi)%Q -> (0 <= y)%Q -> (y <= 2 * Py.pi)%Q ->
  (- (2 * Py.pi) <= Binary64.sub x y)%Q /\ (Binary64.sub x y <= 2 * Py.pi)%Q.
Proof.
  intros Hx0 Hx1 Hy0 Hy1. unfold Binary64.sub. split.
  - apply round_ge; [apply representable_opp, representable_two_pi | lra].
  - apply round_le; [apply representable_two_pi | lra].
Qed.

Lemma ideal_angle_of_range (elapsed_time : Z) :
  (0 <= ideal_angle_of elapsed_time)%Q
  /\ (ideal_angle_of elapsed_time < 2 * Py.pi)%Q.
Proof.
  pose proof pi_pos as Hpi. unfold ideal_angle_of, target_circle_time.
  pose proof (Z.mod_pos_bound elapsed_time 15000 ltac:(lia)) as Hm.
  set (m := elapsed_time mod 15000) in *.
  assert (E : (inject_Z m / inject_Z 15000 == m # 15000)%Q)
    by (symmetry; apply (Qmake_Qdiv m 15000)).
  assert (H0 : (0 <= m # 15000)%Q) by (unfold Qle; simpl; lia).
  assert (H1 : (m # 15000 <= 16383 # 16384)%Q) by (unfold Qle; simpl; lia).
  pose proof (representable_Z 0 ltac:(reflexivity)) as R0.
  change (inject_Z 0) with 0%Q in R0.
  assert (R1 : Binary64.representable (16383 # 16384)).
  { exists 16383, (-14). split; [lia |]. split; reflexivity. }
  assert (R2 : Binary64.representable (16383 # 8192)).
  { exists 16383, (-13). split; [lia |]. split; reflexivity. }
  assert (R3 : Binary64.representable (2 * Py.pi - (1 # 4096))).
  { exists 884245359265187, (-47). split; [lia |]. split; reflexivity. }
  unfold Binary64.div, Binary64.mul.
  set (d1 := Binary64.round (inject_Z m / inject_Z 15000)).
  assert (Hd1 : (0 <= d1)%Q /\ (d1 <= 16383 # 16384)%Q).
  { unfold d1. split; [apply round_ge | apply round_le]; auto; lra. }
  set (d2 := Binary64.round (d1 * 2)).
  assert (Hd2 : (0 <= d2)%Q /\ (d2 <= 16383 # 8192)%Q).
  { unfold d2. split; [apply round_ge | apply round_le]; auto; lra. }
  assert (Hp0 : (0 <= d2 * Py.pi)%Q) by (apply Qmult_le_0_compat; lra).
  assert (Hp1 : (0 <= ((16383 # 8192) - d2) * Py.pi)%Q)
    by (apply Qmult_le_0_compat; lra).
  assert (Hc : ((16383 # 8192) * Py.pi <= 2 * Py.pi - (1 # 4096))%Q)
    by (vm_compute; discriminate).
  split.
  - apply round_ge; auto.
  - apply Qle_lt_trans with (2 * Py.pi - (1 # 4096))%Q; [| lra].
    apply round_le; auto. lra.
Qed.

Lemma advance_angle_range (ideal_angle current_angle : Q) :
  (0 <= advance_angle ideal_angle current_angle)%Q
  /\ (advance_angle ideal_angle current_angle <= 2 * Py.pi)%Q.
Proof.
  unfold advance_angle. apply fmod_range.
  - apply representable_two_pi.
  - pose proof pi_pos. lra.
Qed.

(** The phase the circle branch stores. *)
Lemma circle_branch_angle (cos sin : Q -> Q) (ticks_half : Z)
      clk center radius ellipse_params g :
  current_angle (fst (circle_branch cos sin ticks_half clk center radius
                        ellipse_params g))
  = match circle_start_time g with
    | Some t =>
        advance_angle
          (ideal_angle_of (ticks_diff ticks_half (ticks_elapsed clk) t))
          (current_angle g)
    | None =>
        advance_angle
          (ideal_angle_of
             (ticks_diff ticks_half (ticks_elapsed clk) (ticks_start clk)))
          0%Q
    end.
Proof.
  unfold circle_branch. destruct center as [center_x center_y].
  destruct (circle_start_time g) as [t |];
    (destruct ellipse_params as [[[[a |] [b |]] [r |]] |];
     match goal with
     | |- context [get_ellipse_point ?c ?s ?cx ?cy ?a ?b ?an ?ro] =>
         destruct (get_ellipse_point c s cx cy a b an ro) as [tx ty]
     end;
     cbn [last_target_point set_current_angle set_circle_start_time];
     destruct (last_target_point g) as [[lx ly] |]; reflexivity).
Qed.

(** C6: with the ideal angle and the current phase both in [0, 2 pi], the
    float difference [ideal - current] has 2 pi subtracted when it exceeds
    pi (the phase then does not increase) and 2 pi added when it is below
    -pi (the phase then does not decrease), so the wrapped difference lies
    in [-pi, pi]; the new phase is [(current + wrapped * 0.3) % (2 pi)] and
    lies in the closed interval [0, 2 pi].  The ideal angle of line 260 is
    always in [0, 2 pi), and the phase the circle branch stores is this
    advance.  From the phase 0.1 toward the ideal angle 2 pi - 0.1 the
    wrapped difference is -0.2 up to rounding, the phase goes down to 0.04,
    and one more advance takes it below 0, to 2 pi - 0.002: the short way,
    not up through pi. *)
Theorem C6_phase_advance :
  (forall ideal_angle current_angle : Q,
      (0 <= ideal_angle)%Q -> (ideal_angle <= 2 * Py.pi)%Q ->
      (0 <= current_angle)%Q -> (current_angle <= 2 * Py.pi)%Q ->
      let angle_diff := Binary64.sub ideal_angle current_angle in
      ((Py.pi < angle_diff)%Q ->
       wrap_angle_diff angle_diff = Binary64.sub angle_diff (2 * Py.pi)
       /\ (wrap_angle_diff angle_diff <= 0)%Q)
      /\ ((angle_diff < - Py.pi)%Q ->
          wrap_angle_diff angle_diff = Binary64.add angle_diff (2 * Py.pi)
          /\ (0 <= wrap_angle_diff angle_diff)%Q)
      /\ ((- Py.pi <= angle_diff)%Q /\ (angle_diff <= Py.pi)%Q ->
          wrap_angle_diff angle_diff = angle_diff)
      /\ (- Py.pi <= wrap_angle_diff angle_diff)%Q
      /\ (wrap_angle_diff angle_diff <= Py.pi)%Q
      /\ advance_angle ideal_angle current_angle
         = Py.fmod
             (Binary64.add current_angle
                (Binary64.mul (wrap_angle_diff angle_diff)
                              (Binary64.round (3 # 10))))
             (2 * Py.pi)
      /\ (0 <= advance_angle ideal_angle current_angle)%Q
      /\ (advance_angle ideal_angle current_angle <= 2 * Py.pi)%Q)
  /\ (forall elapsed_time : Z,
         (0 <= ideal_angle_of elapsed_time)%Q
         /\ (ideal_angle_of elapsed_time < 2 * Py.pi)%Q)
  /\ (forall (cos sin : Q -> Q) (ticks_half : Z) clk center radius
             ellipse_params g,
         current_angle (fst (circle_branch cos sin ticks_half clk center
                                 radius ellipse_params g))
         = match circle_start_time g with
           | Some t =>
               advance_angle
                 (ideal_angle_of (ticks_diff ticks_half (ticks_elapsed clk) t))
                 (current_angle g)
           | None =>
               advance_angle
                 (ideal_angle_of
                    (ticks_diff ticks_half (ticks_elapsed clk) (ticks_start clk)))
                 0%Q
           end)
  /\ (let near_start := Binary64.round (1 # 10) in
      let near_end := Binary64.sub (2 * Py.pi) near_start in
      let wrapped := wrap_angle_diff (Binary64.sub near_end near_start) in
      let once := advance_angle near_end near_start in
      let twice := advance_angle near_end once in
      let eps := (1 # 1000000000000000)%Q in
      (- (1 # 5) - eps < wrapped)%Q /\ (wrapped < - (1 # 5) + eps)%Q
      /\ ((1 # 25) - eps < once)%Q /\ (once < (1 # 25) + eps)%Q
      /\ (2 * Py.pi - (1 # 500) - eps < twice)%Q
      /\ (twice < 2 * Py.pi - (1 # 500) + eps)%Q
      /\ (Py.pi < twice)%Q).
Proof.
  pose proof pi_pos as Hpi.
  split; [| split; [| split]].
  - intros ideal cur Hi0 Hi1 Hc0 Hc1. cbv zeta.
    destruct (sub_range ideal cur Hi0 Hi1 Hc0 Hc1) as [Hd0 Hd1].
    destruct (wrap_angle_diff_cases (Binary64.sub ideal cur))
      as (Hgt & Hlt & Hmid).
    destruct (wrap_angle_diff_range (Binary64.sub ideal cur) Hd0 Hd1)
      as (Hneg & Hpos & Hlo & Hhi).
    destruct (advance_angle_range ideal cur) as [Ha0 Ha1].
    split; [intro H; split; [exact (Hgt H) | exact (Hneg H)] |].
    split; [intro H; split; [exact (Hlt H) | exact (Hpos H)] |].
    split; [exact Hmid |].
    split; [exact Hlo |]. split; [exact Hhi |].
    split; [reflexivity |]. split; assumption.
  - apply ideal_angle_of_range.
  - intros cos sin ticks_half clk center radius ep g.
    apply circle_branch_angle.
  - cbv zeta. repeat split; vm_compute; reflexivity.
Qed.

Lemma C6_phase_advance_witness :
  let near_start := Binary64.round (1 # 10) in
  let near_end := Binary64.sub (2 * Py.pi) near_start in
  ((0 <= near_end)%Q /\ (near_end <= 2 * Py.pi)%Q
   /\ (0 <= near_start)%Q /\ (near_start <= 2 * Py.pi)%Q)
  /\ ((Py.pi < Binary64.sub near_end near_start)%Q
      /\ wrap_angle_diff (Binary64.sub near_end near_start)
         = Binary64.sub (Binary64.sub near_end near_start) (2 * Py.pi)
      /\ (wrap_angle_diff (Binary64.sub near_end near_start) <= 0)%Q)
  /\ ((Binary64.sub near_start near_end < - Py.pi)%Q
      /\ wrap_angle_diff (Binary64.sub near_start near_end)
         = Binary64.add (Binary64.sub near_start near_end) (2 * Py.pi)
      /\ (0 <= wrap_angle_diff (Binary64.sub near_start near_end))%Q).
Proof.
  cbv zeta.
  set (near_start := Binary64.round (1 # 10)).
  set (near_end := Binary64.sub (2 * Py.pi) near_start).
  assert (H1 : (0 <= near_end)%Q) by (vm_compute; discriminate).
  assert (H2 : (near_end <= 2 * Py.pi)%Q) by (vm_compute; discriminate).
  assert (H3 : (0 <= near_start)%Q) by (vm_compute; discriminate).
  assert (H4 : (near_start <= 2 * Py.pi)%Q) by (vm_compute; discriminate).
  assert (H5 : (Py.pi < Binary64.sub near_end near_start)%Q)
    by (vm_compute; reflexivity).
  assert (H6 : (Binary64.sub near_start near_end < - Py.pi)%Q)
    by (vm_compute; reflexivity).
  split; [repeat split; assumption |]. split.
  - split; [exact H5 |].
    exact (proj1 (proj1 C6_phase_advance _ _ H1 H2 H3 H4) H5).
  - split; [exact H6 |].
    exact (proj1 (proj2 (proj1 C6_phase_advance _ _ H3 H4 H1 H2)) H6).
Defined.

(** C6, the half-open interval: a scan started by 0xA2 whose first three
    packets leave 0, 100 and 14930 ms after its start.  The first advance
    leaves the phase at 0, the second takes it to 0.3 times the ideal angle
    of 100 ms, and the third, toward the ideal angle of 14930 ms just below
    a full turn, subtracts the same amount up to rounding: the sum is a
    negative number of magnitude below 2 ** -55, the remainder adds 2 pi to
    it, and the float addition returns 2 pi itself.  The stored phase is
    2 pi, not a value below it. *)
Lemma C6_phase_reaches_two_pi_counterexample :
  let tracking_send t :=
    Send (mkSendCall t t t None None (Some "circle"%string)
                     (Some (120, 80)) (Some 20) None) in
  let g :=
    exec (fun _ => 0%Q) (fun _ => 0%Q) (2 ^ 29)
         [Command CMD_CIRCLE_TRACKING; tracking_send 1000;
          tracking_send 1100; tracking_send 15930]
         boot in
  let first := advance_angle (ideal_angle_of 0) 0 in
  let second := advance_angle (ideal_angle_of 100) first in
  let third := advance_angle (ideal_angle_of 14930) second in
  (first == 0)%Q
  /\ (0 < second)%Q /\ (second < 2 * Py.pi)%Q
  /\ (0 <= ideal_angle_of 14930)%Q /\ (ideal_angle_of 14930 < 2 * Py.pi)%Q
  /\ (- Binary64.pow2 (-55)
      < Binary64.add second
          (Binary64.mul
             (wrap_angle_diff (Binary64.sub (ideal_angle_of 14930) second))
             (Binary64.round (3 # 10))))%Q
  /\ (Binary64.add second
        (Binary64.mul
           (wrap_angle_diff (Binary64.sub (ideal_angle_of 14930) second))
           (Binary64.round (3 # 10))) < 0)%Q
  /\ (third == 2 * Py.pi)%Q
  /\ ~ (third < 2 * Py.pi)%Q
  /\ current_angle g = third
  /\ List.length (uart_tx g) = 3%nat.
Proof.
  cbv zeta.
  split; [vm_compute; reflexivity |].
  split; [vm_compute; reflexivity |].
  split; [vm_compute; reflexivity |].
  split; [vm_compute; discriminate |].
  split; [vm_compute; reflexivity |].
  split; [vm_compute; reflexivity |].
  split; [vm_compute; reflexivity |].
  split; [vm_compute; reflexivity |].
  split; [vm_compute; discriminate |].
  split; vm_compute; reflexivity.
Qed.

(** ** C3: the validator *)

Lemma is_degenerate_iff (w h : Z) :
  is_degenerate w h = true <-> w = 0 \/ h = 0.
Proof.
  unfold is_degenerate. now rewrite orb_true_iff, !Z.eqb_eq.
Qed.

Lemma is_on_edge_iff (x y w h : Z) :
  is_on_edge x y w h = true
  <-> x = 0 \/ y = 0 \/ x + w >= SCREEN_WIDTH \/ y + h >= SCREEN_HEIGHT.
Proof.
  unfold is_on_edge. rewrite !orb_true_iff, !Z.eqb_eq, !Z.geb_le. lia.
Qed.

Lemma very_large_positive (rect_area : Z) :
  (frame_fraction (75 # 100) < inject_Z rect_area)%Q -> 0 < rect_area.
Proof.
  unfold frame_fraction, SCREEN_WIDTH, SCREEN_HEIGHT, Qlt. cbn. lia.
Qed.

Lemma is_flooding_iff (blob_pixels rect_area : Z) :
  is_flooding blob_pixels rect_area = true
  <-> (frame_fraction (75 # 100) < inject_Z rect_area)%Q
      /\ (6 # 10 < inject_Z blob_pixels / inject_Z rect_area)%Q.
Proof.
  unfold is_flooding. cbv zeta. rewrite andb_true_iff, !Qlt_bool_iff.
  split; intros [Hl Hd]; (split; [exact Hl |]);
    pose proof (very_large_positive _ Hl) as Hpos;
    apply Z.ltb_lt in Hpos; unfold density_of in *; now rewrite Hpos in *.
Qed.

Lemma quotient_nonpositive (n d : Q) : (0 <= n)%Q -> (d <= 0)%Q -> (n / d <= 0)%Q.
Proof.
  intros Hn Hd. destruct (Qeq_dec d 0) as [E | E].
  - unfold Qdiv. rewrite E. unfold Qinv. cbn. lra.
  - assert (Hneg : (d < 0)%Q).
    { destruct (Qlt_le_dec d 0) as [H | H]; [exact H |].
      exfalso. apply E. lra. }
    assert (Hi : (0 < / - d)%Q) by (apply Qinv_lt_0_compat; lra).
    assert (Hp : (0 <= n * / - d)%Q) by (apply Qmult_le_0_compat; lra).
    assert (Hq : (n / d == - (n * / - d))%Q) by (field; lra).
    rewrite Hq. lra.
Qed.

Lemma shape_factor_le_iff (perimeter blob_pixels : Z) :
  (shape_factor_of perimeter blob_pixels <= 11 # 10)%Q
  <-> (inject_Z (perimeter * perimeter) / (4 * Py.pi * inject_Z blob_pixels)
       <= 11 # 10)%Q.
Proof.
  unfold shape_factor_of. destruct (0 <? blob_pixels) eqn:E; [reflexivity |].
  apply Z.ltb_ge in E. split; intros _; [| lra].
  assert (H : (inject_Z (perimeter * perimeter)
               / (4 * Py.pi * inject_Z blob_pixels) <= 0)%Q).
  { apply quotient_nonpositive.
    - change 0%Q with (inject_Z 0). rewrite <- Zle_Qle. nia.
    - pose proof pi_pos as Hpi.
      assert (Hb : (inject_Z blob_pixels <= 0)%Q)
        by (change 0%Q with (inject_Z 0); now rewrite <- Zle_Qle).
      assert (0 <= 4 * Py.pi * - inject_Z blob_pixels)%Q
        by (apply Qmult_le_0_compat; lra).
      lra. }
  lra.
Qed.

Lemma shape_accepted_false_iff (w h p a : Z) :
  shape_accepted w h (w * h) p a = false
  <-> (4 <= inject_Z (Z.max w h) / inject_Z (Z.min w h))%Q
      \/ ~ (1000 < w * h /\ (inject_Z (w * h) < frame_fraction (95 # 100))%Q)
      \/ (inject_Z (p * p) / (4 * Py.pi * inject_Z a) <= 11 # 10)%Q.
Proof.
  unfold shape_accepted. cbv zeta.
  rewrite !andb_false_iff, !Qlt_bool_false_iff, Z.ltb_ge, shape_factor_le_iff.
  unfold aspect_ratio_of. split.
  - intros [[[H | H] | H] | H]; auto.
    + right. left. intros [H1 _]. lia.
    + right. left. intros [_ H2]. lra.
  - intros [H | [H | H]]; auto.
    destruct (Z_lt_le_dec 1000 (w * h)) as [H1 | H1]; [| auto].
    destruct (Qlt_le_dec (inject_Z (w * h)) (frame_fraction (95 # 100)))
      as [H2 | H2]; [| auto].
    exfalso. apply H. split; assumption.
Qed.

Lemma examine_blob_some (b : blob) (c : blob * Z) :
  examine_blob b = Some c -> c = (b, rect_area_of b).
Proof.
  unfold examine_blob, rect_area_of. destruct (rect b) as [[[x y] w] h].
  destruct (is_degenerate w h); [discriminate |].
  destruct (is_on_edge x y w h); [discriminate |].
  destruct (is_flooding (area b) (w * h)); [discriminate |].
  destruct (shape_accepted w h (w * h) (perimeter b) (area b)); [| discriminate].
  intro H. now injection H.
Qed.

Lemma examine_blob_none_iff (b : blob) :
  examine_blob b = None <-> Spec.rejected b.
Proof.
  unfold examine_blob, Spec.rejected, Spec.touches_edge.
  destruct (rect b) as [[[x y] w] h]. cbv zeta.
  rewrite <- is_degenerate_iff, <- is_on_edge_iff, <- is_flooding_iff,
    <- shape_accepted_false_iff.
  destruct (is_degenerate w h), (is_on_edge x y w h),
    (is_flooding (area b) (w * h)),
    (shape_accepted w h (w * h) (perimeter b) (area b));
    split; intro H; try reflexivity; try discriminate; auto;
    repeat (destruct H as [H | H]; try discriminate).
Qed.

Lemma scan_blobs_candidates (blobs : list blob) :
  forall candidates,
    scan_blobs blobs candidates = candidates ++ candidates_of blobs.
Proof.
  induction blobs as [| b rest IH]; intro candidates; cbn [scan_blobs candidates_of flat_map].
  - now rewrite app_nil_r.
  - destruct (examine_blob b) as [c |]; rewrite IH; fold (candidates_of rest).
    + now rewrite <- app_assoc.
    + reflexivity.
Qed.

(** [max] returns the first element among those with the largest key. *)
Lemma max_from_first_maximal {A : Type} (key : A -> Z) (l : list A) :
  forall best,
    exists l1 m l2,
      best :: l = l1 ++ m :: l2
      /\ max_from key best l = m
      /\ (forall c, In c l1 -> key c < key m)
      /\ (forall c, In c l2 -> key c <= key m).
Proof.
  induction l as [| c rest IH]; intro best; cbn [max_from].
  - exists [], best, [].
    split; [reflexivity | split; [reflexivity | split; intros ? []]].
  - destruct (key best <? key c) eqn:E.
    + apply Z.ltb_lt in E.
      destruct (IH c) as (l1 & m & l2 & Hdec & Hmax & H1 & H2).
      assert (Hcm : key c <= key m).
      { assert (Hc : In c (l1 ++ m :: l2)) by (rewrite <- Hdec; now left).
        apply in_app_or in Hc. destruct Hc as [Hc | [Hc | Hc]].
        - specialize (H1 c Hc). lia.
        - rewrite Hc. lia.
        - now apply H2. }
      exists (best :: l1), m, l2.
      split; [cbn [app]; now rewrite Hdec |].
      split; [exact Hmax |].
      split; [| exact H2].
      intros x [Hx | Hx]; [rewrite <- Hx; lia | now apply H1].
    + apply Z.ltb_ge in E.
      destruct (IH best) as (l1 & m & l2 & Hdec & Hmax & H1 & H2).
      destruct l1 as [| x l1'].
      * cbn [app] in Hdec. injection Hdec as Hm Hl2.
        exists [], best, (c :: rest).
        split; [reflexivity |].
        split; [now rewrite Hmax |].
        split; [intros ? [] |].
        intros y [Hy | Hy]; [rewrite <- Hy; exact E |].
        rewrite Hm. apply H2. now rewrite <- Hl2.
      * cbn [app] in Hdec. injection Hdec as Hx Hrest.
        assert (Hbm : key best < key m) by (apply H1; left; now symmetry).
        exists (best :: c :: l1'), m, l2.
        split; [cbn [app]; now rewrite Hrest |].
        split; [exact Hmax |].
        split; [| exact H2].
        intros y [Hy | [Hy | Hy]].
        -- rewrite <- Hy. exact Hbm.
        -- rewrite <- Hy. lia.
        -- apply H1. now right.
Qed.

(** A place in the list of candidates is a place in the list of blobs. *)
Lemma candidates_of_split (blobs : list blob) :
  forall C1 b a C2,
    candidates_of blobs = C1 ++ (b, a) :: C2 ->
    exists l1 l2,
      blobs = l1 ++ b :: l2
      /\ candidates_of l1 = C1 /\ candidates_of l2 = C2
      /\ examine_blob b = Some (b, a).
Proof.
  induction blobs as [| x rest IH]; intros C1 b a C2 H;
    cbn [candidates_of flat_map] in H.
  - destruct C1; discriminate.
  - fold (candidates_of rest) in H.
    destruct (examine_blob x) as [c |] eqn:E; cbn [app] in H.
    + destruct C1 as [| c1 C1'].
      * cbn [app] in H. injection H as Hc Hrest. subst c.
        pose proof (examine_blob_some _ _ E) as Hx. injection Hx as Hb _. subst x.
        exists [], rest. repeat split; auto.
      * cbn [app] in H. injection H as Hc Hrest. subst c1.
        destruct (IH _ _ _ _ Hrest) as (l1 & l2 & Hdec & HC1 & HC2 & Hb).
        exists (x :: l1), l2. subst rest. repeat split; auto.
        cbn [candidates_of flat_map]. rewrite E. fold (candidates_of l1).
        now rewrite HC1.
    + destruct (IH _ _ _ _ H) as (l1 & l2 & Hdec & HC1 & HC2 & Hb).
      exists (x :: l1), l2. subst rest. repeat split; auto.
      cbn [candidates_of flat_map]. rewrite E. now fold (candidates_of l1).
Qed.

Lemma candidates_of_in (blobs : list blob) (c : blob) :
  In c blobs -> ~ Spec.rejected c ->
  In (c, rect_area_of c) (candidates_of blobs).
Proof.
  intros Hin Hrej. unfold candidates_of. apply in_flat_map.
  exists c. split; [exact Hin |].
  destruct (examine_blob c) as [p |] eqn:E.
  - rewrite (examine_blob_some _ _ E). now left.
  - exfalso. apply Hrej. now apply examine_blob_none_iff.
Qed.

Lemma candidates_of_nil_iff (blobs : list blob) :
  candidates_of blobs = [] <-> forall b, In b blobs -> Spec.rejected b.
Proof.
  split.
  - intros H b Hin.
    destruct (examine_blob b) as [p |] eqn:E; [| now apply examine_blob_none_iff].
    exfalso. assert (Hp : In p (candidates_of blobs)).
    { unfold candidates_of. apply in_flat_map. exists b.
      split; [exact Hin |]. rewrite E. now left. }
    rewrite H in Hp. destruct Hp.
  - intro H. unfold candidates_of.
    induction blobs as [| x rest IH]; [reflexivity |].
    cbn [flat_map].
    assert (Hx : examine_blob x = None)
      by (apply examine_blob_none_iff, H; now left).
    rewrite Hx. apply IH. intros b Hb. apply H. now right.
Qed.

Lemma find_target_boundary_rect_candidates (blobs : list blob) :
  find_target_boundary_rect blobs = option_map fst (py_max snd (candidates_of blobs)).
Proof.
  unfold find_target_boundary_rect. destruct blobs as [| b rest]; [reflexivity |].
  rewrite scan_blobs_candidates. cbn [app].
  destruct (candidates_of (b :: rest)); reflexivity.
Qed.

Lemma touches_edge_rejected (b : blob) : Spec.touches_edge b -> Spec.rejected b.
Proof.
  unfold Spec.rejected, Spec.touches_edge.
  destruct (rect b) as [[[x y] w] h]. cbv zeta. auto.
Qed.

Lemma find_target_boundary_rect_some (blobs : list blob) (b : blob) :
  find_target_boundary_rect blobs = Some b ->
  exists l1 l2,
    blobs = l1 ++ b :: l2
    /\ ~ Spec.rejected b
    /\ (forall c, In c l1 -> ~ Spec.rejected c -> rect_area_of c < rect_area_of b)
    /\ (forall c, In c l2 -> ~ Spec.rejected c -> rect_area_of c <= rect_area_of b).
Proof.
  rewrite find_target_boundary_rect_candidates.
  destruct (candidates_of blobs) as [| c0 C] eqn:EC; [discriminate |].
  cbn [py_max option_map].
  destruct (max_from_first_maximal snd C c0) as (C1 & m & C2 & Hdec & Hmax & H1 & H2).
  rewrite Hmax. destruct m as [b' a]. cbn [fst]. intro Hb. injection Hb as Hb.
  subst b'. rewrite Hdec in EC.
  destruct (candidates_of_split _ _ _ _ _ EC) as (l1 & l2 & Hblobs & HC1 & HC2 & Hex).
  pose proof (examine_blob_some _ _ Hex) as Ha. injection Ha as Ha.
  exists l1, l2. split; [exact Hblobs |].
  split.
  - intro Hrej. apply examine_blob_none_iff in Hrej. congruence.
  - split; intros c Hin Hc.
    + pose proof (candidates_of_in l1 c Hin Hc) as Hcand.
      rewrite HC1 in Hcand. specialize (H1 _ Hcand). cbn [snd] in H1. lia.
    + pose proof (candidates_of_in l2 c Hin Hc) as Hcand.
      rewrite HC2 in Hcand. specialize (H2 _ Hcand). cbn [snd] in H2. lia.
Qed.

Lemma find_target_boundary_rect_none_iff (blobs : list blob) :
  find_target_boundary_rect blobs = None
  <-> forall b, In b blobs -> Spec.rejected b.
Proof.
  rewrite find_target_boundary_rect_candidates, <- candidates_of_nil_iff.
  destruct (candidates_of blobs) as [| c0 C]; cbn [py_max option_map].
  - split; reflexivity.
  - split; discriminate.
Qed.

(** C3: [find_target_boundary_rect] returns [None] exactly when every blob
    is rejected by the pipeline (zero width or height; touching a frame
    edge; area above 75% of the frame with density above 0.6; aspect ratio
    at least 4; area outside (1000, 0.95 x frame area); shape factor at most
    1.1).  Otherwise it returns a blob of the list that is not rejected,
    whose rectangle area is strictly larger than that of every surviving
    blob before it and at least that of every surviving blob after it: the
    first of the survivors with the largest area.  A blob touching an edge
    is rejected whatever its other measurements, and is never returned. *)
Theorem C3_find_target_boundary_rect :
  forall blobs : list blob,
    (find_target_boundary_rect blobs = None
     <-> forall b, In b blobs -> Spec.rejected b)
    /\ (forall b,
           In b blobs -> ~ Spec.rejected b ->
           exists b', find_target_boundary_rect blobs = Some b')
    /\ (forall b,
           find_target_boundary_rect blobs = Some b ->
           exists l1 l2,
             blobs = l1 ++ b :: l2
             /\ ~ Spec.rejected b
             /\ (forall c, In c l1 -> ~ Spec.rejected c ->
                           rect_area_of c < rect_area_of b)
             /\ (forall c, In c l2 -> ~ Spec.rejected c ->
                           rect_area_of c <= rect_area_of b))
    /\ (forall b,
           Spec.touches_edge b ->
           Spec.rejected b
           /\ examine_blob b = None
           /\ find_target_boundary_rect blobs <> Some b).
Proof.
  intro blobs. split; [| split; [| split]].
  - apply find_target_boundary_rect_none_iff.
  - intros b Hin Hrej.
    destruct (find_target_boundary_rect blobs) as [b' |] eqn:E; [now exists b' |].
    exfalso. apply Hrej.
    now apply (proj1 (find_target_boundary_rect_none_iff blobs) E).
  - apply find_target_boundary_rect_some.
  - intros b Hedge. pose proof (touches_edge_rejected b Hedge) as Hrej.
    split; [exact Hrej |]. split; [now apply examine_blob_none_iff |].
    intro Hsome.
    destruct (find_target_boundary_rect_some blobs b Hsome) as (_ & _ & _ & Hn & _).
    now apply Hn.
Qed.

Lemma C3_find_target_boundary_rect_witness :
  let hollow x y w h p := mkBlob (x, y, w, h) (w * h) p in
  let small := hollow 20 20 50 40 400 in
  let first_big := hollow 60 30 100 80 720 in
  let on_edge := hollow 0 10 200 140 1360 in
  let second_big := hollow 100 50 80 100 720 in
  let blobs := [small; first_big; on_edge; second_big] in
  (find_target_boundary_rect blobs = Some first_big
   /\ exists l1 l2,
        blobs = l1 ++ first_big :: l2
        /\ ~ Spec.rejected first_big
        /\ (forall c, In c l1 -> ~ Spec.rejected c ->
                      rect_area_of c < rect_area_of first_big)
        /\ (forall c, In c l2 -> ~ Spec.rejected c ->
                      rect_area_of c <= rect_area_of first_big))
  /\ (Spec.touches_edge on_edge
      /\ Spec.rejected on_edge
      /\ examine_blob on_edge = None
      /\ find_target_boundary_rect blobs <> Some on_edge)
  /\ ((forall b, In b [on_edge] -> Spec.rejected b)
      /\ find_target_boundary_rect [on_edge] = None).
Proof.
  cbv zeta.
  assert (H : find_target_boundary_rect
                [mkBlob (20, 20, 50, 40) (50 * 40) 400;
                 mkBlob (60, 30, 100, 80) (100 * 80) 720;
                 mkBlob (0, 10, 200, 140) (200 * 140) 1360;
                 mkBlob (100, 50, 80, 100) (80 * 100) 720]
              = Some (mkBlob (60, 30, 100, 80) (100 * 80) 720))
    by (vm_compute; reflexivity).
  assert (He : Spec.touches_edge (mkBlob (0, 10, 200, 140) (200 * 140) 1360))
    by (left; reflexivity).
  split; [| split].
  - split; [exact H |].
    exact (proj1 (proj2 (proj2 (C3_find_target_boundary_rect _))) _ H).
  - split; [exact He |].
    exact (proj2 (proj2 (proj2 (C3_find_target_boundary_rect _))) _ He).
  - pose proof (proj1 (proj2 (proj2 (proj2
                  (C3_find_target_boundary_rect
                     [mkBlob (0, 10, 200, 140) (200 * 140) 1360]))) _ He))
      as Hrej.
    assert (Hall : forall b,
               In b [mkBlob (0, 10, 200, 140) (200 * 140) 1360] ->
               Spec.rejected b).
    { intros b [Hb | []]. rewrite <- Hb. exact Hrej. }
    split; [exact Hall |].
    exact (proj2 (proj1 (C3_find_target_boundary_rect _)) Hall).
Defined.

(** * Further properties of the code *)

(** ** More on [int] *)

Lemma int_compat (x y : Q) : (x == y)%Q -> Py.int x = Py.int y.
Proof.
  intro E. unfold Py.int.
  assert (Hb : Qle_bool 0 x = Qle_bool 0 y).
  { destruct (Qle_bool 0 x) eqn:Ex, (Qle_bool 0 y) eqn:Ey; try reflexivity.
    - apply Qle_bool_iff in Ex. rewrite E in Ex. apply Qle_bool_iff in Ex. congruence.
    - apply Qle_bool_iff in Ey. rewrite <- E in Ey. apply Qle_bool_iff in Ey. congruence. }
  rewrite Hb. destruct (Qle_bool 0 y).
  - now apply Qfloor_comp.
  - now apply Qceiling_comp.
Qed.

Lemma int_inject_Z (n : Z) : Py.int (inject_Z n) = n.
Proof.
  unfold Py.int. destruct (Qle_bool 0 (inject_Z n)).
  - apply Qfloor_Z.
  - apply Qceiling_Z.
Qed.

Lemma int_monotone (x y : Q) : (x <= y)%Q -> Py.int x <= Py.int y.
Proof.
  intro Hxy. unfold Py.int.
  destruct (Qle_bool 0 x) eqn:Ex, (Qle_bool 0 y) eqn:Ey.
  - now apply Qfloor_resp_le.
  - apply Qle_bool_iff in Ex.
    assert (Hy : (0 <= y)%Q) by lra. apply Qle_bool_iff in Hy. congruence.
  - assert (Hx : (x <= 0)%Q).
    { destruct (Qlt_le_dec 0 x) as [H | H]; [| exact H].
      assert (H' : (0 <= x)%Q) by lra. apply Qle_bool_iff in H'. congruence. }
    apply Qle_bool_iff in Ey.
    pose proof (Qceiling_resp_le _ _ Hx) as H1.
    pose proof (Qfloor_resp_le _ _ Ey) as H2.
    change 0%Q with (inject_Z 0) in H1, H2.
    rewrite Qceiling_Z in H1. rewrite Qfloor_Z in H2. lia.
  - now apply Qceiling_resp_le.
Qed.

(** [int] of a fraction is the quotient rounded toward zero. *)
Lemma int_fraction (n : Z) (d : positive) : Py.int (n # d) = Z.quot n (Z.pos d).
Proof.
  unfold Py.int.
  destruct (Qle_bool 0 (n # d)) eqn:E.
  - apply Qle_bool_iff in E. unfold Qle in E. cbn in E.
    assert (Hn : 0 <= n) by lia.
    cbn [Qfloor]. symmetry. apply Z.quot_div_nonneg; lia.
  - assert (Hn : n < 0).
    { destruct (Z_lt_le_dec n 0) as [H | H]; [exact H |].
      assert (H' : (0 <= n # d)%Q) by (unfold Qle; cbn; lia).
      apply Qle_bool_iff in H'. congruence. }
    unfold Qceiling. cbn [Qopp Qnum Qden Qfloor].
    rewrite <- (Z.opp_involutive n) at 2.
    rewrite Z.quot_opp_l by lia.
    f_equal. symmetry. apply Z.quot_div_nonneg; lia.
Qed.

(** ** The centre of a detected rectangle *)

Lemma rect_det (x y w h : Z) :
  diagonals_det (x, y) (x + w, y) (x + w, y + h) (x, y + h) = w * h * 2.
Proof. unfold diagonals_det. ring. Qed.

Lemma half_sum (x w : Z) : (2 * x + w) / 2 = x + w / 2.
Proof.
  replace (2 * x + w) with (w + x * 2) by ring.
  rewrite Z.div_add by lia. ring.
Qed.

(** The corrected centre on the four corners of a rectangle. *)
Lemma rect_center_of_corners (x y w h : Z) :
  0 <= x -> 0 <= y -> 0 <= w -> 0 <= h ->
  calculate_perspective_correction
    (Some [(x, y); (x + w, y); (x + w, y + h); (x, y + h)])
  = (x + w / 2, y + h / 2).
Proof.
  intros Hx Hy Hw Hh.
  unfold calculate_perspective_correction. rewrite rect_det.
  destruct (w * h * 2 =? 0) eqn:E.
  - unfold simple_center. cbn [map fold_right fst snd]. f_equal.
    + replace (x + (x + w + (x + w + (x + 0)))) with (2 * (2 * x + w)) by ring.
      change 4 with (2 * 2). rewrite Z.div_mul_cancel_l by lia. apply half_sum.
    + replace (y + (y + (y + h + (y + h + 0)))) with (2 * (2 * y + h)) by ring.
      change 4 with (2 * 2). rewrite Z.div_mul_cancel_l by lia. apply half_sum.
  - apply Z.eqb_neq in E.
    assert (Hwh : 0 < w * h) by nia.
    unfold diagonals_px, diagonals_py. rewrite rect_det. f_equal.
    + replace ((x * (y + h) - y * (x + w)) * (x + w - x)
               - (x - (x + w)) * ((x + w) * (y + h) - y * x))
        with (w * h * (2 * x + w)) by ring.
      rewrite int_div_nonneg by nia.
      rewrite Z.div_mul_cancel_l by lia. apply half_sum.
    + replace ((x * (y + h) - y * (x + w)) * (y - (y + h))
               - (y - (y + h)) * ((x + w) * (y + h) - y * x))
        with (w * h * (2 * y + h)) by ring.
      rewrite int_div_nonneg by nia.
      rewrite Z.div_mul_cancel_l by lia. apply half_sum.
Qed.

(** X1: on the corners [get_approximate_corners] makes of a rectangle with
    non-negative position and size, the corrected centre is
    [(x + w // 2, y + h // 2)], also when the width or the height is 0;
    without corners, or with a list that does not have four of them, it is
    the screen centre (120, 80). *)
Theorem X1_rect_center :
  (forall (b : blob) (x y w h : Z),
      rect b = (x, y, w, h) ->
      0 <= x -> 0 <= y -> 0 <= w -> 0 <= h ->
      calculate_perspective_correction (get_approximate_corners (Some b))
      = (x + w / 2, y + h / 2))
  /\ calculate_perspective_correction None = (120, 80)
  /\ (forall corners : list point,
         List.length corners <> 4%nat ->
         calculate_perspective_correction (Some corners) = (120, 80)).
Proof.
  split; [| split].
  - intros b x y w h Hrect Hx Hy Hw Hh.
    unfold get_approximate_corners. rewrite Hrect.
    now apply rect_center_of_corners.
  - reflexivity.
  - intros corners Hlen.
    destruct corners as [| c0 [| c1 [| c2 [| c3 [| c4 rest]]]]];
      try reflexivity.
    exfalso. apply Hlen. reflexivity.
Qed.

Lemma X1_rect_center_witness :
  rect (mkBlob (70, 40, 100, 80) 8000 720) = (70, 40, 100, 80)
  /\ calculate_perspective_correction
       (get_approximate_corners (Some (mkBlob (70, 40, 100, 80) 8000 720)))
     = (120, 80)
  /\ calculate_perspective_correction (Some [(1, 2); (3, 4); (5, 6)]) = (120, 80).
Proof.
  split; [reflexivity |]. split.
  - apply (proj1 X1_rect_center (mkBlob (70, 40, 100, 80) 8000 720) 70 40 100 80);
      [reflexivity | lia | lia | lia | lia].
  - apply (proj2 (proj2 X1_rect_center) [(1, 2); (3, 4); (5, 6)]).
    cbn. discriminate.
Defined.

(** ** What an accepted blob looks like *)

Lemma aspect_below_four (w h : Z) :
  0 < Z.min w h ->
  (inject_Z (Z.max w h) / inject_Z (Z.min w h) < 4)%Q ->
  Z.max w h < 4 * Z.min w h.
Proof.
  intros Hmin Hq.
  assert (Hm : (0 < inject_Z (Z.min w h))%Q)
    by (change 0%Q with (inject_Z 0); now rewrite <- Zlt_Qlt).
  assert (E : (inject_Z (Z.max w h)
               == inject_Z (Z.max w h) / inject_Z (Z.min w h) * inject_Z (Z.min w h))%Q)
    by (field; lra).
  assert (H : (inject_Z (Z.max w h) < 4 * inject_Z (Z.min w h))%Q).
  { rewrite E at 1. apply Qmult_lt_compat_r; assumption. }
  change 4%Q with (inject_Z 4) in H. rewrite <- inject_Z_mult in H.
  now rewrite <- Zlt_Qlt in H.
Qed.

Lemma examine_blob_accepted (b : blob) (x y w h : Z) :
  rect b = (x, y, w, h) ->
  accepted b = true ->
  w <> 0 /\ h <> 0 /\ x <> 0 /\ y <> 0
  /\ x + w < SCREEN_WIDTH /\ y + h < SCREEN_HEIGHT
  /\ shape_accepted w h (w * h) (perimeter b) (area b) = true.
Proof.
  intros Hrect. unfold accepted, examine_blob. rewrite Hrect.
  destruct (is_degenerate w h) eqn:E1; [discriminate |].
  destruct (is_on_edge x y w h) eqn:E2; [discriminate |].
  destruct (is_flooding (area b) (w * h)); [discriminate |].
  destruct (shape_accepted w h (w * h) (perimeter b) (area b)) eqn:E4;
    [| discriminate].
  intros _.
  unfold is_degenerate in E1. apply orb_false_iff in E1. destruct E1 as [Ew Eh].
  apply Z.eqb_neq in Ew, Eh.
  unfold is_on_edge in E2. rewrite !orb_false_iff in E2.
  destruct E2 as [[[Ex Ey] Exw] Eyh].
  apply Z.eqb_neq in Ex, Ey.
  rewrite Z.geb_leb in Exw, Eyh. apply Z.leb_gt in Exw, Eyh.
  repeat split; assumption.
Qed.

(** The integer facts behind an accepted blob. *)
Lemma accepted_blob_facts (b : blob) (x y w h : Z) :
  rect b = (x, y, w, h) ->
  0 <= w -> 0 <= h ->
  accepted b = true ->
  x <> 0 /\ y <> 0 /\ x + w < 240 /\ y + h < 160
  /\ 0 < w /\ 0 < h
  /\ Z.max w h < 4 * Z.min w h
  /\ 1000 < w * h /\ w * h < 36480
  /\ 0 < area b.
Proof.
  intros Hrect Hw Hh Hacc.
  destruct (examine_blob_accepted b x y w h Hrect Hacc)
    as (Ew & Eh & Ex & Ey & Exw & Eyh & Hshape).
  unfold SCREEN_WIDTH in Exw. unfold SCREEN_HEIGHT in Eyh.
  unfold shape_accepted in Hshape. cbv zeta in Hshape.
  rewrite !andb_true_iff in Hshape.
  destruct Hshape as [[[Hasp Hlo] Hhi] Hsf].
  apply Qlt_bool_iff in Hasp, Hhi, Hsf. apply Z.ltb_lt in Hlo.
  assert (Hmin : 0 < Z.min w h) by lia.
  pose proof (aspect_below_four w h Hmin Hasp) as Hratio.
  assert (Harea : w * h < 36480).
  { unfold frame_fraction, SCREEN_WIDTH, SCREEN_HEIGHT, Qlt in Hhi.
    cbn in Hhi. lia. }
  assert (Hpix : 0 < area b).
  { unfold shape_factor_of in Hsf.
    destruct (0 <? area b) eqn:E; [now apply Z.ltb_lt in E |].
    exfalso. revert Hsf. unfold Qlt. cbn. lia. }
  repeat split; try assumption; lia.
Qed.

(** With an area above 1000 and an aspect ratio below 4, the shorter side
    is at least 16. *)
Lemma shorter_side_at_least_16 (w h : Z) :
  0 < w -> 0 < h -> Z.max w h < 4 * Z.min w h -> 1000 < w * h ->
  16 <= Z.min w h.
Proof.
  intros Hw Hh Hratio Harea.
  destruct (Z_lt_le_dec (Z.min w h) 16) as [Hs | Hs]; [| exact Hs].
  exfalso.
  assert (Hprod : w * h = Z.min w h * Z.max w h)
    by (destruct (Z.min_spec w h) as [[_ E1] | [_ E1]];
        destruct (Z.max_spec w h) as [[_ E2] | [_ E2]];
        rewrite E1, E2; nia).
  assert (Z.min w h * Z.max w h <= 15 * 59) by nia.
  lia.
Qed.

(** X2: a blob the validator accepts, reported with non-negative position
    and size, lies strictly inside the 240 x 160 frame (at least one pixel
    from every border), has both sides at least 16 pixels long with the
    longer below four times the shorter, a rectangle area above 1000 and
    below 36480, and a positive pixel count. *)
Theorem X2_accepted_blob_geometry :
  forall (b : blob) (x y w h : Z),
    rect b = (x, y, w, h) ->
    0 <= x -> 0 <= y -> 0 <= w -> 0 <= h ->
    accepted b = true ->
    1 <= x /\ 1 <= y /\ x + w <= 239 /\ y + h <= 159
    /\ 16 <= w /\ 16 <= h
    /\ Z.max w h < 4 * Z.min w h
    /\ 1000 < w * h < 36480
    /\ 0 < area b.
Proof.
  intros b x y w h Hrect Hx Hy Hw Hh Hacc.
  destruct (accepted_blob_facts b x y w h Hrect Hw Hh Hacc)
    as (Ex & Ey & Exw & Eyh & Hw' & Hh' & Hratio & Hlo & Hhi & Hpix).
  pose proof (shorter_side_at_least_16 w h Hw' Hh' Hratio Hlo) as H16.
  repeat split; try assumption; lia.
Qed.

Lemma X2_accepted_blob_geometry_witness :
  let b := mkBlob (60, 30, 100, 80) 8000 720 in
  accepted b = true
  /\ 1 <= 60 /\ 1 <= 30 /\ 60 + 100 <= 239 /\ 30 + 80 <= 159
  /\ 16 <= 100 /\ 16 <= 80
  /\ Z.max 100 80 < 4 * Z.min 100 80
  /\ 1000 < 100 * 80 < 36480
  /\ 0 < area b.
Proof.
  cbv zeta.
  assert (Hacc : accepted (mkBlob (60, 30, 100, 80) 8000 720) = true)
    by (vm_compute; reflexivity).
  split; [exact Hacc |].
  apply (X2_accepted_blob_geometry (mkBlob (60, 30, 100, 80) 8000 720) 60 30 100 80);
    [reflexivity | lia | lia | lia | lia | exact Hacc].
Defined.

(** ** Rejected blobs play no part *)

Lemma candidates_of_filter (blobs : list blob) :
  candidates_of (filter accepted blobs) = candidates_of blobs.
Proof.
  induction blobs as [| b rest IH]; [reflexivity |].
  cbn [filter]. unfold accepted at 1.
  destruct (examine_blob b) as [c |] eqn:E.
  - cbn [candidates_of flat_map]. rewrite E. fold (candidates_of rest).
    fold (candidates_of (filter accepted rest)). now rewrite IH.
  - cbn [candidates_of flat_map]. rewrite E. cbn [app].
    fold (candidates_of rest). exact IH.
Qed.

(** What [find_target_boundary_rect] returns is a blob it accepts. *)
Lemma find_accepts (blobs : list blob) (b : blob) :
  find_target_boundary_rect blobs = Some b -> accepted b = true.
Proof.
  intro Hb.
  destruct (find_target_boundary_rect_some blobs b Hb) as (_ & _ & _ & Hrej & _).
  unfold accepted. destruct (examine_blob b) eqn:E; [reflexivity |].
  exfalso. apply Hrej. now apply examine_blob_none_iff.
Qed.

(** X3: the blobs the validator rejects have no influence on its result:
    [find_target_boundary_rect] returns the same on a list and on the list
    with the rejected blobs taken out.  What it returns is a blob of the
    list that it accepts, and a list of one accepted blob yields that
    blob. *)
Theorem X3_rejected_blobs_are_irrelevant :
  forall blobs : list blob,
    find_target_boundary_rect blobs
    = find_target_boundary_rect (filter accepted blobs)
    /\ (forall b, find_target_boundary_rect blobs = Some b ->
                  In b blobs /\ accepted b = true)
    /\ (forall b, accepted b = true ->
                  find_target_boundary_rect [b] = Some b).
Proof.
  intro blobs. split; [| split].
  - now rewrite !find_target_boundary_rect_candidates, candidates_of_filter.
  - intros b Hb.
    destruct (find_target_boundary_rect_some blobs b Hb)
      as (l1 & l2 & Hdec & Hrej & _).
    split.
    + rewrite Hdec. apply in_or_app. right. now left.
    + now apply (find_accepts blobs).
  - intros b Hacc. unfold accepted in Hacc.
    destruct (examine_blob b) as [c |] eqn:E; [| discriminate].
    pose proof (examine_blob_some _ _ E) as Hc.
    rewrite find_target_boundary_rect_candidates.
    cbn [candidates_of flat_map]. rewrite E, Hc. reflexivity.
Qed.

Lemma X3_rejected_blobs_are_irrelevant_witness :
  let good := mkBlob (60, 30, 100, 80) 8000 720 in
  let on_edge := mkBlob (0, 10, 200, 140) 28000 1360 in
  accepted good = true
  /\ find_target_boundary_rect [good] = Some good
  /\ find_target_boundary_rect [on_edge; good; on_edge]
     = find_target_boundary_rect (filter accepted [on_edge; good; on_edge]).
Proof.
  cbv zeta.
  assert (Hacc : accepted (mkBlob (60, 30, 100, 80) 8000 720) = true)
    by (vm_compute; reflexivity).
  split; [exact Hacc |]. split.
  - exact (proj2 (proj2 (X3_rejected_blobs_are_irrelevant [])) _ Hacc).
  - exact (proj1 (X3_rejected_blobs_are_irrelevant _)).
Defined.

(** ** The scan radius of an accepted blob *)

(** The radius of an accepted blob. *)
Lemma accepted_radius (b : blob) (x y w h : Z) :
  rect b = (x, y, w, h) ->
  0 <= w -> 0 <= h ->
  accepted b = true ->
  calculate_circle_params (Some w) (Some h) = (0, h * 2891 / 10000)
  /\ 16 <= h /\ y + h <= 159
  /\ 4 <= h * 2891 / 10000
  /\ h * 2891 / 10000 <= h / 2.
Proof.
  intros Hrect Hw Hh Hacc.
  destruct (accepted_blob_facts b x y w h Hrect Hw Hh Hacc)
    as (Ex & Ey & Exw & Eyh & Hw' & Hh' & Hratio & Hlo & Hhi & Hpix).
  pose proof (shorter_side_at_least_16 w h Hw' Hh' Hratio Hlo) as H16.
  assert (Hr : 4 <= h * 2891 / 10000) by (apply Z.div_le_lower_bound; lia).
  assert (Hhalf : h * 2891 / 10000 <= h / 2)
    by (apply Z.div_le_lower_bound;
        [lia | pose proof (Z.mul_div_le (h * 2891) 10000 ltac:(lia)); lia]).
  split; [| repeat split; lia].
  unfold calculate_circle_params.
  destruct (w <=? 0) eqn:E1; [apply Z.leb_le in E1; lia |].
  destruct (h <=? 0) eqn:E2; [apply Z.leb_le in E2; lia |].
  cbn [orb]. rewrite int_scaled_height by lia.
  f_equal. lia.
Qed.

(** X4: for a blob the validator accepts (non-negative position and size),
    [calculate_circle_params] takes the formula branch, the floor of 3
    never applies, and the radius [floor(h * 0.2891)] lies between 4 and
    45 pixels and is at most half the height: a circle of that radius
    around the corrected centre stays between the top and the bottom of the
    rectangle. *)
Theorem X4_scan_radius_of_accepted_blob :
  forall (b : blob) (x y w h : Z),
    rect b = (x, y, w, h) ->
    0 <= x -> 0 <= y -> 0 <= w -> 0 <= h ->
    accepted b = true ->
    let r := h * 2891 / 10000 in
    calculate_circle_params (Some w) (Some h) = (0, r)
    /\ 4 <= r <= 45
    /\ 2 * r <= h
    /\ y <= (y + h / 2) - r
    /\ (y + h / 2) + r <= y + h.
Proof.
  intros b x y w h Hrect Hx Hy Hw Hh Hacc. cbv zeta.
  destruct (accepted_radius b x y w h Hrect Hw Hh Hacc)
    as (Hparams & Hh16 & Hyh & Hr4 & Hhalf).
  assert (Hr46 : h * 2891 / 10000 < 46)
    by (apply Z.div_lt_upper_bound; lia).
  pose proof (Z.mul_div_le h 2 ltac:(lia)) as Hh2.
  split; [exact Hparams |]. repeat split; lia.
Qed.

Lemma X4_scan_radius_of_accepted_blob_witness :
  let b := mkBlob (60, 30, 100, 80) 8000 720 in
  accepted b = true
  /\ calculate_circle_params (Some 100) (Some 80) = (0, 80 * 2891 / 10000)
  /\ 4 <= 80 * 2891 / 10000 <= 45.
Proof.
  cbv zeta.
  assert (Hacc : accepted (mkBlob (60, 30, 100, 80) 8000 720) = true)
    by (vm_compute; reflexivity).
  split; [exact Hacc |].
  destruct (X4_scan_radius_of_accepted_blob
              (mkBlob (60, 30, 100, 80) 8000 720) 60 30 100 80
              eq_refl ltac:(lia) ltac:(lia) ltac:(lia) ltac:(lia) Hacc)
    as (H1 & H2 & _).
  split; [exact H1 | exact H2].
Defined.

(** ** Distances and ellipse parameters *)

Lemma fmax_same (t : Q) : fmax t t = t.
Proof.
  unfold fmax. now rewrite (proj2 (Qlt_bool_false_iff t t) (Qle_refl t)).
Qed.

Lemma fmin_same (t : Q) : fmin t t = t.
Proof.
  unfold fmin. now rewrite (proj2 (Qlt_bool_false_iff t t) (Qle_refl t)).
Qed.

Lemma fmax_cases (x y : Q) :
  ((x < y)%Q /\ fmax x y = y) \/ ((y <= x)%Q /\ fmax x y = x).
Proof.
  unfold fmax. destruct (Py.Qlt_bool x y) eqn:E.
  - left. split; [now apply Qlt_bool_iff | reflexivity].
  - right. split; [now apply Qlt_bool_false_iff | reflexivity].
Qed.

Lemma fmin_cases (x y : Q) :
  ((y < x)%Q /\ fmin x y = y) \/ ((x <= y)%Q /\ fmin x y = x).
Proof.
  unfold fmin. destruct (Py.Qlt_bool y x) eqn:E.
  - left. split; [now apply Qlt_bool_iff | reflexivity].
  - right. split; [now apply Qlt_bool_false_iff | reflexivity].
Qed.

(** The ratio of the shorter to the longer of two equal edges is 1. *)
Lemma ratio_of_equal_edges (t : Q) :
  ((if Py.Qlt_bool 0 (fmax t t) then fmin t t / fmax t t else 1) == 1)%Q.
Proof.
  rewrite fmax_same, fmin_same.
  destruct (Py.Qlt_bool 0 t) eqn:E; [| reflexivity].
  apply Qlt_bool_iff in E. field. lra.
Qed.

(** The ratio of the shorter to the longer of two lengths lies in [0, 1]. *)
Lemma ratio_range (a b : Q) :
  (0 <= a)%Q -> (0 <= b)%Q ->
  let q := if Py.Qlt_bool 0 (fmax a b) then (fmin a b / fmax a b)%Q else 1%Q in
  (0 <= q)%Q /\ (q <= 1)%Q.
Proof.
  intros Ha Hb. cbv zeta.
  destruct (Py.Qlt_bool 0 (fmax a b)) eqn:E; [| split; lra].
  apply Qlt_bool_iff in E.
  assert (Hmin : (0 <= fmin a b)%Q /\ (fmin a b <= fmax a b)%Q).
  { destruct (fmax_cases a b) as [[H1 E1] | [H1 E1]];
      destruct (fmin_cases a b) as [[H2 E2] | [H2 E2]];
      rewrite E1, E2; split; lra. }
  destruct Hmin as [H0 H1]. split.
  - apply Qle_shift_div_l; [exact E | lra].
  - apply Qle_shift_div_r; [exact E | lra].
Qed.

(** The divisor applied to the foreshortened radius lies in [1, 2.08]. *)
Lemma ellipse_ratio_range (q : Q) :
  (0 <= q)%Q -> (q <= 1)%Q ->
  (1 <= 1 + (1 - fmax (1 # 10) q) * (12 # 10))%Q
  /\ (1 + (1 - fmax (1 # 10) q) * (12 # 10) <= 52 # 25)%Q.
Proof.
  intros H0 H1.
  destruct (fmax_cases (1 # 10) q) as [[H E] | [H E]]; rewrite E; split; lra.
Qed.

Lemma int_scaled_radius (r : Z) :
  0 <= r -> Py.int (inject_Z r * (25 # 52)) = r * 25 / 52.
Proof.
  intro Hr. change (inject_Z r * (25 # 52))%Q with (r * 25 # 52)%Q.
  rewrite int_fraction. apply Z.quot_div_nonneg; lia.
Qed.

(** The foreshortened radius, as an int, for a divisor in [1, 2.08]. *)
Lemma foreshortened_radius (r : Z) (e : Q) :
  0 < r -> (1 <= e)%Q -> (e <= 52 # 25)%Q ->
  Z.max 1 (r * 25 / 52) <= Z.max 1 (Py.int (inject_Z r / e)) <= r.
Proof.
  intros Hr He1 He2.
  assert (HR : (0 < inject_Z r)%Q)
    by (change 0%Q with (inject_Z 0); now rewrite <- Zlt_Qlt).
  assert (Hup : (inject_Z r / e <= inject_Z r)%Q).
  { apply Qle_shift_div_r; [lra |].
    assert (0 <= inject_Z r * (e - 1))%Q by (apply Qmult_le_0_compat; lra). lra. }
  assert (Hlo : (inject_Z r * (25 # 52) <= inject_Z r / e)%Q).
  { apply Qle_shift_div_l; [lra |].
    assert (0 <= inject_Z r * (25 # 52) * ((52 # 25) - e))%Q
      by (apply Qmult_le_0_compat; [apply Qmult_le_0_compat |]; lra).
    lra. }
  apply int_monotone in Hup, Hlo.
  rewrite int_inject_Z in Hup. rewrite int_scaled_radius in Hlo by lia.
  lia.
Qed.

Section GeometryFacts.

Variable sqrt : Q -> Q.

Local Abbreviation calculate_distance' := (calculate_distance sqrt).
Local Abbreviation calculate_ellipse_params' := (calculate_ellipse_params sqrt).

(** Opposite edges of equal length give the circle back. *)
Lemma ellipse_of_equal_edges (c0 c1 c2 c3 : point) (r : Z) :
  0 < r ->
  calculate_distance' (Some c0) (Some c1) = calculate_distance' (Some c3) (Some c2) ->
  calculate_distance' (Some c0) (Some c3) = calculate_distance' (Some c1) (Some c2) ->
  calculate_ellipse_params' (Some [c0; c1; c2; c3]) (Some r)
  = (Some r, Some r, 0%Q).
Proof.
  intros Hr Hh Hv. unfold calculate_ellipse_params.
  destruct (r <=? 0) eqn:E; [apply Z.leb_le in E; lia |].
  cbv zeta. rewrite <- Hh, <- Hv.
  set (t := calculate_distance' (Some c0) (Some c1)).
  set (l := calculate_distance' (Some c0) (Some c3)).
  pose proof (ratio_of_equal_edges t) as Ht.
  pose proof (ratio_of_equal_edges l) as Hl.
  set (h_ratio := if Py.Qlt_bool 0 (fmax t t) then (fmin t t / fmax t t)%Q else 1%Q) in *.
  set (v_ratio := if Py.Qlt_bool 0 (fmax l l) then (fmin l l / fmax l l)%Q else 1%Q) in *.
  assert (Hcmp : Py.Qlt_bool h_ratio v_ratio = false)
    by (apply Qlt_bool_false_iff; lra).
  rewrite Hcmp.
  assert (Hmax : fmax (1 # 10) v_ratio = v_ratio).
  { destruct (fmax_cases (1 # 10) v_ratio) as [[_ E1] | [H1 _]]; [exact E1 | lra]. }
  rewrite Hmax.
  assert (Hb : (inject_Z r / (1 + (1 - v_ratio) * (12 # 10)) == inject_Z r)%Q)
    by (rewrite Hl; field).
  rewrite (int_compat _ _ Hb), int_inject_Z.
  replace (Z.max 1 r) with r by lia. reflexivity.
Qed.

Lemma rect_edges_equal (x y w h : Z) :
  calculate_distance' (Some (x, y)) (Some (x + w, y))
  = calculate_distance' (Some (x, y + h)) (Some (x + w, y + h))
  /\ calculate_distance' (Some (x, y)) (Some (x, y + h))
     = calculate_distance' (Some (x + w, y)) (Some (x + w, y + h)).
Proof.
  unfold calculate_distance. now rewrite !Z.sub_diag.
Qed.

End GeometryFacts.

(** X5: on the corners [get_approximate_corners] makes of any rectangle,
    and more generally on four corners whose opposite edges have equal
    lengths, [calculate_ellipse_params] returns [(radius, radius, 0)] for
    every positive radius and whatever [math.sqrt] computes: the scan path
    of the main loop is always a circle, never a foreshortened ellipse. *)
Theorem X5_ellipse_of_rectangle_is_circle :
  forall (sqrt : Q -> Q) (r : Z),
    0 < r ->
    (forall b : blob,
        calculate_ellipse_params sqrt (get_approximate_corners (Some b)) (Some r)
        = (Some r, Some r, 0%Q))
    /\ (forall c0 c1 c2 c3 : point,
           calculate_distance sqrt (Some c0) (Some c1)
           = calculate_distance sqrt (Some c3) (Some c2) ->
           calculate_distance sqrt (Some c0) (Some c3)
           = calculate_distance sqrt (Some c1) (Some c2) ->
           calculate_ellipse_params sqrt (Some [c0; c1; c2; c3]) (Some r)
           = (Some r, Some r, 0%Q)).
Proof.
  intros sqrt r Hr. split.
  - intro b. unfold get_approximate_corners.
    destruct (rect b) as [[[x y] w] h].
    destruct (rect_edges_equal sqrt x y w h) as [Hh Hv].
    now apply ellipse_of_equal_edges.
  - intros c0 c1 c2 c3 Hh Hv. now apply ellipse_of_equal_edges.
Qed.

Lemma X5_ellipse_of_rectangle_is_circle_witness :
  0 < 23
  /\ calculate_ellipse_params (fun q => (q / 100)%Q)
       (get_approximate_corners (Some (mkBlob (60, 30, 100, 80) 8000 720)))
       (Some 23)
     = (Some 23, Some 23, 0%Q).
Proof.
  assert (H : 0 < 23) by lia.
  split; [exact H |].
  exact (proj1 (X5_ellipse_of_rectangle_is_circle (fun q => (q / 100)%Q) 23 H)
           (mkBlob (60, 30, 100, 80) 8000 720)).
Defined.

Lemma calculate_distance_nonneg (sqrt : Q -> Q) (p1 p2 : option point) :
  (forall q, (0 <= sqrt q)%Q) -> (0 <= calculate_distance sqrt p1 p2)%Q.
Proof.
  intro Hs. unfold calculate_distance.
  destruct p1 as [[x1 y1] |], p2 as [[x2 y2] |]; try lra. apply Hs.
Qed.

(** X6: with a square root that is never negative, for any four corners
    and any positive radius [calculate_ellipse_params] keeps the radius as
    the first semi-axis and returns a second semi-axis between
    [max(1, floor(radius / 2.08))] and the radius, with a rotation of 0 or
    pi/2.  Without four corners, or with a radius that is [None] or not
    positive, it returns [(circle_radius, circle_radius, 0)]. *)
Theorem X6_ellipse_params_bounds :
  forall sqrt : Q -> Q,
    (forall q, (0 <= sqrt q)%Q) ->
    (forall (c0 c1 c2 c3 : point) (r : Z),
        0 < r ->
        exists (b : Z) (rotation : Q),
          calculate_ellipse_params sqrt (Some [c0; c1; c2; c3]) (Some r)
          = (Some r, Some b, rotation)
          /\ Z.max 1 (r * 25 / 52) <= b <= r
          /\ (rotation = 0%Q \/ rotation = (Py.pi / 2)%Q))
    /\ (forall corners : option (list point),
           calculate_ellipse_params sqrt corners None = (None, None, 0%Q))
    /\ (forall (corners : option (list point)) (r : Z),
           r <= 0 ->
           calculate_ellipse_params sqrt corners (Some r) = (Some r, Some r, 0%Q))
    /\ (forall (corners : list point) (radius : option Z),
           List.length corners <> 4%nat ->
           calculate_ellipse_params sqrt (Some corners) radius
           = (radius, radius, 0%Q))
    /\ (forall radius : option Z,
           calculate_ellipse_params sqrt None radius = (radius, radius, 0%Q)).
Proof.
  intros sqrt Hs. split; [| split; [| split; [| split]]].
  - intros c0 c1 c2 c3 r Hr. unfold calculate_ellipse_params.
    destruct (r <=? 0) eqn:E; [apply Z.leb_le in E; lia |].
    cbv zeta.
    set (top := calculate_distance sqrt (Some c0) (Some c1)).
    set (bottom := calculate_distance sqrt (Some c3) (Some c2)).
    set (left := calculate_distance sqrt (Some c0) (Some c3)).
    set (right := calculate_distance sqrt (Some c1) (Some c2)).
    destruct (ratio_range top bottom
                (calculate_distance_nonneg sqrt _ _ Hs)
                (calculate_distance_nonneg sqrt _ _ Hs)) as [Hh0 Hh1].
    destruct (ratio_range left right
                (calculate_distance_nonneg sqrt _ _ Hs)
                (calculate_distance_nonneg sqrt _ _ Hs)) as [Hv0 Hv1].
    set (h_ratio := if Py.Qlt_bool 0 (fmax top bottom)
                    then (fmin top bottom / fmax top bottom)%Q else 1%Q) in *.
    set (v_ratio := if Py.Qlt_bool 0 (fmax left right)
                    then (fmin left right / fmax left right)%Q else 1%Q) in *.
    destruct (ellipse_ratio_range h_ratio Hh0 Hh1) as [He1 He2].
    destruct (ellipse_ratio_range v_ratio Hv0 Hv1) as [Hf1 Hf2].
    destruct (Py.Qlt_bool h_ratio v_ratio);
      rewrite int_inject_Z; replace (Z.max 1 r) with r by lia;
      do 2 eexists; (split; [reflexivity |]);
      (split; [now apply foreshortened_radius | auto]).
  - intros [[| c0 [| c1 [| c2 [| c3 [| c4 rest]]]]] |]; reflexivity.
  - intros [[| c0 [| c1 [| c2 [| c3 [| c4 rest]]]]] |] r Hr; try reflexivity.
    unfold calculate_ellipse_params.
    apply Z.leb_le in Hr. now rewrite Hr.
  - intros corners radius Hlen.
    destruct corners as [| c0 [| c1 [| c2 [| c3 [| c4 rest]]]]];
      destruct radius; try reflexivity.
    exfalso. apply Hlen. reflexivity.
  - intros [r |]; reflexivity.
Qed.

Lemma X6_ellipse_params_bounds_witness :
  (forall q : Q, (0 <= Qabs q)%Q)
  /\ 0 < 30
  /\ exists (b : Z) (rotation : Q),
       calculate_ellipse_params Qabs
         (Some [(0, 0); (10, 0); (8, 6); (2, 6)]) (Some 30)
       = (Some 30, Some b, rotation)
       /\ Z.max 1 (30 * 25 / 52) <= b <= 30
       /\ (rotation = 0%Q \/ rotation = (Py.pi / 2)%Q).
Proof.
  assert (Hs : forall q : Q, (0 <= Qabs q)%Q) by (intro q; apply Qabs_nonneg).
  assert (Hr : 0 < 30) by lia.
  split; [exact Hs |]. split; [exact Hr |].
  exact (proj1 (X6_ellipse_params_bounds Qabs Hs) (0, 0) (10, 0) (8, 6) (2, 6) 30 Hr).
Defined.

(** X7: [calculate_distance] is symmetric in its two points and unchanged
    when both are moved by the same offset, for any [math.sqrt]; with a
    point missing it is 0. *)
Theorem X7_distance_symmetric :
  forall sqrt : Q -> Q,
    (forall p1 p2 : option point,
        calculate_distance sqrt p1 p2 = calculate_distance sqrt p2 p1)
    /\ (forall x1 y1 x2 y2 dx dy : Z,
           calculate_distance sqrt (Some (x1 + dx, y1 + dy)) (Some (x2 + dx, y2 + dy))
           = calculate_distance sqrt (Some (x1, y1)) (Some (x2, y2)))
    /\ (forall p : option point,
           calculate_distance sqrt None p = 0%Q
           /\ calculate_distance sqrt p None = 0%Q).
Proof.
  intro sqrt. split; [| split].
  - intros [[x1 y1] |] [[x2 y2] |]; try reflexivity.
    unfold calculate_distance. do 2 f_equal. ring.
  - intros x1 y1 x2 y2 dx dy. unfold calculate_distance. do 2 f_equal. ring.
  - intros [[x y] |]; split; reflexivity.
Qed.

(** ** Points on the ellipse *)


(** [int(c + d)] for an int [c] and an offset [d] between two ints. *)
Lemma int_offset_range (c lo hi : Z) (d : Q) :
  (inject_Z lo <= d)%Q -> (d <= inject_Z hi)%Q ->
  c + lo <= Py.int (inject_Z c + d) <= c + hi.
Proof.
  intros Hlo Hhi.
  assert (H1 : (inject_Z (c + lo) <= inject_Z c + d)%Q)
    by (rewrite inject_Z_plus; lra).
  assert (H2 : (inject_Z c + d <= inject_Z (c + hi))%Q)
    by (rewrite inject_Z_plus; lra).
  apply int_monotone in H1, H2. rewrite int_inject_Z in H1, H2. lia.
Qed.

Lemma scaled_range (n : Z) (u : Q) :
  0 <= n -> (-1 <= u)%Q -> (u <= 1)%Q ->
  (- inject_Z n <= inject_Z n * u)%Q /\ (inject_Z n * u <= inject_Z n)%Q.
Proof.
  intros Hn Hu0 Hu1.
  assert (HN : (0 <= inject_Z n)%Q)
    by (change 0%Q with (inject_Z 0); now rewrite <- Zle_Qle).
  assert (0 <= inject_Z n * (1 - u))%Q by (apply Qmult_le_0_compat; lra).
  assert (0 <= inject_Z n * (1 + u))%Q by (apply Qmult_le_0_compat; lra).
  split; lra.
Qed.

(** The point on an ellipse that is not rotated. *)
Lemma ellipse_point_axis_range (cos sin : Q -> Q)
      (center_x center_y : Z) (a b angle rotation : Q) :
  (-1 <= cos angle)%Q /\ (cos angle <= 1)%Q ->
  (-1 <= sin angle)%Q /\ (sin angle <= 1)%Q ->
  (cos rotation == 1)%Q -> (sin rotation == 0)%Q ->
  let a' := Z.max 1 (Py.int a) in
  let b' := Z.max 1 (Py.int b) in
  let p := get_ellipse_point cos sin (Some center_x) (Some center_y)
             (Some a) (Some b) angle rotation in
  center_x - a' <= fst p <= center_x + a'
  /\ center_y - b' <= snd p <= center_y + b'.
Proof.
  intros [C0 C1] [S0 S1] Hrc Hrs. cbv zeta.
  unfold get_ellipse_point. cbn [fst snd].
  set (a' := Z.max 1 (Py.int a)). set (b' := Z.max 1 (Py.int b)).
  assert (Ha : 0 <= a') by (subst a'; lia).
  assert (Hb : 0 <= b') by (subst b'; lia).
  destruct (scaled_range a' _ Ha C0 C1) as [Ac0 Ac1].
  destruct (scaled_range b' _ Hb S0 S1) as [Bs0 Bs1].
  split.
  - replace (center_x - a') with (center_x + - a') by ring.
    apply int_offset_range; rewrite ?inject_Z_opp, Hrc, Hrs; lra.
  - replace (center_y - b') with (center_y + - b') by ring.
    apply int_offset_range; rewrite ?inject_Z_opp, Hrc, Hrs; lra.
Qed.



(** X9: where the angle has cosine 1 and sine 0 and so has the rotation
    (angle 0, rotation 0), [get_ellipse_point] returns
    [(center_x + a, center_y)]; where the angle has cosine 0 and sine 1
    (a quarter turn), it returns [(center_x, center_y + b)]; [a] and [b]
    are the semi-axes after [max(1, int(.))]. *)
Theorem X9_ellipse_axis_points :
  forall (cos sin : Q -> Q) (center_x center_y : Z) (a b angle rotation : Q),
    (cos rotation == 1)%Q -> (sin rotation == 0)%Q ->
    ((cos angle == 1)%Q -> (sin angle == 0)%Q ->
     get_ellipse_point cos sin (Some center_x) (Some center_y)
       (Some a) (Some b) angle rotation
     = (center_x + Z.max 1 (Py.int a), center_y))
    /\ ((cos angle == 0)%Q -> (sin angle == 1)%Q ->
        get_ellipse_point cos sin (Some center_x) (Some center_y)
          (Some a) (Some b) angle rotation
        = (center_x, center_y + Z.max 1 (Py.int b))).
Proof.
  intros cos sin cx cy a b angle rotation Hrc Hrs.
  unfold get_ellipse_point.
  set (a' := Z.max 1 (Py.int a)). set (b' := Z.max 1 (Py.int b)).
  split; intros Hc Hs; f_equal.
  - rewrite <- (int_inject_Z (cx + a')). apply int_compat.
    rewrite Hrc, Hrs, Hc, Hs, inject_Z_plus. ring.
  - rewrite <- (int_inject_Z cy) at 2. apply int_compat.
    rewrite Hrc, Hrs, Hc, Hs. ring.
  - rewrite <- (int_inject_Z cx) at 2. apply int_compat.
    rewrite Hrc, Hrs, Hc, Hs. ring.
  - rewrite <- (int_inject_Z (cy + b')). apply int_compat.
    rewrite Hrc, Hrs, Hc, Hs, inject_Z_plus. ring.
Qed.

Lemma X9_ellipse_axis_points_witness :
  let cos := fun t : Q => if Qle_bool t 1 then 1%Q else 0%Q in
  let sin := fun t : Q => if Qle_bool t 1 then 0%Q else 1%Q in
  ((cos 0 == 1)%Q /\ (sin 0 == 0)%Q
   /\ get_ellipse_point cos sin (Some 120) (Some 80)
        (Some (inject_Z 23)) (Some (inject_Z 17)) 0%Q 0%Q = (143, 80))
  /\ ((cos 2 == 0)%Q /\ (sin 2 == 1)%Q
      /\ get_ellipse_point cos sin (Some 120) (Some 80)
           (Some (inject_Z 23)) (Some (inject_Z 17)) 2%Q 0%Q = (120, 97)).
Proof.
  cbv zeta.
  assert (Hc0 : ((if Qle_bool 0 1 then 1 else 0) == 1)%Q) by reflexivity.
  assert (Hs0 : ((if Qle_bool 0 1 then 0 else 1) == 0)%Q) by reflexivity.
  assert (Hc2 : ((if Qle_bool 2 1 then 1 else 0) == 0)%Q) by reflexivity.
  assert (Hs2 : ((if Qle_bool 2 1 then 0 else 1) == 1)%Q) by reflexivity.
  split.
  - split; [exact Hc0 |]. split; [exact Hs0 |].
    exact (proj1 (X9_ellipse_axis_points _ _ 120 80 (inject_Z 23) (inject_Z 17) 0%Q 0%Q
                    Hc0 Hs0) Hc0 Hs0).
  - split; [exact Hc2 |]. split; [exact Hs2 |].
    exact (proj2 (X9_ellipse_axis_points _ _ 120 80 (inject_Z 23) (inject_Z 17) 2%Q 0%Q
                    Hc0 Hs0) Hc2 Hs2).
Defined.

(** ** Smoothing of the scan point *)

(** A float operation whose exact result has magnitude at most 8192
    returns a double within [2 ** -39] of it. *)
Lemma round_near (x : Q) :
  (- (8192) <= x)%Q -> (x <= 8192)%Q ->
  (x - (1 # 549755813888) <= Binary64.round x)%Q
  /\ (Binary64.round x <= x + (1 # 549755813888))%Q.
Proof.
  intros Hlo Hhi.
  pose proof (Qfloor_le (x * 549755813888)) as Hk0.
  pose proof (Qlt_floor (x * 549755813888)) as Hk1.
  rewrite inject_Z_plus in Hk1. change (inject_Z 1) with 1%Q in Hk1.
  set (k := Qfloor (x * 549755813888)) in *.
  assert (Hkb : - 2 ^ 52 <= k <= 2 ^ 52).
  { split.
    - assert (H : (inject_Z (- 2 ^ 52) <= x * 549755813888)%Q)
        by (change (inject_Z (- 2 ^ 52)) with (- (4503599627370496))%Q; lra).
      apply Qfloor_resp_le in H. rewrite Qfloor_Z in H. exact H.
    - assert (H : (inject_Z k <= inject_Z (2 ^ 52))%Q)
        by (change (inject_Z (2 ^ 52)) with 4503599627370496%Q; lra).
      rewrite <- Zle_Qle in H. exact H. }
  assert (Hp : (Binary64.pow2 (-39) == 1 # 549755813888)%Q) by reflexivity.
  assert (R1 : Binary64.representable (inject_Z k * (1 # 549755813888))).
  { exists k, (-39). split; [lia |]. split; [lia |]. now rewrite Hp. }
  assert (R2 : Binary64.representable (inject_Z (k + 1) * (1 # 549755813888))).
  { exists (k + 1), (-39). split; [lia |]. split; [lia |]. now rewrite Hp. }
  assert (H1 : (inject_Z k * (1 # 549755813888) <= x)%Q) by lra.
  assert (H2 : (x <= inject_Z (k + 1) * (1 # 549755813888))%Q).
  { rewrite inject_Z_plus. change (inject_Z 1) with 1%Q. lra. }
  pose proof (round_ge _ _ R1 H1) as G1.
  pose proof (round_le _ _ R2 H2) as G2.
  rewrite inject_Z_plus in G2. change (inject_Z 1) with 1%Q in G2.
  split; lra.
Qed.

Lemma int_between (lo hi : Z) (v : Q) :
  (inject_Z lo <= v)%Q -> (v <= inject_Z hi)%Q -> lo <= Py.int v <= hi.
Proof.
  intros H1 H2. apply int_monotone in H1, H2.
  rewrite int_inject_Z in H1, H2. lia.
Qed.

Lemma int_succ_le (w : Q) : Py.int (w + 1) <= Py.int w + 1.
Proof.
  unfold Py.int.
  pose proof (Qfloor_le (w + 1)) as F1. pose proof (Qlt_floor w) as F0.
  pose proof (Qceiling_lt (w + 1)) as C1. pose proof (Qle_ceiling w) as C0.
  assert (Hz : forall a b : Z, (inject_Z a < inject_Z b + 2)%Q -> a <= b + 1).
  { intros a b H.
    assert (H' : (inject_Z a < inject_Z (b + 2))%Q)
      by (rewrite inject_Z_plus; exact H).
    rewrite <- Zlt_Qlt in H'. lia. }
  rewrite inject_Z_plus in F0. change (inject_Z 1) with 1%Q in F0.
  unfold Z.sub in C1. rewrite inject_Z_plus, inject_Z_opp in C1.
  change (inject_Z 1) with 1%Q in C1.
  destruct (Qle_bool 0 (w + 1)) eqn:E1; destruct (Qle_bool 0 w) eqn:E0.
  - apply Hz. lra.
  - apply Hz. lra.
  - apply Qle_bool_iff in E0.
    assert (E1' : ~ (0 <= w + 1)%Q)
      by (intro H; apply Qle_bool_iff in H; congruence).
    exfalso. apply E1'. lra.
  - apply Hz. lra.
Qed.

Lemma int_near (v w : Q) :
  (w - 1 <= v)%Q -> (v <= w + 1)%Q ->
  Py.int w - 1 <= Py.int v <= Py.int w + 1.
Proof.
  intros H1 H2. split.
  - pose proof (int_succ_le v) as Hs.
    assert (Hm : (w <= v + 1)%Q) by lra.
    apply int_monotone in Hm. lia.
  - apply int_monotone in H2. pose proof (int_succ_le w). lia.
Qed.

(** The weights of lines 270-271 as doubles: [1 - smooth_factor] is
    0.30000000000000004 and [smooth_factor] is 0.7 rounded down; they add
    up to 1. *)
Lemma smooth_weights :
  Binary64.sub 1 smooth_factor = (5404319552844596 # 18014398509481984)%Q
  /\ smooth_factor = (6305039478318694 # 9007199254740992)%Q.
Proof. split; vm_compute; reflexivity. Qed.

(** What [int] is applied to on line 270, against the blend with the
    weights as doubles and exact products and sum. *)
Lemma smooth_axis_value (target last : Z) :
  -4096 <= target <= 4096 -> -4096 <= last <= 4096 ->
  let blend :=
    (inject_Z target * (5404319552844596 # 18014398509481984)
     + inject_Z last * (6305039478318694 # 9007199254740992))%Q in
  exists partial : Q,
    smooth_axis target last = Py.int (Binary64.round partial)
    /\ (blend - (2 # 549755813888) <= partial)%Q
    /\ (partial <= blend + (2 # 549755813888))%Q.
Proof.
  intros Ht Hl blend. unfold smooth_axis.
  destruct smooth_weights as [Ea Eb]. rewrite Ea, Eb.
  unfold Binary64.add, Binary64.mul.
  assert (HT : (- (4096) <= inject_Z target)%Q /\ (inject_Z target <= 4096)%Q).
  { change (- (4096))%Q with (inject_Z (-4096)).
    change 4096%Q with (inject_Z 4096). rewrite <- !Zle_Qle. lia. }
  assert (HL : (- (4096) <= inject_Z last)%Q /\ (inject_Z last <= 4096)%Q).
  { change (- (4096))%Q with (inject_Z (-4096)).
    change 4096%Q with (inject_Z 4096). rewrite <- !Zle_Qle. lia. }
  unfold blend. clear blend.
  set (T := inject_Z target) in *. set (L := inject_Z last) in *.
  destruct (round_near (T * (5404319552844596 # 18014398509481984)))
    as [A0 A1]; [lra | lra |].
  destruct (round_near (L * (6305039478318694 # 9007199254740992)))
    as [B0 B1]; [lra | lra |].
  eexists. split; [reflexivity |]. split; lra.
Qed.

(** With two different coordinates of magnitude at most 4096 the smoothed
    one lies between them. *)
Lemma smooth_axis_between (target last : Z) :
  -4096 <= target <= 4096 -> -4096 <= last <= 4096 -> target <> last ->
  Z.min target last <= smooth_axis target last <= Z.max target last.
Proof.
  intros Ht Hl Hne.
  destruct (smooth_axis_value target last Ht Hl) as (partial & E & P0 & P1).
  rewrite E. clear E.
  assert (Hord : (target + 1 <= last /\ Z.min target last = target
                  /\ Z.max target last = last)
                 \/ (last + 1 <= target /\ Z.min target last = last
                     /\ Z.max target last = target)) by lia.
  destruct Hord as [(Hlt & Emin & Emax) | (Hlt & Emin & Emax)];
    rewrite Emin, Emax;
    rewrite Zle_Qle, inject_Z_plus in Hlt; change (inject_Z 1) with 1%Q in Hlt;
    (apply int_between;
     [apply round_ge; [apply representable_Z; lia | lra]
     | apply round_le; [apply representable_Z; lia | lra]]).
Qed.

(** With coordinates of magnitude at most 4096 the smoothed one is within
    one of the blend [trunc((3 * target + 7 * last) / 10)] of exact
    arithmetic. *)
Lemma smooth_axis_near_quot (target last : Z) :
  -4096 <= target <= 4096 -> -4096 <= last <= 4096 ->
  Z.quot (3 * target + 7 * last) 10 - 1
  <= smooth_axis target last
  <= Z.quot (3 * target + 7 * last) 10 + 1.
Proof.
  intros Ht Hl.
  destruct (smooth_axis_value target last Ht Hl) as (partial & E & P0 & P1).
  rewrite E. clear E.
  rewrite <- (int_fraction (3 * target + 7 * last) 10).
  assert (Hw : ((3 * target + 7 * last # 10)
                == inject_Z target * (3 # 10) + inject_Z last * (7 # 10))%Q).
  { rewrite (Qmake_Qdiv (3 * target + 7 * last) 10).
    rewrite inject_Z_plus, !inject_Z_mult.
    change (inject_Z 3) with 3%Q. change (inject_Z 7) with 7%Q.
    change (inject_Z (Z.pos 10)) with 10%Q. field. }
  assert (HT : (- (4096) <= inject_Z target)%Q /\ (inject_Z target <= 4096)%Q).
  { change (- (4096))%Q with (inject_Z (-4096)).
    change 4096%Q with (inject_Z 4096). rewrite <- !Zle_Qle. lia. }
  assert (HL : (- (4096) <= inject_Z last)%Q /\ (inject_Z last <= 4096)%Q).
  { change (- (4096))%Q with (inject_Z (-4096)).
    change 4096%Q with (inject_Z 4096). rewrite <- !Zle_Qle. lia. }
  set (w := (3 * target + 7 * last # 10)%Q) in *.
  set (T := inject_Z target) in *. set (L := inject_Z last) in *.
  destruct (round_near partial) as [R0 R1]; [lra | lra |].
  apply int_near; lra.
Qed.

(** A scan point that stands still is kept, checked for every coordinate a
    packet can carry. *)
Lemma smooth_axis_fixed (target : Z) :
  0 <= target <= 255 -> smooth_axis target target = target.
Proof.
  intros H.
  assert (Hall : forallb (fun n => smooth_axis n n =? n)
                         (map Z.of_nat (seq 0 256)) = true)
    by (vm_compute; reflexivity).
  rewrite forallb_forall in Hall.
  apply Z.eqb_eq. apply Hall.
  apply in_map_iff. exists (Z.to_nat target).
  split; [lia |]. apply in_seq. lia.
Qed.

(** The point the circle branch stores and the one it returns. *)
Lemma circle_branch_point (cos sin : Q -> Q) (ticks_half : Z)
      clk (center_x center_y radius : Z) ellipse_params g :
  let g' := fst (circle_branch cos sin ticks_half clk (center_x, center_y)
                   radius ellipse_params g) in
  let '(a, b, rotation) := effective_ellipse radius ellipse_params in
  let raw := get_ellipse_point cos sin (Some center_x) (Some center_y)
               (Some a) (Some b) (current_angle g') rotation in
  let stored :=
    match last_target_point g with
    | Some (last_x, last_y) =>
        (smooth_axis (fst raw) last_x, smooth_axis (snd raw) last_y)
    | None => raw
    end in
  last_target_point g' = Some stored
  /\ snd (circle_branch cos sin ticks_half clk (center_x, center_y)
            radius ellipse_params g)
     = (clamp255 (fst stored), clamp255 (snd stored)).
Proof.
  cbv zeta. unfold circle_branch, effective_ellipse, smooth_axis.
  destruct (circle_start_time g) as [t |];
    (destruct ellipse_params as [[[[a |] [b |]] [r |]] |];
     cbn [last_target_point set_last_target_point set_current_angle
          set_circle_start_time current_angle];
     match goal with
     | |- context [get_ellipse_point ?c ?s ?cx ?cy ?a ?b ?an ?ro] =>
         destruct (get_ellipse_point c s cx cy a b an ro) as [tx ty] eqn:E
     end;
     destruct (last_target_point g) as [[lx ly] |];
     cbn [last_target_point set_last_target_point set_current_angle
          set_circle_start_time current_angle fst snd];
     rewrite ?E; cbn [fst snd];
     split; reflexivity).
Qed.

(** X10: the smoothing of lines 270-271 works on doubles, with the
    weights 0.30000000000000004 and 0.7: from 82 toward the previous 192 it
    gives 158, where the exact blend [trunc((3 * 82 + 7 * 192) / 10)] is
    159.  For coordinates of magnitude at most 4096 the smoothed coordinate
    is within one of that exact blend, and lies between the new and the
    previous coordinate when they differ; a coordinate in [0, 255] that
    did not move is kept.  The circle branch stores, and returns clamped,
    the raw ellipse point when there is no previous point and the smoothed
    one otherwise. *)
Theorem X10_smoothing :
  (smooth_axis 82 192 = 158 /\ Z.quot (3 * 82 + 7 * 192) 10 = 159)
  /\ (forall target last : Z,
         -4096 <= target <= 4096 -> -4096 <= last <= 4096 ->
         Z.quot (3 * target + 7 * last) 10 - 1
         <= smooth_axis target last
         <= Z.quot (3 * target + 7 * last) 10 + 1)
  /\ (forall target last : Z,
         -4096 <= target <= 4096 -> -4096 <= last <= 4096 ->
         target <> last ->
         Z.min target last <= smooth_axis target last <= Z.max target last)
  /\ (forall target : Z,
         0 <= target <= 255 -> smooth_axis target target = target)
  /\ (forall (cos sin : Q -> Q) (ticks_half : Z)
             clk (center_x center_y radius : Z) ellipse_params g,
         let g' := fst (circle_branch cos sin ticks_half clk (center_x, center_y)
                          radius ellipse_params g) in
         let '(a, b, rotation) := effective_ellipse radius ellipse_params in
         let raw := get_ellipse_point cos sin (Some center_x) (Some center_y)
                      (Some a) (Some b) (current_angle g') rotation in
         let stored :=
           match last_target_point g with
           | Some (last_x, last_y) =>
               (smooth_axis (fst raw) last_x, smooth_axis (snd raw) last_y)
           | None => raw
           end in
         last_target_point g' = Some stored
         /\ snd (circle_branch cos sin ticks_half clk (center_x, center_y)
                   radius ellipse_params g)
            = (clamp255 (fst stored), clamp255 (snd stored))).
Proof.
  split; [split; vm_compute; reflexivity |].
  split; [exact smooth_axis_near_quot |].
  split; [exact smooth_axis_between |].
  split; [exact smooth_axis_fixed |].
  intros. apply circle_branch_point.
Qed.

Lemma X10_smoothing_witness :
  (Z.quot (3 * 100 + 7 * 121) 10 - 1 <= smooth_axis 100 121
   <= Z.quot (3 * 100 + 7 * 121) 10 + 1)
  /\ Z.min 100 121 <= smooth_axis 100 121 <= Z.max 100 121
  /\ smooth_axis 121 121 = 121.
Proof.
  destruct X10_smoothing as (_ & Hnear & Hbetween & Hfixed & _).
  split; [apply Hnear; lia |].
  split; [apply Hbetween; lia |].
  apply Hfixed; lia.
Defined.

(** ** Invariants of a run *)

Section RunInvariants.

Variables cos sin sqrt : Q -> Q.
Variable ticks_half : Z.

Local Abbreviation send_target_coords' := (send_target_coords cos sin ticks_half).
Local Abbreviation main_iteration' := (main_iteration cos sin sqrt ticks_half).

(** A pass of the main loop does nothing, handles one command, or is one
    call of [send_target_coords]. *)
Lemma main_iteration_cases rx clk blobs g :
  main_iteration' rx clk blobs g = (g, None)
  \/ (exists command,
         rx = Some command /\ is_command command = true
         /\ main_iteration' rx clk blobs g = (handle_command command g, None))
  \/ (exists cx cy mode center radius ellipse_params,
         main_iteration' rx clk blobs g
         = send_target_coords' clk cx cy mode center radius ellipse_params g).
Proof.
  assert (Hbody :
    (if current_state g =? STATE_IDLE then (g, None)
     else process_frame cos sin sqrt ticks_half clk blobs g) = (g, None)
    \/ exists cx cy mode center radius ellipse_params,
        (if current_state g =? STATE_IDLE then (g, None)
         else process_frame cos sin sqrt ticks_half clk blobs g)
        = send_target_coords' clk cx cy mode center radius ellipse_params g).
  { destruct (current_state g =? STATE_IDLE); [now left |].
    unfold process_frame.
    destruct (find_target_boundary_rect blobs) as [b |]; [| now left].
    unfold get_approximate_corners. destruct (rect b) as [[[x y] w] h].
    destruct (calculate_perspective_correction _) as [ccx ccy].
    destruct (current_state g =? STATE_AIM_BULLSEYE).
    - right. now do 6 eexists.
    - destruct (current_state g =? STATE_CIRCLE_TRACKING); [| now left].
      destruct (calculate_circle_params (Some w) (Some h)) as [r10 r6].
      right. now do 6 eexists. }
  unfold main_iteration. destruct rx as [command |].
  - destruct (is_command command) eqn:E.
    + right. left. exists command. auto.
    + destruct Hbody as [H | H]; [now left | right; now right].
  - destruct Hbody as [H | H]; [now left | right; now right].
Qed.

Lemma handle_command_phase command g :
  phase_in_range g -> phase_in_range (handle_command command g).
Proof.
  unfold phase_in_range, handle_command, set_send_interval_for_mode.
  pose proof pi_pos as Hpi.
  destruct (command =? CMD_AIM_BULLSEYE), (command =? CMD_CIRCLE_TRACKING),
    (command =? CMD_IDLE); cbn; intros [H0 H1]; split; lra.
Qed.

Lemma send_phase clk cx cy mode center radius ellipse_params g :
  phase_in_range g ->
  phase_in_range (fst (send_target_coords' clk cx cy mode center radius
                         ellipse_params g)).
Proof.
  intro Hg.
  destruct (send_cases cos sin ticks_half clk cx cy mode center radius
              ellipse_params g)
    as [[_ Hs] | [_ (g1 & x & y & Hb & Hs)]]; rewrite Hs; cbn [fst];
    [exact Hg |].
  unfold phase_in_range. cbn [current_angle set_last_uart_send_time uart_write].
  destruct (is_circle_call mode center radius) eqn:E.
  - destruct (build_point_circle cos sin ticks_half clk cx cy mode center radius
                ellipse_params g E) as (c & r & _ & _ & Hc).
    rewrite Hc in Hb.
    assert (Hg1 : g1 = fst (circle_branch cos sin ticks_half clk c r ellipse_params g))
      by now rewrite Hb.
    rewrite Hg1, circle_branch_angle.
    destruct (circle_start_time g); apply advance_angle_range.
  - destruct (build_point_spec cos sin ticks_half clk cx cy mode center radius
                ellipse_params g)
      as (g1' & x' & y' & Hb' & _ & _ & _ & _ & _ & Haim).
    rewrite Hb in Hb'. injection Hb' as Hg1 _ _. subst g1'.
    destruct (Haim E) as (_ & _ & Hangle & _). rewrite Hangle. exact Hg.
Qed.

Lemma exec_phase events :
  forall g, phase_in_range g -> phase_in_range (exec cos sin ticks_half events g).
Proof.
  unfold exec.
  induction events as [| [command | c] rest IH]; intros g Hg; cbn [fold_left].
  - exact Hg.
  - apply IH. now apply handle_command_phase.
  - apply IH. cbn [step]. unfold do_send. now apply send_phase.
Qed.

Lemma main_loop_phase passes :
  forall g, phase_in_range g ->
            phase_in_range (main_loop cos sin sqrt ticks_half passes g).
Proof.
  induction passes as [| [[rx clk] blobs] rest IH]; intros g Hg; cbn [main_loop].
  - exact Hg.
  - apply IH.
    destruct (main_iteration_cases rx clk blobs g)
      as [H | [(command & _ & _ & H) | (cx & cy & mode & center & radius & ep & H)]];
      rewrite H; cbn [fst].
    + exact Hg.
    + now apply handle_command_phase.
    + now apply send_phase.
Qed.

End RunInvariants.

(** X11: the scan phase [current_angle] stays in the closed interval
    [0, 2 pi]: it is there at boot, and every command, every call of
    [send_target_coords] and every pass of the main loop keeps it there, so
    it is there after any run.  The upper end is included because the float
    remainder of line 264 can return 2 pi itself. *)
Theorem X11_phase_stays_in_range :
  forall (cos sin sqrt : Q -> Q) (ticks_half : Z),
    phase_in_range boot
    /\ (forall events g,
           phase_in_range g ->
           phase_in_range (exec cos sin ticks_half events g))
    /\ (forall passes g,
           phase_in_range g ->
           phase_in_range (main_loop cos sin sqrt ticks_half passes g)).
Proof.
  intros cos sin sqrt ticks_half. split; [| split].
  - unfold phase_in_range. cbn. pose proof pi_pos. split; lra.
  - intros events g. apply exec_phase.
  - intros passes g. apply main_loop_phase.
Qed.

Lemma X11_phase_stays_in_range_witness :
  let events :=
    [Command CMD_CIRCLE_TRACKING;
     Send (mkSendCall 100 100 4000 (Some 0) (Some 0) (Some "circle"%string)
             (Some (120, 80)) (Some 23) None);
     Send (mkSendCall 9000 9000 9000 (Some 0) (Some 0) (Some "circle"%string)
             (Some (120, 80)) (Some 23) None)] in
  phase_in_range boot
  /\ phase_in_range (exec (fun _ => 0%Q) (fun _ => 0%Q) (2 ^ 29) events boot).
Proof.
  cbv zeta.
  destruct (X11_phase_stays_in_range (fun _ => 0%Q) (fun _ => 0%Q) (fun _ => 0%Q) (2 ^ 29))
    as (Hboot & Hexec & _).
  split; [exact Hboot |]. apply Hexec. exact Hboot.
Defined.

(** ** The gate against the wall clock *)

Lemma ticks_diff_exact (ticks_half t L : Z) :
  0 < ticks_half ->
  - ticks_half <= t - L < ticks_half ->
  ticks_diff ticks_half (ticks_ms ticks_half t) (ticks_ms ticks_half L) = t - L.
Proof.
  intros Hh Hr. unfold ticks_diff, ticks_ms, TICKS_PERIOD.
  set (P := 2 * ticks_half).
  assert (HP : 0 < P) by (subst P; lia).
  assert (E : (t mod P - L mod P + ticks_half) mod P = (t - L + ticks_half) mod P).
  { rewrite (Z.mod_eq t P), (Z.mod_eq L P) by lia.
    replace (t - P * (t / P) - (L - P * (L / P)) + ticks_half)
      with (t - L + ticks_half + (L / P - t / P) * P) by ring.
    apply Z.mod_add. lia. }
  rewrite E. rewrite Z.mod_small by (subst P; lia). ring.
Qed.

(** X12: when the last packet went out at wall-clock time [L] and a call is
    made at [t], less than half a tick period before or after, the gate
    decides on the true elapsed time: the call sends, and records [t] as the
    new send time, exactly when [t - L] is at least the configured
    interval; otherwise it returns [(None, None)] and changes nothing. *)
Theorem X12_gate_follows_wall_clock :
  forall (cos sin : Q -> Q) (ticks_half : Z) (c : send_call) (g : globals) (L : Z),
    0 < ticks_half ->
    last_uart_send_time g = ticks_ms ticks_half L ->
    - ticks_half <= send_now c - L < ticks_half ->
    (current_send_interval_ms g <= send_now c - L ->
     exists g' p data,
       do_send cos sin ticks_half c g = (g', Some p)
       /\ last_uart_send_time g' = ticks_ms ticks_half (send_now c)
       /\ uart_tx g' = uart_tx g ++ [data])
    /\ (send_now c - L < current_send_interval_ms g ->
        do_send cos sin ticks_half c g = (g, None)).
Proof.
  intros cos sin ticks_half c g L Hh Hlast Hr.
  pose proof (ticks_diff_exact ticks_half (send_now c) L Hh Hr) as Hd.
  rewrite <- Hlast in Hd.
  split; intro Hcmp.
  - destruct (do_send_cases cos sin ticks_half c g)
      as [Hs | (g' & p & Hs & _ & Hl & _ & _ & data & Htx)].
    + exfalso. unfold do_send in Hs.
      match type of Hs with
      | send_target_coords _ _ _ ?k ?x ?y ?m ?ce ?r ?e g = _ =>
          destruct (send_emits cos sin ticks_half k x y m ce r e g)
            as (g1 & x' & y' & _ & Hs');
          [cbn [ticks_gate]; rewrite Hd; exact Hcmp |];
          rewrite Hs' in Hs; discriminate
      end.
    + exists g', p, data. auto.
  - unfold do_send. apply send_suppressed. cbn [ticks_gate]. rewrite Hd. exact Hcmp.
Qed.

Lemma X12_gate_follows_wall_clock_witness :
  let g := set_last_uart_send_time 100 (handle_command CMD_AIM_BULLSEYE boot) in
  let call t := mkSendCall t t t (Some 120) (Some 80) None None None None in
  0 < 2 ^ 29
  /\ last_uart_send_time g = ticks_ms (2 ^ 29) 100
  /\ (- 2 ^ 29 <= 130 - 100 < 2 ^ 29
      /\ current_send_interval_ms g <= 130 - 100
      /\ exists g' p data,
           do_send (fun _ => 0%Q) (fun _ => 0%Q) (2 ^ 29) (call 130) g = (g', Some p)
           /\ last_uart_send_time g' = ticks_ms (2 ^ 29) 130
           /\ uart_tx g' = uart_tx g ++ [data])
  /\ (- 2 ^ 29 <= 129 - 100 < 2 ^ 29
      /\ 129 - 100 < current_send_interval_ms g
      /\ do_send (fun _ => 0%Q) (fun _ => 0%Q) (2 ^ 29) (call 129) g = (g, None)).
Proof.
  cbv zeta.
  assert (Hh : 0 < 2 ^ 29) by reflexivity.
  assert (Hl : last_uart_send_time
                 (set_last_uart_send_time 100 (handle_command CMD_AIM_BULLSEYE boot))
               = ticks_ms (2 ^ 29) 100) by reflexivity.
  assert (Hr1 : - 2 ^ 29 <= 130 - 100 < 2 ^ 29)
    by (split; [vm_compute; discriminate | vm_compute; reflexivity]).
  assert (Hr2 : - 2 ^ 29 <= 129 - 100 < 2 ^ 29)
    by (split; [vm_compute; discriminate | vm_compute; reflexivity]).
  assert (Hi1 : current_send_interval_ms
                  (set_last_uart_send_time 100 (handle_command CMD_AIM_BULLSEYE boot))
                <= 130 - 100) by (vm_compute; discriminate).
  assert (Hi2 : 129 - 100
                < current_send_interval_ms
                    (set_last_uart_send_time 100 (handle_command CMD_AIM_BULLSEYE boot)))
    by (vm_compute; reflexivity).
  split; [exact Hh |]. split; [exact Hl |]. split.
  - split; [exact Hr1 |]. split; [exact Hi1 |].
    exact (proj1 (X12_gate_follows_wall_clock (fun _ => 0%Q) (fun _ => 0%Q) (2 ^ 29)
                    (mkSendCall 130 130 130 (Some 120) (Some 80) None None None None)
                    _ 100 Hh Hl Hr1) Hi1).
  - split; [exact Hr2 |]. split; [exact Hi2 |].
    exact (proj2 (X12_gate_follows_wall_clock (fun _ => 0%Q) (fun _ => 0%Q) (2 ^ 29)
                    (mkSendCall 129 129 129 (Some 120) (Some 80) None None None None)
                    _ 100 Hh Hl Hr2) Hi2).
Defined.

(** ** Commands *)

Lemma is_command_iff (command : Z) :
  is_command command = true
  <-> command = CMD_AIM_BULLSEYE \/ command = CMD_CIRCLE_TRACKING
      \/ command = CMD_IDLE.
Proof.
  unfold is_command. rewrite !orb_true_iff, !Z.eqb_eq. tauto.
Qed.

(** X13: a byte outside [COMMAND_MAP] changes nothing; handling the same
    command twice is the same as handling it once; no command writes to
    the UART; and after a recognised command the mode is the one of that
    command, whatever came before (0xA1 aim, 0xA2 tracking, 0xA3 idle). *)
Theorem X13_command_handling :
  forall (command : Z) (g : globals),
    (is_command command = false -> handle_command command g = g)
    /\ handle_command command (handle_command command g) = handle_command command g
    /\ uart_tx (handle_command command g) = uart_tx g
    /\ (is_command command = true ->
        forall previous : Z,
          current_state (handle_command command (handle_command previous g))
          = current_state (handle_command command g)
          /\ (current_state (handle_command command g) = STATE_AIM_BULLSEYE
              <-> command = CMD_AIM_BULLSEYE)
          /\ (current_state (handle_command command g) = STATE_CIRCLE_TRACKING
              <-> command = CMD_CIRCLE_TRACKING)
          /\ (current_state (handle_command command g) = STATE_IDLE
              <-> command = CMD_IDLE)).
Proof.
  intros command g. split; [| split; [| split]].
  - unfold is_command, handle_command. intro H. now rewrite H.
  - unfold handle_command, set_send_interval_for_mode.
    destruct (command =? CMD_AIM_BULLSEYE), (command =? CMD_CIRCLE_TRACKING),
      (command =? CMD_IDLE); reflexivity.
  - unfold handle_command, set_send_interval_for_mode.
    destruct (command =? CMD_AIM_BULLSEYE), (command =? CMD_CIRCLE_TRACKING),
      (command =? CMD_IDLE); reflexivity.
  - intros Hc previous. apply is_command_iff in Hc.
    destruct Hc as [Hc | [Hc | Hc]]; subst command;
      (split; [reflexivity |]); cbn;
      repeat split; intro H; try reflexivity; try discriminate.
Qed.

Lemma X13_command_handling_witness :
  (is_command 7 = false /\ handle_command 7 boot = boot)
  /\ (is_command CMD_IDLE = true
      /\ current_state (handle_command CMD_IDLE (handle_command CMD_CIRCLE_TRACKING boot))
         = current_state (handle_command CMD_IDLE boot)).
Proof.
  split.
  - split; [reflexivity |].
    exact (proj1 (X13_command_handling 7 boot) eq_refl).
  - split; [reflexivity |].
    exact (proj1 (proj2 (proj2 (proj2 (X13_command_handling CMD_IDLE boot))) eq_refl
                    CMD_CIRCLE_TRACKING)).
Defined.

(** ** The main loop *)

Lemma set_current_state_same (g : globals) :
  set_current_state (current_state g) g = g.
Proof. destruct g. reflexivity. Qed.

(** X14: while the mode is idle the main loop is quiescent: through any
    number of passes that receive no byte, a byte outside [COMMAND_MAP] or
    0xA3, whatever the detector would report, no global changes and
    nothing is written to the UART. *)
Theorem X14_idle_is_quiescent :
  forall (cos sin sqrt : Q -> Q) (ticks_half : Z)
         (passes : list (option Z * readings * list blob)) (g : globals),
    current_state g = STATE_IDLE ->
    (forall rx clk blobs,
        In (rx, clk, blobs) passes ->
        rx <> Some CMD_AIM_BULLSEYE /\ rx <> Some CMD_CIRCLE_TRACKING) ->
    main_loop cos sin sqrt ticks_half passes g = g
    /\ (forall rx clk blobs,
           In (rx, clk, blobs) passes ->
           main_iteration cos sin sqrt ticks_half rx clk blobs g = (g, None)).
Proof.
  intros cos sin sqrt ticks_half passes g Hidle Hrx.
  assert (Hstep : forall rx clk blobs,
             rx <> Some CMD_AIM_BULLSEYE /\ rx <> Some CMD_CIRCLE_TRACKING ->
             main_iteration cos sin sqrt ticks_half rx clk blobs g = (g, None)).
  { intros rx clk blobs [H1 H2]. unfold main_iteration. rewrite Hidle.
    cbn [Z.eqb STATE_IDLE].
    destruct rx as [command |]; [| reflexivity].
    destruct (is_command command) eqn:E; [| reflexivity].
    apply is_command_iff in E. destruct E as [E | [E | E]]; subst command.
    - now exfalso.
    - now exfalso.
    - f_equal. change (handle_command CMD_IDLE g) with (set_current_state STATE_IDLE g).
      rewrite <- Hidle. apply set_current_state_same. }
  split.
  - induction passes as [| [[rx clk] blobs] rest IH]; [reflexivity |].
    cbn [main_loop]. rewrite Hstep by (apply (Hrx rx clk blobs); now left).
    cbn [fst]. apply IH. intros rx' clk' blobs' Hin.
    apply (Hrx rx' clk' blobs'). now right.
  - intros rx clk blobs Hin. apply Hstep. now apply (Hrx rx clk blobs).
Qed.

Lemma X14_idle_is_quiescent_witness :
  let good := mkBlob (60, 30, 100, 80) 8000 720 in
  let passes :=
    [(None, mkReadings 100 100 100, [good]);
     (Some 7, mkReadings 200 200 200, [good]);
     (Some CMD_IDLE, mkReadings 300 300 300, [good])] in
  current_state boot = STATE_IDLE
  /\ main_loop (fun _ => 0%Q) (fun _ => 0%Q) (fun _ => 0%Q) (2 ^ 29) passes boot = boot.
Proof.
  cbv zeta. split; [reflexivity |].
  apply (X14_idle_is_quiescent (fun _ => 0%Q) (fun _ => 0%Q) (fun _ => 0%Q) (2 ^ 29));
    [reflexivity |].
  intros rx clk blobs [H | [H | [H | []]]]; injection H as Hrx _ _; subst rx;
    split; discriminate.
Defined.

Lemma clamp255_id (v : Z) : 0 <= v <= 255 -> clamp255 v = v.
Proof. unfold clamp255. lia. Qed.

Section Passes.

Variables cos sin sqrt : Q -> Q.
Variable ticks_half : Z.

Local Abbreviation send_target_coords' := (send_target_coords cos sin ticks_half).
Local Abbreviation main_iteration' := (main_iteration cos sin sqrt ticks_half).

(** A pass that handles no command, in a mode that is not idle, runs the
    frame part. *)
Lemma main_iteration_frame rx clk blobs g :
  match rx with Some command => is_command command | None => false end = false ->
  current_state g <> STATE_IDLE ->
  main_iteration' rx clk blobs g = process_frame cos sin sqrt ticks_half clk blobs g.
Proof.
  intros Hrx Hstate. unfold main_iteration.
  apply Z.eqb_neq in Hstate. rewrite Hstate.
  destruct rx as [command |]; [now rewrite Hrx | reflexivity].
Qed.

(** The call an aim-mode pass makes on an accepted rectangle. *)
Lemma process_frame_aim clk blobs g b x y w h :
  current_state g = STATE_AIM_BULLSEYE ->
  find_target_boundary_rect blobs = Some b ->
  rect b = (x, y, w, h) ->
  0 <= x -> 0 <= y -> 0 <= w -> 0 <= h ->
  process_frame cos sin sqrt ticks_half clk blobs g
  = send_target_coords' clk (Some (x + w / 2)) (Some (y + h / 2))
      None None None None g.
Proof.
  intros Hstate Hfind Hrect Hx Hy Hw Hh. unfold process_frame.
  rewrite Hfind. unfold get_approximate_corners. rewrite Hrect.
  rewrite rect_center_of_corners by assumption.
  now rewrite Hstate.
Qed.

(** The call a tracking-mode pass makes on an accepted rectangle. *)
Lemma process_frame_circle clk blobs g b x y w h :
  current_state g = STATE_CIRCLE_TRACKING ->
  find_target_boundary_rect blobs = Some b ->
  rect b = (x, y, w, h) ->
  0 <= x -> 0 <= y -> 0 <= w -> 0 <= h ->
  let r := h * 2891 / 10000 in
  process_frame cos sin sqrt ticks_half clk blobs g
  = send_target_coords' clk (Some 0) (Some 0) (Some "circle"%string)
      (Some (x + w / 2, y + h / 2)) (Some r)
      (Some (Some (inject_Z r), Some (inject_Z r), Some 0%Q)) g.
Proof.
  intros Hstate Hfind Hrect Hx Hy Hw Hh. cbv zeta.
  pose proof (find_accepts blobs b Hfind) as Hacc.
  destruct (accepted_radius b x y w h Hrect Hw Hh Hacc)
    as (Hparams & _ & _ & Hr4 & _).
  unfold process_frame. rewrite Hfind.
  assert (Hcorners : get_approximate_corners (Some b)
                     = Some [(x, y); (x + w, y); (x + w, y + h); (x, y + h)])
    by (unfold get_approximate_corners; now rewrite Hrect).
  rewrite Hcorners, Hrect.
  rewrite rect_center_of_corners by assumption.
  rewrite Hstate. cbn [Z.eqb STATE_CIRCLE_TRACKING STATE_AIM_BULLSEYE Pos.eqb].
  rewrite Hparams.
  destruct (rect_edges_equal sqrt x y w h) as [He1 He2].
  assert (Hr : 0 < h * 2891 / 10000) by lia.
  pose proof (ellipse_of_equal_edges sqrt _ _ _ _ _ Hr He1 He2) as Hcircle.
  unfold point in *. rewrite Hcircle.
  reflexivity.
Qed.

End Passes.

(** X15: in aim mode, a pass that handles no command writes nothing when
    the validator finds no target or the gate is closed, and otherwise
    sends the centre of the chosen rectangle, [(x + w // 2, y + h // 2)],
    unclamped: the packet is 3C 3B, that x, that y, 01 01; the send time
    becomes the reading of the pass and the scan start time and last scan
    point are [None]. *)
Theorem X15_aim_pass :
  forall (cos sin sqrt : Q -> Q) (ticks_half : Z) rx clk blobs g,
    match rx with Some command => is_command command | None => false end = false ->
    current_state g = STATE_AIM_BULLSEYE ->
    (find_target_boundary_rect blobs = None ->
     main_iteration cos sin sqrt ticks_half rx clk blobs g = (g, None))
    /\ (forall b x y w h,
           find_target_boundary_rect blobs = Some b ->
           rect b = (x, y, w, h) ->
           0 <= x -> 0 <= y -> 0 <= w -> 0 <= h ->
           (ticks_diff ticks_half (ticks_gate clk) (last_uart_send_time g)
            < current_send_interval_ms g ->
            main_iteration cos sin sqrt ticks_half rx clk blobs g = (g, None))
           /\ (current_send_interval_ms g
               <= ticks_diff ticks_half (ticks_gate clk) (last_uart_send_time g) ->
               exists g',
                 main_iteration cos sin sqrt ticks_half rx clk blobs g
                 = (g', Some (x + w / 2, y + h / 2))
                 /\ uart_tx g' = uart_tx g ++ [[60; 59; x + w / 2; y + h / 2; 1; 1]]
                 /\ last_uart_send_time g' = ticks_gate clk
                 /\ circle_start_time g' = None
                 /\ last_target_point g' = None
                 /\ current_state g' = STATE_AIM_BULLSEYE)).
Proof.
  intros cos sin sqrt ticks_half rx clk blobs g Hrx Hstate.
  assert (Hnot_idle : current_state g <> STATE_IDLE)
    by (rewrite Hstate; discriminate).
  rewrite (main_iteration_frame cos sin sqrt ticks_half rx clk blobs g Hrx Hnot_idle).
  split.
  - intro Hnone. unfold process_frame. now rewrite Hnone.
  - intros b x y w h Hfind Hrect Hx Hy Hw Hh.
    rewrite (process_frame_aim cos sin sqrt ticks_half clk blobs g b x y w h)
      by assumption.
    split; [apply send_suppressed |].
    intro Hgate.
    pose proof (find_accepts blobs b Hfind) as Hacc.
    destruct (accepted_blob_facts b x y w h Hrect Hw Hh Hacc)
      as (Ex & Ey & Exw & Eyh & Hw' & Hh' & _).
    pose proof (Z.mul_div_le w 2 ltac:(lia)) as Hw2.
    pose proof (Z.mul_div_le h 2 ltac:(lia)) as Hh2.
    pose proof (Z.div_pos w 2 ltac:(lia) ltac:(lia)) as Hw0.
    pose proof (Z.div_pos h 2 ltac:(lia) ltac:(lia)) as Hh0.
    assert (Hcx : 0 <= x + w / 2 <= 255) by lia.
    assert (Hcy : 0 <= y + h / 2 <= 255) by lia.
    unfold send_target_coords. apply Z.ltb_ge in Hgate. rewrite Hgate.
    unfold build_point, aim_branch. cbn [mode_is_circle].
    rewrite (clamp255_id _ Hcx), (clamp255_id _ Hcy).
    rewrite (target_packet_clamped _ _ Hcx Hcy).
    eexists. split; [reflexivity |].
    cbn. rewrite Hstate. repeat split; reflexivity.
Qed.

Lemma X15_aim_pass_witness :
  let good := mkBlob (70, 40, 100, 80) 8000 720 in
  let g := handle_command CMD_AIM_BULLSEYE boot in
  exists g',
    main_iteration (fun _ => 0%Q) (fun _ => 0%Q) (fun _ => 0%Q) (2 ^ 29)
      None (mkReadings 100 100 100) [good] g
    = (g', Some (70 + 100 / 2, 40 + 80 / 2))
    /\ uart_tx g' = uart_tx g ++ [[60; 59; 70 + 100 / 2; 40 + 80 / 2; 1; 1]]
    /\ last_uart_send_time g' = 100
    /\ circle_start_time g' = None
    /\ last_target_point g' = None
    /\ current_state g' = STATE_AIM_BULLSEYE.
Proof.
  cbv zeta.
  apply (proj2 (proj2 (X15_aim_pass (fun _ => 0%Q) (fun _ => 0%Q) (fun _ => 0%Q) (2 ^ 29)
                         None (mkReadings 100 100 100)
                         [mkBlob (70, 40, 100, 80) 8000 720]
                         (handle_command CMD_AIM_BULLSEYE boot) eq_refl eq_refl)
                  (mkBlob (70, 40, 100, 80) 8000 720) 70 40 100 80
                  ltac:(vm_compute; reflexivity) eq_refl
                  ltac:(lia) ltac:(lia) ltac:(lia) ltac:(lia))).
  vm_compute. discriminate.
Defined.

(** The start time the circle branch leaves. *)
Lemma circle_branch_start (cos sin : Q -> Q) (ticks_half : Z)
      clk center radius ellipse_params g :
  circle_start_time (fst (circle_branch cos sin ticks_half clk center radius
                            ellipse_params g))
  = Some (match circle_start_time g with
          | Some t => t
          | None => ticks_start clk
          end).
Proof.
  unfold circle_branch. destruct center as [center_x center_y].
  destruct (circle_start_time g) as [t |] eqn:Et;
    (destruct ellipse_params as [[[[a |] [b |]] [r |]] |];
     match goal with
     | |- context [get_ellipse_point ?c ?s ?cx ?cy ?a ?b ?an ?ro] =>
         destruct (get_ellipse_point c s cx cy a b an ro) as [tx ty]
     end;
     cbn [last_target_point set_current_angle set_circle_start_time];
     destruct (last_target_point g) as [[lx ly] |]; cbn; auto).
Qed.

(** X16: in tracking mode, a pass that handles no command and finds a
    target calls [send_target_coords] in circle mode around the centre
    [(x + w // 2, y + h // 2)] of the chosen rectangle with the radius
    [r = floor(h * 0.2891)] and the ellipse [(r, r, 0)], a circle.  When
    the gate lets it through, the point returned is the stored scan point
    clamped, the start time is kept, or set to the reading of the pass if
    there was none, and the send time becomes the reading of the pass.
    The first point of a scan (no previous point), with a cosine and sine
    in [-1, 1] that are 1 and 0 at 0, lies within [r] of the centre
    horizontally and inside the vertical extent of the rectangle. *)
Theorem X16_tracking_pass :
  forall (cos sin sqrt : Q -> Q) (ticks_half : Z) rx clk blobs g b x y w h,
    match rx with Some command => is_command command | None => false end = false ->
    current_state g = STATE_CIRCLE_TRACKING ->
    find_target_boundary_rect blobs = Some b ->
    rect b = (x, y, w, h) ->
    0 <= x -> 0 <= y -> 0 <= w -> 0 <= h ->
    let r := h * 2891 / 10000 in
    let cx := x + w / 2 in
    let cy := y + h / 2 in
    main_iteration cos sin sqrt ticks_half rx clk blobs g
    = send_target_coords cos sin ticks_half clk (Some 0) (Some 0)
        (Some "circle"%string) (Some (cx, cy)) (Some r)
        (Some (Some (inject_Z r), Some (inject_Z r), Some 0%Q)) g
    /\ (current_send_interval_ms g
        <= ticks_diff ticks_half (ticks_gate clk) (last_uart_send_time g) ->
        exists g' sx sy,
          main_iteration cos sin sqrt ticks_half rx clk blobs g
          = (g', Some (clamp255 sx, clamp255 sy))
          /\ last_target_point g' = Some (sx, sy)
          /\ circle_start_time g'
             = Some (match circle_start_time g with
                     | Some t => t
                     | None => ticks_start clk
                     end)
          /\ last_uart_send_time g' = ticks_gate clk
          /\ (last_target_point g = None ->
              (forall t, (-1 <= cos t)%Q /\ (cos t <= 1)%Q) ->
              (forall t, (-1 <= sin t)%Q /\ (sin t <= 1)%Q) ->
              (cos 0 == 1)%Q -> (sin 0 == 0)%Q ->
              cx - r <= sx <= cx + r /\ y <= sy <= y + h)).
Proof.
  intros cos sin sqrt ticks_half rx clk blobs g b x y w h
         Hrx Hstate Hfind Hrect Hx Hy Hw Hh. cbv zeta.
  assert (Hnot_idle : current_state g <> STATE_IDLE)
    by (rewrite Hstate; discriminate).
  rewrite (main_iteration_frame cos sin sqrt ticks_half rx clk blobs g Hrx Hnot_idle).
  rewrite (process_frame_circle cos sin sqrt ticks_half clk blobs g b x y w h)
    by assumption.
  split; [reflexivity |].
  intro Hgate.
  pose proof (find_accepts blobs b Hfind) as Hacc.
  destruct (accepted_radius b x y w h Hrect Hw Hh Hacc)
    as (_ & Hh16 & Hyh & Hr4 & Hhalf).
  set (r := h * 2891 / 10000) in *.
  set (ep := Some (Some (inject_Z r), Some (inject_Z r), Some 0%Q)).
  pose proof (circle_branch_point cos sin ticks_half clk (x + w / 2) (y + h / 2)
                r ep g) as Hpoint.
  pose proof (circle_branch_start cos sin ticks_half clk
                (x + w / 2, y + h / 2) r ep g) as Hstart.
  cbv zeta in Hpoint. cbn [effective_ellipse ep] in Hpoint.
  unfold send_target_coords. apply Z.ltb_ge in Hgate. rewrite Hgate.
  unfold build_point.
  change (mode_is_circle (Some "circle"%string)) with true. cbv iota.
  destruct (circle_branch cos sin ticks_half clk (x + w / 2, y + h / 2) r ep g)
    as [g1 [fx fy]] eqn:Ecb.
  cbn [fst snd] in Hpoint, Hstart.
  destruct Hpoint as [Hlast Hret].
  match type of Hlast with
  | _ = Some ?st => set (stored := st) in *
  end.
  assert (Hfx : fx = clamp255 (fst stored)) by congruence.
  assert (Hfy : fy = clamp255 (snd stored)) by congruence.
  rewrite Hfx, Hfy.
  rewrite (target_packet_clamped _ _ (clamp255_range (fst stored))
             (clamp255_range (snd stored))).
  exists (set_last_uart_send_time (ticks_gate clk)
            (uart_write [60; 59; clamp255 (fst stored); clamp255 (snd stored); 1; 1] g1)),
    (fst stored), (snd stored).
  split; [reflexivity |].
  cbn [last_target_point circle_start_time last_uart_send_time
       set_last_uart_send_time uart_write].
  split; [now rewrite Hlast, <- surjective_pairing |].
  split; [exact Hstart |]. split; [reflexivity |].
  intros Hnone Hcos Hsin Hc0 Hs0.
  subst stored. rewrite Hnone.
  pose proof (ellipse_point_axis_range cos sin (x + w / 2) (y + h / 2)
                (inject_Z r) (inject_Z r) (current_angle g1) 0%Q
                (Hcos _) (Hsin _) Hc0 Hs0) as Hrange.
  cbv zeta in Hrange. rewrite int_inject_Z in Hrange.
  replace (Z.max 1 r) with r in Hrange by lia.
  pose proof (Z.mul_div_le h 2 ltac:(lia)) as Hh2.
  lia.
Qed.

Lemma X16_tracking_pass_witness :
  let good := mkBlob (70, 40, 100, 80) 8000 720 in
  let g := handle_command CMD_CIRCLE_TRACKING boot in
  let cos := fun t : Q => if Qle_bool t 0 then 1%Q else (1 # 2)%Q in
  let sin := fun t : Q => if Qle_bool t 0 then 0%Q else (-1 # 2)%Q in
  main_iteration cos sin (fun _ => 0%Q) (2 ^ 29) None (mkReadings 100 101 102) [good] g
  = send_target_coords cos sin (2 ^ 29) (mkReadings 100 101 102) (Some 0) (Some 0)
      (Some "circle"%string) (Some (70 + 100 / 2, 40 + 80 / 2))
      (Some (80 * 2891 / 10000))
      (Some (Some (inject_Z (80 * 2891 / 10000)),
             Some (inject_Z (80 * 2891 / 10000)), Some 0%Q)) g
  /\ exists g' sx sy,
       main_iteration cos sin (fun _ => 0%Q) (2 ^ 29) None (mkReadings 100 101 102)
         [good] g
       = (g', Some (clamp255 sx, clamp255 sy))
       /\ circle_start_time g' = Some 101
       /\ (70 + 100 / 2) - 80 * 2891 / 10000 <= sx <= (70 + 100 / 2) + 80 * 2891 / 10000
       /\ 40 <= sy <= 40 + 80.
Proof.
  cbv zeta.
  pose proof (X16_tracking_pass
                (fun t : Q => if Qle_bool t 0 then 1%Q else (1 # 2)%Q)
                (fun t : Q => if Qle_bool t 0 then 0%Q else (-1 # 2)%Q)
                (fun _ => 0%Q) (2 ^ 29)
                None (mkReadings 100 101 102)
                [mkBlob (70, 40, 100, 80) 8000 720]
                (handle_command CMD_CIRCLE_TRACKING boot)
                (mkBlob (70, 40, 100, 80) 8000 720) 70 40 100 80
                eq_refl eq_refl ltac:(vm_compute; reflexivity) eq_refl
                ltac:(lia) ltac:(lia) ltac:(lia) ltac:(lia)) as H.
  cbv zeta in H. destruct H as [Hcall Hopen].
  split; [exact Hcall |].
  destruct (Hopen ltac:(vm_compute; discriminate))
    as (g' & sx & sy & Hrun & _ & Hstart & _ & Hfirst).
  exists g', sx, sy. split; [exact Hrun |]. split; [exact Hstart |].
  apply Hfirst.
  - reflexivity.
  - intro t. destruct (Qle_bool t 0); split; lra.
  - intro t. destruct (Qle_bool t 0); split; lra.
  - reflexivity.
  - reflexivity.
Defined.

(** ** The main loop as a run of events *)

Section PassesAsEvents.

Variables cos sin sqrt : Q -> Q.
Variable ticks_half : Z.

Local Abbreviation run_pass' := (run_pass cos sin sqrt ticks_half).
Local Abbreviation run_passes' := (run_passes cos sin sqrt ticks_half).
Local Abbreviation events_of_pass' := (events_of_pass sqrt).
Local Abbreviation events_of_passes' := (events_of_passes cos sin sqrt ticks_half).
Local Abbreviation exec' := (exec cos sin ticks_half).

Lemma exec_app events1 events2 g :
  exec' (events1 ++ events2) g = exec' events2 (exec' events1 g).
Proof. unfold exec. apply fold_left_app. Qed.

(** The frame part of a pass is the call [call_of_pass] names. *)
Lemma frame_is_call (p : clocked_pass) (g : globals) :
  fst (if current_state g =? STATE_IDLE then (g, None)
       else process_frame cos sin sqrt ticks_half
              (pass_readings ticks_half (snd (fst p))) (pass_blobs p) g)
  = exec' match call_of_pass sqrt p g with
          | Some c => [Send c]
          | None => []
          end g.
Proof.
  unfold call_of_pass, process_frame.
  destruct p as [[rx [[t0 t1] t2]] blobs]. cbn [fst snd pass_blobs pass_readings].
  unfold pass_blobs. cbn [snd].
  destruct (current_state g =? STATE_IDLE); [reflexivity |].
  destruct (find_target_boundary_rect blobs) as [b |]; [| reflexivity].
  unfold get_approximate_corners. destruct (rect b) as [[[x y] w] h].
  destruct (calculate_perspective_correction _) as [ccx ccy].
  destruct (current_state g =? STATE_AIM_BULLSEYE); [reflexivity |].
  destruct (current_state g =? STATE_CIRCLE_TRACKING); [| reflexivity].
  destruct (calculate_circle_params (Some w) (Some h)) as [r10 r6].
  reflexivity.
Qed.

Lemma run_pass_is_exec (p : clocked_pass) (g : globals) :
  fst (run_pass' p g) = exec' (events_of_pass' p g) g.
Proof.
  unfold run_pass, main_iteration, events_of_pass.
  destruct (pass_rx p) as [command |].
  - destruct (is_command command); [reflexivity | apply frame_is_call].
  - apply frame_is_call.
Qed.

Lemma run_passes_is_exec (passes : list clocked_pass) :
  forall g, run_passes' passes g = exec' (events_of_passes' passes g) g.
Proof.
  induction passes as [| p rest IH]; intro g; cbn [run_passes events_of_passes].
  - reflexivity.
  - rewrite exec_app, <- run_pass_is_exec. apply IH.
Qed.

(** A pass is at most one event, and a call it makes carries its time. *)
Lemma events_of_pass_cases (p : clocked_pass) (g : globals) :
  events_of_pass' p g = []
  \/ (exists command, events_of_pass' p g = [Command command])
  \/ (exists c, events_of_pass' p g = [Send c] /\ send_now c = pass_time p).
Proof.
  assert (Hcall : forall c, call_of_pass sqrt p g = Some c -> send_now c = pass_time p).
  { unfold call_of_pass, pass_time.
    destruct p as [[rx [[t0 t1] t2]] blobs]. cbn [fst snd].
    destruct (current_state g =? STATE_IDLE); [discriminate |].
    destruct (find_target_boundary_rect _) as [b |]; [| discriminate].
    destruct (calculate_perspective_correction _) as [ccx ccy].
    destruct (rect b) as [[[x y] w] h].
    destruct (current_state g =? STATE_AIM_BULLSEYE);
      [intros c H; injection H as H; now subst c |].
    destruct (current_state g =? STATE_CIRCLE_TRACKING); [| discriminate].
    destruct (calculate_circle_params (Some w) (Some h)) as [r10 r6].
    intros c H. injection H as H. now subst c. }
  unfold events_of_pass.
  destruct (call_of_pass sqrt p g) as [c |] eqn:Ec.
  - specialize (Hcall c eq_refl).
    destruct (pass_rx p) as [command |].
    + destruct (is_command command).
      * right. left. now exists command.
      * right. right. now exists c.
    + right. right. now exists c.
  - destruct (pass_rx p) as [command |].
    + destruct (is_command command); [right; left; now exists command | now left].
    + now left.
Qed.

Lemma events_of_passes_monotonic (passes : list clocked_pass) :
  forall g t,
    passes_monotonic_from t passes ->
    monotonic_from t (events_of_passes' passes g).
Proof.
  induction passes as [| p rest IH]; intros g t Hmono;
    cbn [events_of_passes passes_monotonic_from] in *.
  - exact I.
  - destruct Hmono as [Ht Hrest].
    specialize (IH (fst (run_pass' p g)) (pass_time p) Hrest).
    destruct (events_of_pass_cases p g) as [E | [(command & E) | (c & E & Hc)]];
      rewrite E; cbn [app monotonic_from].
    + now apply (monotonic_from_weaken _ (pass_time p)).
    + now apply (monotonic_from_weaken _ (pass_time p)).
    + rewrite Hc. split; assumption.
Qed.

Lemma events_of_passes_times (passes : list clocked_pass) :
  forall g c,
    In (Send c) (events_of_passes' passes g) ->
    In (send_now c) (map pass_time passes).
Proof.
  induction passes as [| p rest IH]; intros g c Hin;
    cbn [events_of_passes map] in *.
  - destruct Hin.
  - apply in_app_or in Hin. destruct Hin as [Hin | Hin].
    + left.
      destruct (events_of_pass_cases p g) as [E | [(command & E) | (c' & E & Hc)]];
        rewrite E in Hin.
      * destruct Hin.
      * destruct Hin as [H | []]. discriminate.
      * destruct Hin as [H | []]. injection H as H. subst c'. now symmetry.
    + right. exact (IH _ c Hin).
Qed.

Lemma emissions_come_from_calls (events : list event) :
  forall g,
    Forall (fun e => exists c, In (Send c) events /\ em_time e = send_now c)
           (emissions cos sin ticks_half events g).
Proof.
  induction events as [| [command | c] rest IH]; intro g; cbn [emissions].
  - constructor.
  - eapply Forall_impl; [| apply IH].
    intros e (c & Hin & Ht). exists c. split; [now right | exact Ht].
  - assert (Hrest : forall g',
               Forall (fun e => exists c0,
                           In (Send c0) (Send c :: rest) /\ em_time e = send_now c0)
                      (emissions cos sin ticks_half rest g')).
    { intro g'. eapply Forall_impl; [| apply IH].
      intros e (c0 & Hin & Ht). exists c0. split; [now right | exact Ht]. }
    destruct (do_send cos sin ticks_half c g) as [g' [p |]].
    + constructor; [| apply Hrest].
      exists c. split; [now left | reflexivity].
    + apply Hrest.
Qed.

End PassesAsEvents.

(** X17: the passes of the main loop, started at non-decreasing wall-clock
    times, are a run of commands and calls of [send_target_coords]: the
    state after the passes is the state after those events.  Hence any two
    packets the main loop writes are at least the interval in force at the
    later one apart, every packet is written at the start time of one of
    the passes, and the UART log grows by exactly the packets recorded. *)
Theorem X17_main_loop_rate :
  forall (cos sin sqrt : Q -> Q) (ticks_half : Z)
         (passes : list clocked_pass) (g : globals) (t0 : Z),
    0 < ticks_half ->
    passes_monotonic_from t0 passes ->
    let events := events_of_passes cos sin sqrt ticks_half passes g in
    let written := emissions cos sin ticks_half events g in
    run_passes cos sin sqrt ticks_half passes g = exec cos sin ticks_half events g
    /\ ForallOrdPairs Spec.spaced written
    /\ Forall (fun e => In (em_time e) (map pass_time passes)) written
    /\ List.length (uart_tx (run_passes cos sin sqrt ticks_half passes g))
       = (List.length (uart_tx g) + List.length written)%nat.
Proof.
  intros cos sin sqrt ticks_half passes g t0 Hpos Hmono. cbv zeta.
  pose proof (run_passes_is_exec cos sin sqrt ticks_half passes g) as Hexec.
  pose proof (events_of_passes_monotonic cos sin sqrt ticks_half passes g t0 Hmono)
    as Hev.
  split; [exact Hexec |]. split; [| split].
  - now apply (emissions_spaced cos sin ticks_half Hpos _ g t0).
  - eapply Forall_impl; [| apply emissions_come_from_calls].
    intros e (c & Hin & Ht). rewrite Ht.
    now apply (events_of_passes_times cos sin sqrt ticks_half passes g).
  - rewrite Hexec. apply emissions_count.
Qed.

Lemma X17_main_loop_rate_witness :
  let good := mkBlob (70, 40, 100, 80) 8000 720 in
  let passes : list clocked_pass :=
    [(Some CMD_AIM_BULLSEYE, (90, 90, 90), []);
     (None, (100, 100, 100), [good]);
     (None, (110, 110, 110), [good]);
     (Some 7, (135, 135, 135), [good]);
     (Some CMD_IDLE, (140, 140, 140), [good]);
     (None, (200, 200, 200), [good])] in
  0 < 2 ^ 29
  /\ passes_monotonic_from 0 passes
  /\ uart_tx (run_passes (fun _ => 0%Q) (fun _ => 0%Q) (fun _ => 0%Q) (2 ^ 29)
                passes boot)
     = [[60; 59; 120; 80; 1; 1]; [60; 59; 120; 80; 1; 1]]
  /\ ForallOrdPairs Spec.spaced
       (emissions (fun _ => 0%Q) (fun _ => 0%Q) (2 ^ 29)
          (events_of_passes (fun _ => 0%Q) (fun _ => 0%Q) (fun _ => 0%Q) (2 ^ 29)
             passes boot)
          boot).
Proof.
  cbv zeta.
  assert (Hpos : 0 < 2 ^ 29) by reflexivity.
  assert (Hmono : passes_monotonic_from 0
            [(Some CMD_AIM_BULLSEYE, (90, 90, 90), []);
             (None, (100, 100, 100), [mkBlob (70, 40, 100, 80) 8000 720]);
             (None, (110, 110, 110), [mkBlob (70, 40, 100, 80) 8000 720]);
             (Some 7, (135, 135, 135), [mkBlob (70, 40, 100, 80) 8000 720]);
             (Some CMD_IDLE, (140, 140, 140), [mkBlob (70, 40, 100, 80) 8000 720]);
             (None, (200, 200, 200), [mkBlob (70, 40, 100, 80) 8000 720])])
    by (cbn; lia).
  split; [exact Hpos |]. split; [exact Hmono |].
  split; [vm_compute; reflexivity |].
  exact (proj1 (proj2 (X17_main_loop_rate (fun _ => 0%Q) (fun _ => 0%Q) (fun _ => 0%Q)
                         (2 ^ 29) _ boot 0 Hpos Hmono))).
Defined.

(** ** The order of the blobs *)

Lemma chosen_area_le (l l' : list blob) (b b' : blob) :
  (forall c, In c l -> In c l') ->
  find_target_boundary_rect l = Some b ->
  find_target_boundary_rect l' = Some b' ->
  rect_area_of b <= rect_area_of b'.
Proof.
  intros Hsub Hb Hb'.
  destruct (find_target_boundary_rect_some l b Hb) as (l1 & l2 & Hdec & Hrej & _).
  destruct (find_target_boundary_rect_some l' b' Hb')
    as (k1 & k2 & Hdec' & _ & Hbefore & Hafter).
  assert (Hin : In b l') by (apply Hsub; rewrite Hdec; apply in_or_app; right; now left).
  rewrite Hdec' in Hin. apply in_app_or in Hin.
  destruct Hin as [Hin | [Hin | Hin]].
  - specialize (Hbefore b Hin Hrej). lia.
  - subst b'. lia.
  - now apply Hafter.
Qed.

(** X18: the rectangle area of the blob [find_target_boundary_rect]
    chooses does not depend on the order in which the detector lists the
    blobs: on two lists that are permutations of each other it returns
    [None] on both or blobs of equal area (the blob itself may differ when
    areas tie, the first one winning). *)
Theorem X18_chosen_area_is_order_independent :
  forall l l' : list blob,
    Permutation l l' ->
    option_map rect_area_of (find_target_boundary_rect l)
    = option_map rect_area_of (find_target_boundary_rect l').
Proof.
  intros l l' Hperm.
  assert (H1 : forall c, In c l -> In c l')
    by (intros c; apply Permutation_in; exact Hperm).
  assert (H2 : forall c, In c l' -> In c l)
    by (intros c; apply Permutation_in; now apply Permutation_sym).
  destruct (find_target_boundary_rect l) as [b |] eqn:E;
    destruct (find_target_boundary_rect l') as [b' |] eqn:E'; cbn [option_map].
  - f_equal.
    pose proof (chosen_area_le l l' b b' H1 E E').
    pose proof (chosen_area_le l' l b' b H2 E' E). lia.
  - exfalso.
    destruct (find_target_boundary_rect_some l b E) as (l1 & l2 & Hdec & Hrej & _).
    apply Hrej.
    apply (proj1 (find_target_boundary_rect_none_iff l') E').
    apply H1. rewrite Hdec. apply in_or_app. right. now left.
  - exfalso.
    destruct (find_target_boundary_rect_some l' b' E') as (l1 & l2 & Hdec & Hrej & _).
    apply Hrej.
    apply (proj1 (find_target_boundary_rect_none_iff l) E).
    apply H2. rewrite Hdec. apply in_or_app. right. now left.
  - reflexivity.
Qed.

Lemma X18_chosen_area_is_order_independent_witness :
  let wide := mkBlob (60, 30, 100, 80) 8000 720 in
  let tall := mkBlob (100, 50, 80, 100) 8000 720 in
  Permutation [wide; tall] [tall; wide]
  /\ find_target_boundary_rect [wide; tall] = Some wide
  /\ find_target_boundary_rect [tall; wide] = Some tall
  /\ option_map rect_area_of (find_target_boundary_rect [wide; tall])
     = option_map rect_area_of (find_target_boundary_rect [tall; wide]).
Proof.
  cbv zeta.
  assert (Hp : Permutation [mkBlob (60, 30, 100, 80) 8000 720;
                            mkBlob (100, 50, 80, 100) 8000 720]
                           [mkBlob (100, 50, 80, 100) 8000 720;
                            mkBlob (60, 30, 100, 80) 8000 720])
    by apply perm_swap.
  split; [exact Hp |].
  split; [vm_compute; reflexivity |].
  split; [vm_compute; reflexivity |].
  exact (X18_chosen_area_is_order_independent _ _ Hp).
Defined.

(** ** Two more invariants of a run *)

Section MoreInvariants.

Variables cos sin sqrt : Q -> Q.
Variable ticks_half : Z.

(** What one call does to the scan state and to the UART log. *)
Lemma send_effect clk cx cy mode center radius ellipse_params g :
  let g' := fst (send_target_coords cos sin ticks_half clk cx cy mode center
                   radius ellipse_params g) in
  (scan_state_paired g -> scan_state_paired g')
  /\ (uart_tx g' = uart_tx g
      \/ exists data, well_formed_packet data /\ uart_tx g' = uart_tx g ++ [data]).
Proof.
  cbv zeta.
  destruct (send_cases cos sin ticks_half clk cx cy mode center radius
              ellipse_params g)
    as [[_ Hs] | [_ (g1 & x & y & Hb & Hs)]]; rewrite Hs; cbn [fst].
  - split; [auto | now left].
  - destruct (build_point_spec cos sin ticks_half clk cx cy mode center radius
                ellipse_params g)
      as (g1' & x' & y' & Hb' & Htx & _ & _ & _ & Hcirc & Haim).
    rewrite Hb in Hb'. injection Hb' as Hg1 _ _. subst g1'.
    split.
    + intros _. unfold scan_state_paired.
      cbn [circle_start_time last_target_point set_last_uart_send_time uart_write].
      destruct (is_circle_call mode center radius) eqn:E.
      * destruct (build_point_circle cos sin ticks_half clk cx cy mode center
                    radius ellipse_params g E) as (c & r & _ & _ & Hc).
        rewrite Hc in Hb.
        assert (Hg1 : g1 = fst (circle_branch cos sin ticks_half clk c r
                                  ellipse_params g)) by now rewrite Hb.
        rewrite (Hcirc eq_refl). rewrite Hg1, circle_branch_start.
        split; discriminate.
      * destruct (Haim eq_refl) as (H1 & H2 & _). rewrite H1, H2. tauto.
    + right. exists [60; 59; clamp255 x; clamp255 y; 1; 1]. split.
      * exists (clamp255 x), (clamp255 y).
        split; [apply clamp255_range | split; [apply clamp255_range | reflexivity]].
      * cbn [uart_tx set_last_uart_send_time uart_write]. now rewrite Htx.
Qed.

Lemma handle_command_paired command g :
  scan_state_paired g -> scan_state_paired (handle_command command g).
Proof.
  unfold scan_state_paired, handle_command, set_send_interval_for_mode.
  destruct (command =? CMD_AIM_BULLSEYE), (command =? CMD_CIRCLE_TRACKING),
    (command =? CMD_IDLE); cbn; tauto.
Qed.

Lemma handle_command_uart command g :
  uart_tx (handle_command command g) = uart_tx g.
Proof.
  unfold handle_command, set_send_interval_for_mode.
  destruct (command =? CMD_AIM_BULLSEYE), (command =? CMD_CIRCLE_TRACKING),
    (command =? CMD_IDLE); reflexivity.
Qed.

(** One pass keeps the pairing and appends at most one well-formed
    packet. *)
Lemma main_iteration_effect rx clk blobs g :
  let g' := fst (main_iteration cos sin sqrt ticks_half rx clk blobs g) in
  (scan_state_paired g -> scan_state_paired g')
  /\ (uart_tx g' = uart_tx g
      \/ exists data, well_formed_packet data /\ uart_tx g' = uart_tx g ++ [data]).
Proof.
  cbv zeta.
  destruct (main_iteration_cases cos sin sqrt ticks_half rx clk blobs g)
    as [H | [(command & _ & _ & H) | (cx & cy & mode & center & radius & ep & H)]];
    rewrite H; cbn [fst].
  - split; [auto | now left].
  - split; [apply handle_command_paired | left; apply handle_command_uart].
  - apply send_effect.
Qed.

Lemma main_loop_effect passes :
  forall g,
    (scan_state_paired g ->
     scan_state_paired (main_loop cos sin sqrt ticks_half passes g))
    /\ exists written,
        Forall well_formed_packet written
        /\ uart_tx (main_loop cos sin sqrt ticks_half passes g)
           = uart_tx g ++ written.
Proof.
  induction passes as [| [[rx clk] blobs] rest IH]; intro g; cbn [main_loop].
  - split; [auto |]. exists []. split; [constructor | now rewrite app_nil_r].
  - destruct (main_iteration_effect rx clk blobs g) as [Hp Htx].
    destruct (IH (fst (main_iteration cos sin sqrt ticks_half rx clk blobs g)))
      as [Hp' (written & Hwf & Hw)].
    split; [auto |].
    destruct Htx as [Htx | (data & Hdata & Htx)]; rewrite Htx in Hw.
    + exists written. auto.
    + exists (data :: written). split; [now constructor |].
      rewrite Hw, <- app_assoc. reflexivity.
Qed.

Lemma exec_effect events :
  forall g,
    (scan_state_paired g ->
     scan_state_paired (exec cos sin ticks_half events g))
    /\ exists written,
        Forall well_formed_packet written
        /\ uart_tx (exec cos sin ticks_half events g) = uart_tx g ++ written.
Proof.
  unfold exec.
  induction events as [| e rest IH]; intro g; cbn [fold_left].
  - split; [auto |]. exists []. split; [constructor | now rewrite app_nil_r].
  - assert (Hstep :
      (scan_state_paired g -> scan_state_paired (step cos sin ticks_half e g))
      /\ (uart_tx (step cos sin ticks_half e g) = uart_tx g
          \/ exists data, well_formed_packet data
                          /\ uart_tx (step cos sin ticks_half e g) = uart_tx g ++ [data])).
    { destruct e as [command | c]; cbn [step].
      - split; [apply handle_command_paired | left; apply handle_command_uart].
      - unfold do_send. apply send_effect. }
    destruct Hstep as [Hp Htx].
    destruct (IH (step cos sin ticks_half e g)) as [Hp' (written & Hwf & Hw)].
    split; [auto |].
    destruct Htx as [Htx | (data & Hdata & Htx)]; rewrite Htx in Hw.
    + exists written. auto.
    + exists (data :: written). split; [now constructor |].
      rewrite Hw, <- app_assoc. reflexivity.
Qed.

End MoreInvariants.

(** X19: the scan start time and the last scan point go together: at boot
    both are [None], and after any run of commands and calls, and after any
    passes of the main loop, [circle_start_time] is [None] exactly when
    [last_target_point] is. *)
Theorem X19_scan_state_is_paired :
  forall (cos sin sqrt : Q -> Q) (ticks_half : Z),
    scan_state_paired boot
    /\ (forall events g,
           scan_state_paired g ->
           scan_state_paired (exec cos sin ticks_half events g))
    /\ (forall passes g,
           scan_state_paired g ->
           scan_state_paired (main_loop cos sin sqrt ticks_half passes g)).
Proof.
  intros cos sin sqrt ticks_half. split; [| split].
  - unfold scan_state_paired. cbn. tauto.
  - intros events g. exact (proj1 (exec_effect cos sin ticks_half events g)).
  - intros passes g. exact (proj1 (main_loop_effect cos sin sqrt ticks_half passes g)).
Qed.

Lemma X19_scan_state_is_paired_witness :
  let events :=
    [Command CMD_CIRCLE_TRACKING;
     Send (mkSendCall 100 100 100 (Some 0) (Some 0) (Some "circle"%string)
             (Some (120, 80)) (Some 23) None);
     Command CMD_AIM_BULLSEYE] in
  scan_state_paired boot
  /\ scan_state_paired (exec (fun _ => 0%Q) (fun _ => 0%Q) (2 ^ 29) events boot)
  /\ circle_start_time (exec (fun _ => 0%Q) (fun _ => 0%Q) (2 ^ 29) events boot)
     = Some 100.
Proof.
  cbv zeta.
  destruct (X19_scan_state_is_paired (fun _ => 0%Q) (fun _ => 0%Q) (fun _ => 0%Q) (2 ^ 29))
    as (Hboot & Hexec & _).
  split; [exact Hboot |]. split; [apply Hexec; exact Hboot | reflexivity].
Defined.

(** X20: the UART log only grows, and only by target packets: after any
    run of commands and calls, and after any passes of the main loop, the
    log is the log before followed by packets that are each six bytes, 3C
    3B, two coordinate bytes in [0, 255], 01 01.  From the boot state every
    packet in the log is such a packet. *)
Theorem X20_uart_log_is_well_formed :
  forall (cos sin sqrt : Q -> Q) (ticks_half : Z),
    (forall events g,
        exists written,
          Forall well_formed_packet written
          /\ uart_tx (exec cos sin ticks_half events g) = uart_tx g ++ written)
    /\ (forall passes g,
           exists written,
             Forall well_formed_packet written
             /\ uart_tx (main_loop cos sin sqrt ticks_half passes g)
                = uart_tx g ++ written)
    /\ (forall passes,
           Forall (fun data => well_formed_packet data /\ List.length data = 6%nat)
                  (uart_tx (main_loop cos sin sqrt ticks_half passes boot))).
Proof.
  intros cos sin sqrt ticks_half. split; [| split].
  - intros events g. exact (proj2 (exec_effect cos sin ticks_half events g)).
  - intros passes g. exact (proj2 (main_loop_effect cos sin sqrt ticks_half passes g)).
  - intro passes.
    destruct (proj2 (main_loop_effect cos sin sqrt ticks_half passes boot))
      as (written & Hwf & Hw).
    rewrite Hw. cbn [uart_tx boot app].
    eapply Forall_impl; [| exact Hwf].
    intros data Hdata. split; [exact Hdata |].
    destruct Hdata as (x & y & _ & _ & E). now rewrite E.
Qed.
